(** * Lovart runner: a shallow embedding of [utils/lovart_runner.js] and of
    the two task-queue workers, with the properties of the design document
    stated and settled against it.

    Layout: the embedding comes first, one module per component of the
    runner (JavaScript numbers, result slots and the aggregator, the claim
    set, the two pollers, the archive handler, the direct-download pool,
    the task queue); the theorems follow. *)

From Stdlib Require Import ZArith Lia List Bool Ascii String.
From Stdlib Require Import DecimalString Strings.Byte Floats.SpecFloat.
From stdpp Require Import base gmap strings list sorting.

(** ** Control outcomes

    An [async] function of the runner either returns a value or throws an
    [Error]; the thrown error is kept by its message.  A loop of the runner
    is run over the list of what it observes, one element per turn, and is
    [Pending] when that list ends before the loop does. *)
Inductive outcome (A : Type) :=
| Returned (a : A)
| Threw (message : string)
| Pending.
Arguments Returned {A} a.
Arguments Threw {A} message.
Arguments Pending {A}.

(** ** Strings

    Strings are byte strings holding the UTF-8 encoding of the JavaScript
    text; substring tests on the encoding agree with substring tests on
    the text. *)
Module Str.

(** [hay.includes(needle)] *)
Fixpoint contains (needle hay : string) : bool :=
  String.prefix needle hay ||
  match hay with
  | EmptyString => false
  | String _ rest => contains needle rest
  end.

(** ASCII case folding, which is all [toLowerCase] and the [i] flag do
    to the letters the runner's patterns mention. *)
Definition lower_ascii (c : ascii) : ascii :=
  let n := nat_of_ascii c in
  if (65 <=? n)%nat && (n <=? 90)%nat then ascii_of_nat (n + 32) else c.

Fixpoint toLowerCase (s : string) : string :=
  match s with
  | EmptyString => EmptyString
  | String c rest => String (lower_ascii c) (toLowerCase rest)
  end.

(** [String(n)] for a natural number. *)
Definition of_nat (n : nat) : string := NilEmpty.string_of_uint (Nat.to_uint n).

Fixpoint repeat_char (c : ascii) (n : nat) : string :=
  match n with
  | O => EmptyString
  | S k => String c (repeat_char c k)
  end.

(** [s.padStart(width, '0')] *)
Definition padStart0 (width : nat) (s : string) : string :=
  (repeat_char "0"%char (width - String.length s) ++ s)%string.

(** [s.trim()] on the ASCII white space and line terminators. *)
Definition is_space (c : ascii) : bool :=
  let n := nat_of_ascii c in
  ((9 <=? n)%nat && (n <=? 13)%nat) || (n =? 32)%nat.

Fixpoint trimStart (s : string) : string :=
  match s with
  | EmptyString => EmptyString
  | String c rest => if is_space c then trimStart rest else s
  end.

Fixpoint trimEnd (s : string) : string :=
  match s with
  | EmptyString => EmptyString
  | String c rest =>
      match trimEnd rest with
      | EmptyString => if is_space c then EmptyString else String c EmptyString
      | t => String c t
      end
  end.

Definition trim (s : string) : string := trimEnd (trimStart s).

Definition nonempty (s : string) : bool :=
  match s with
  | EmptyString => false
  | String _ _ => true
  end.

End Str.

(** ** JavaScript numbers

    A JavaScript number is an IEEE 754 binary64 value.  The Standard
    Library's [spec_float] with [prec = 53] and [emax = 1024] is exactly
    that format, and [SFmul] rounds to nearest, ties to even, as the
    language does. *)
Module JS.

Definition prec : Z := 53.
Definition emax : Z := 1024.

Definition number := spec_float.

(** What an option such as [options.expectedCount] can hold: nothing
    ([undefined]) or a number. *)
Inductive value :=
| Undefined
| Num (x : number).

(** [Number.isFinite(v)]: false for [undefined], NaN and the infinities. *)
Definition Number_isFinite (v : value) : bool :=
  match v with
  | Num (S754_zero _) => true
  | Num (S754_finite _ _ _) => true
  | _ => false
  end.

(** The signed integer mantissa of a finite number. *)
Definition signed (s : bool) (m : positive) : Z :=
  if s then Z.neg m else Z.pos m.

(** [Math.floor(x)] for a finite [x], as the integer it denotes.
    [Z.shiftr] rounds towards minus infinity. *)
Definition floor_number (x : number) : Z :=
  match x with
  | S754_finite s m e =>
      if (0 <=? e)%Z then Z.shiftl (signed s m) e
      else Z.shiftr (signed s m) (- e)
  | _ => 0%Z
  end.

Definition Math_floor (v : value) : Z :=
  match v with
  | Num x => floor_number x
  | Undefined => 0%Z
  end.

(** [Math.ceil(x)] for a finite [x], as the integer it denotes. *)
Definition Math_ceil (x : number) : Z :=
  match x with
  | S754_finite s m e =>
      if (0 <=? e)%Z then Z.shiftl (signed s m) e
      else (- Z.shiftr (- signed s m) (- e))%Z
  | _ => 0%Z
  end.

(** The number an integer denotes (exact below 2^53, rounded above). *)
Definition of_Z (z : Z) : number := binary_normalize prec emax z 0 false.

(** The literal [0.7]: the binary64 value nearest to 7/10,
    6305039478318694 * 2^-53. *)
Definition lit_0_7 : number := S754_finite false 6305039478318694 (-53).

Definition mul (x y : number) : number := SFmul prec emax x y.

(** Truthiness of a value used as a condition: [undefined], the zeros
    and NaN are falsy. *)
Definition truthy (v : value) : bool :=
  match v with
  | Num (S754_finite _ _ _) => true
  | Num (S754_infinity _) => true
  | _ => false
  end.

(** [v > 0] *)
Definition positive_value (v : value) : bool :=
  match v with
  | Num (S754_finite false _ _) => true
  | Num (S754_infinity false) => true
  | _ => false
  end.

(** [count < v] and [count >= v] for an integer [count]; every
    comparison with [undefined] (which converts to NaN) is false. *)
Definition lt_value (count : Z) (v : value) : bool :=
  match v with
  | Num x => SFltb (of_Z count) x
  | Undefined => false
  end.

Definition ge_value (count : Z) (v : value) : bool :=
  match v with
  | Num x => SFleb x (of_Z count)
  | Undefined => false
  end.

(** [v > k] for an integer constant [k]. *)
Definition gt_const (v : value) (k : Z) : bool :=
  match v with
  | Num x => SFltb (of_Z k) x
  | Undefined => false
  end.

(** [Array.from({ length: v })] throws a [RangeError] for a length of
    2^32 or more. *)
Definition too_long (v : value) : bool :=
  match v with
  | Num (S754_infinity false) => true
  | Num (S754_finite false m e) => (2 ^ 32 <=? floor_number (S754_finite false m e))%Z
  | _ => false
  end.

(** The length of [Array.from({ length: v })], and the number of turns
    of [for (let i = 0; i < v; i++)]. *)
Definition array_length (v : value) : nat :=
  if Number_isFinite v then Z.to_nat (Math_floor v) else 0%nat.

Definition loop_bound (v : value) : nat :=
  match v with
  | Num (S754_finite s m e) => Z.to_nat (Math_ceil (S754_finite s m e))
  | _ => 0%nat
  end.

End JS.

(** ** Result slots and the aggregator *)

(** One element of a [results] array: [{ ok: true, filePath, downloadedAt }],
    [{ ok: false, error }], or no element at all (a hole left by an
    assignment past the end of the array, which [filter] and [forEach]
    skip). *)
Inductive Slot :=
| SlotOk (filePath : string) (downloadedAt : Z)
| SlotFail (error : string)
| SlotEmpty.

Definition slot_ok (s : Slot) : bool :=
  match s with
  | SlotOk _ _ => true
  | _ => false
  end.

(** A slot that says what became of it: a success with a file path, or
    a failure with a reason. *)
Definition well_formed (s : Slot) : bool :=
  match s with
  | SlotOk filePath _ => Str.nonempty filePath
  | SlotFail error => Str.nonempty error
  | SlotEmpty => false
  end.

Definition slots_wf (results : list Slot) : Prop :=
  Forall (fun s => well_formed s = true) results.

(** [results.filter(entry => entry.ok).length] *)
Definition successCount (results : list Slot) : Z :=
  Z.of_nat (length (List.filter slot_ok results)).

(** [results[i] = v]: in place inside the array; past its end the array
    grows, leaving holes in between. *)
Definition array_set (i : nat) (v : Slot) (results : list Slot) : list Slot :=
  if (i <? length results)%nat then <[i:=v]> results
  else results ++ replicate (i - length results) SlotEmpty ++ [v].

(** [entries.forEach((entry, idx) => { results[idx] = entry; })] *)
Fixpoint merge_from (idx : nat) (entries results : list Slot) : list Slot :=
  match entries with
  | [] => results
  | SlotEmpty :: rest => merge_from (S idx) rest results
  | entry :: rest => merge_from (S idx) rest (array_set idx entry results)
  end.

Definition merge_results (entries results : list Slot) : list Slot :=
  merge_from 0 entries results.

(** [String(index).padStart(3, '0')] *)
Definition padIndex (index : nat) : string := Str.padStart0 3 (Str.of_nat index).

(** [path.join] and [path.normalize] of Node, in their POSIX form. *)
Module Path.

(** The pieces of a path between its slashes; [current] is the piece
    read so far. *)
Fixpoint segments (current : string) (p : string) : list string :=
  match p with
  | EmptyString => [current]
  | String c rest =>
      if Ascii.eqb c "/"%char then current :: segments EmptyString rest
      else segments (current ++ String c EmptyString) rest
  end.

(** What [normalizeString] does with one segment; [kept] holds the
    segments of the result so far, the last one first.  An empty segment
    and [.] are dropped; [..] removes the segment before it, unless there
    is none or it is [..] itself, in which case [..] is kept when the
    path is relative and dropped when it is absolute. *)
Definition keep (allowAboveRoot : bool) (kept : list string) (segment : string)
  : list string :=
  match segment with
  | EmptyString => kept
  | String _ _ =>
      if String.eqb segment "." then kept
      else if String.eqb segment ".." then
        match kept with
        | top :: rest =>
            if String.eqb top ".." then (if allowAboveRoot then segment :: kept else kept)
            else rest
        | [] => if allowAboveRoot then [segment] else []
        end
      else segment :: kept
  end.

Fixpoint join_segments (l : list string) : string :=
  match l with
  | [] => EmptyString
  | [s] => s
  | s :: rest => (s ++ "/" ++ join_segments rest)%string
  end.

(** [normalizeString(path, allowAboveRoot, '/', isPosixPathSeparator)] *)
Definition normalizeString (p : string) (allowAboveRoot : bool) : string :=
  join_segments (rev (fold_left (keep allowAboveRoot) (segments EmptyString p) [])).

Definition starts_with_slash (p : string) : bool :=
  match p with
  | String c _ => Ascii.eqb c "/"%char
  | EmptyString => false
  end.

Fixpoint ends_with_slash (p : string) : bool :=
  match p with
  | EmptyString => false
  | String c EmptyString => Ascii.eqb c "/"%char
  | String _ rest => ends_with_slash rest
  end.

(** [path.normalize(path)]:
<<
    if (path.length === 0) return '.';
    const isAbsolute = path.charCodeAt(0) === CHAR_FORWARD_SLASH;
    const trailingSeparator = path.charCodeAt(path.length - 1) === CHAR_FORWARD_SLASH;
    path = normalizeString(path, !isAbsolute, '/', isPosixPathSeparator);
    if (path.length === 0) {
      if (isAbsolute) return '/';
      return trailingSeparator ? './' : '.';
    }
    if (trailingSeparator) path += '/';
    return isAbsolute ? `/${path}` : path;
>> *)
Definition normalize (p : string) : string :=
  match p with
  | EmptyString => "."
  | String _ _ =>
      let isAbsolute := starts_with_slash p in
      let trailingSeparator := ends_with_slash p in
      match normalizeString p (negb isAbsolute) with
      | EmptyString =>
          if isAbsolute then "/" else if trailingSeparator then "./" else "."
      | String c rest =>
          let kept := if trailingSeparator then (String c rest ++ "/")%string
                      else String c rest in
          if isAbsolute then String "/"%char kept else kept
      end
  end.

(** [path.join(a, b)]: the arguments that are not empty, joined by a
    slash and normalized; [.] when both are empty. *)
Definition join (a b : string) : string :=
  match a, b with
  | EmptyString, EmptyString => "."
  | EmptyString, String _ _ => normalize b
  | String _ _, EmptyString => normalize a
  | String _ _, String _ _ => normalize (a ++ "/" ++ b)
  end.

End Path.

(** [path.join(dir, name)] *)
Definition path_join (dir name : string) : string := Path.join dir name.

(** The target of slot [i]: [path.join(outputDir, `${padIndex(i + 1)}.png`)]. *)
Definition targetPath (outputDir : string) (i : nat) : string :=
  path_join outputDir (padIndex (i + 1) ++ ".png").

Module Aggregator.
Import JS.

(** [resolveMinimumSuccessCount(expectedCount)]:
<<
    const count = Number.isFinite(expectedCount) ? Math.floor(expectedCount) : 0;
    if (!count) return 1;
    const ratio = 0.7;
    return Math.max(1, Math.ceil(count * ratio));
>> *)
Definition resolveMinimumSuccessCount (expectedCount : value) : Z :=
  let count := if Number_isFinite expectedCount
               then Math_floor expectedCount else 0%Z in
  if (count =? 0)%Z then 1%Z
  else Z.max 1 (Math_ceil (mul (of_Z count) lit_0_7)).

(** The [ok] flag of the report [finalizeAndDownload] returns:
<<
    const expectedTotal = Number.isFinite(options.expectedCount)
      ? Math.max(0, Math.floor(options.expectedCount))
      : results.length;
    const successCount = results.filter(entry => entry.ok).length;
    const ok = expectedTotal > 0 ? successCount >= minSuccessCount : successCount > 0;
>> *)
Definition expectedTotal (expectedCount : value) (results : list Slot) : Z :=
  if Number_isFinite expectedCount
  then Z.max 0 (Math_floor expectedCount)
  else Z.of_nat (length results).

Definition report_ok (expectedCount : value) (results : list Slot) : bool :=
  let minSuccessCount := resolveMinimumSuccessCount expectedCount in
  if (0 <? expectedTotal expectedCount results)%Z
  then (minSuccessCount <=? successCount results)%Z
  else (0 <? successCount results)%Z.

(** The threshold of the design document, in exact arithmetic:
    [max(1, ceil(7n/10))], the ceiling being [(7n + 9) / 10] rounded
    down. *)
Definition ceil_7_10 (n : Z) : Z := (7 * n + 9) / 10.

Definition spec_minimum (n : Z) : Z := Z.max 1 (ceil_7_10 n).

End Aggregator.

(** ** Page registry and claim set *)
Module ClaimSet.

(** A page as the registry reads it: the identity of the page object,
    the URL it shows at the moment it is read, and the identity
    [page.opener()] returns, if any. *)
Record Page := {
  ref : nat;
  url : string;
  opener : option nat
}.

(** The process-wide [claimedCanvasPages], a set of page objects, and
    the pages that carry a [close] listener registered by a claim. *)
Record Registry := {
  claimed : gset nat;
  closeListeners : gset nat
}.

Definition empty_registry : Registry :=
  {| claimed := ∅; closeListeners := ∅ |}.

(** [claimCanvasPage(page)]:
<<
    if (!page || claimedCanvasPages.has(page)) return false;
    claimedCanvasPages.add(page);
    page.once('close', () => claimedCanvasPages.delete(page));
    return true;
>> *)
Definition claimCanvasPage (r : Registry) (page : option Page) : bool * Registry :=
  match page with
  | None => (false, r)
  | Some p =>
      if decide (ref p ∈ claimed r) then (false, r)
      else (true, {| claimed := {[ref p]} ∪ claimed r;
                     closeListeners := {[ref p]} ∪ closeListeners r |})
  end.

(** [unclaimCanvasPage(page)] *)
Definition unclaimCanvasPage (r : Registry) (page : option Page) : Registry :=
  match page with
  | None => r
  | Some p => {| claimed := claimed r ∖ {[ref p]};
                 closeListeners := closeListeners r |}
  end.

(** [isCanvasPageClaimed(page)] *)
Definition isCanvasPageClaimed (r : Registry) (page : option Page) : bool :=
  match page with
  | None => false
  | Some p => bool_decide (ref p ∈ claimed r)
  end.

(** The page closes: every [close] listener a claim left on it runs
    [claimedCanvasPages.delete(page)]. *)
Definition pageClosed (r : Registry) (page : nat) : Registry :=
  if decide (page ∈ closeListeners r)
  then {| claimed := claimed r ∖ {[page]};
          closeListeners := closeListeners r ∖ {[page]} |}
  else r.

(** [isCanvasPage(page)]: [/lovart\.ai\/canvas/i.test(page.url())] *)
Definition isCanvasPage (page : option Page) : bool :=
  match page with
  | None => false
  | Some p => Str.contains "lovart.ai/canvas" (Str.toLowerCase (url p))
  end.

(** [isRelatedCanvasPage(page, sourcePage)] *)
Definition isRelatedCanvasPage (page sourcePage : option Page) : bool :=
  match page, sourcePage with
  | None, _ => false
  | Some _, None => true
  | Some p, Some s =>
      if (ref p =? ref s)%nat then true
      else match opener p with
           | None => true
           | Some o => (o =? ref s)%nat
           end
  end.

(** [extractProjectIdFromUrl(url)]: the first match of
    [/[?&]projectId=([^&]+)/], or the empty string. *)
Fixpoint take_until_amp (s : string) : string :=
  match s with
  | EmptyString => EmptyString
  | String c rest =>
      if Ascii.eqb c "&"%char then EmptyString else String c (take_until_amp rest)
  end.

Fixpoint drop (n : nat) (s : string) : string :=
  match n, s with
  | O, _ => s
  | S k, EmptyString => EmptyString
  | S k, String _ rest => drop k rest
  end.

Fixpoint extractProjectIdFromUrl (u : string) : string :=
  match u with
  | EmptyString => EmptyString
  | String c rest =>
      let here :=
        if (Ascii.eqb c "?"%char || Ascii.eqb c "&"%char)
           && String.prefix "projectId=" rest
        then take_until_amp (drop 10 rest) else EmptyString in
      if Str.nonempty here then here else extractProjectIdFromUrl rest
  end.

(** The filter [isAllowed] of [waitForCanvasPage]. *)
Definition isAllowed (r : Registry) (currentPage : option Page)
    (ignoreProjectIds : gset string) (page : option Page) : bool :=
  match page with
  | None => false
  | Some p =>
      isCanvasPage page
      && negb (isCanvasPageClaimed r page)
      && isRelatedCanvasPage page currentPage
      && negb (bool_decide (ignoreProjectIds ≠ ∅)
               && Str.nonempty (extractProjectIdFromUrl (url p))
               && bool_decide (extractProjectIdFromUrl (url p) ∈ ignoreProjectIds))
  end.

(** *** The registry shared by concurrent tasks

    The host runs one synchronous stretch of code at a time, so the
    tasks of a process act on the registry one call after the other.
    Next to the registry the world records, for each task, the pages it
    holds claimed: those one of its [claimCanvasPage] calls returned
    [true] for and whose claim has not been removed since.  The code
    keeps no such record; it is there to state the invariant. *)
Definition Task := nat.

Record World := {
  registry : Registry;
  held : Task -> gset nat
}.

Definition initial : World :=
  {| registry := empty_registry; held := fun _ => ∅ |}.

Definition grant (h : Task -> gset nat) (t : Task) (page : nat) : Task -> gset nat :=
  fun t' => if decide (t' = t) then {[page]} ∪ h t' else h t'.

Definition revoke (h : Task -> gset nat) (page : nat) : Task -> gset nat :=
  fun t' => h t' ∖ {[page]}.

(** Task [t] calls [claimCanvasPage(page)]. *)
Definition claim_by (t : Task) (page : option Page) (w : World) : bool * World :=
  let '(ok, r) := claimCanvasPage (registry w) page in
  match ok, page with
  | true, Some p => (true, {| registry := r; held := grant (held w) t (ref p) |})
  | _, _ => (ok, {| registry := r; held := held w |})
  end.

(** A call of [unclaimCanvasPage(page)], by whichever task. *)
Definition unclaim (page : option Page) (w : World) : World :=
  match page with
  | None => w
  | Some p => {| registry := unclaimCanvasPage (registry w) page;
                 held := revoke (held w) (ref p) |}
  end.

(** The page closes. *)
Definition close (page : nat) (w : World) : World :=
  if decide (page ∈ closeListeners (registry w))
  then {| registry := pageClosed (registry w) page; held := revoke (held w) page |}
  else w.

(** The cleanup in the [finally] block of [runLovartBatch]:
    [pagesToRelease.forEach(p => unclaimCanvasPage(p))]. *)
Definition release_all (pages : list Page) (w : World) : World :=
  fold_left (fun w p => unclaim (Some p) w) pages w.

(** What the rest of the process does to the registry while a task is
    suspended at an [await]. *)
Inductive Event :=
| Claim (t : Task) (page : option Page)
| Unclaim (page : option Page)
| Close (page : nat).

Definition apply_event (w : World) (e : Event) : World :=
  match e with
  | Claim t page => snd (claim_by t page w)
  | Unclaim page => unclaim page w
  | Close page => close page w
  end.

Definition run (events : list Event) (w : World) : World :=
  fold_left apply_event events w.

(** One turn of the loop of [waitForCanvasPage]: the clock at the loop
    head, the pages [getAllContextPages] lists, what happens during the
    race between the [page] event and the one-second timer, the page the
    race yields, what happens while that page loads, and the page as it
    is read after loading. *)
Record Turn := {
  turn_now : Z;
  turn_pages : list Page;
  during_race : list Event;
  race_candidate : option Page;
  during_load : list Event;
  loaded_url : string
}.

(** The candidate as it is read once [waitForLoadState] is over: the
    same page object, showing the URL it has by then. *)
Definition loaded_candidate (tn : Turn) : option Page :=
  match race_candidate tn with
  | None => None
  | Some c => Some {| ref := ref c; url := loaded_url tn; opener := opener c |}
  end.

(** [pages.find(page => isAllowed(page))] *)
Definition find_allowed (r : Registry) (currentPage : option Page)
    (ignoreProjectIds : gset string) (pages : list Page) : option Page :=
  List.find (fun p => isAllowed r currentPage ignoreProjectIds (Some p)) pages.

(** [x && isAllowed(x) && claimCanvasPage(x)]: the claim is attempted
    only on an allowed page. *)
Definition claim_if_allowed (t : Task) (currentPage : option Page)
    (ignoreProjectIds : gset string) (page : option Page) (w : World) : bool * World :=
  if isAllowed (registry w) currentPage ignoreProjectIds page
  then claim_by t page w
  else (false, w).

Fixpoint waitForCanvasPage_loop (t : Task) (deadline : option Z)
    (currentPage : option Page) (ignoreProjectIds : gset string)
    (turns : list Turn) (w : World) : outcome (option Page) * World :=
  match turns with
  | [] => (Pending, w)
  | tn :: rest =>
      if match deadline with
         | Some d => (turn_now tn <? d)%Z
         | None => true
         end
      then
        let canvas := find_allowed (registry w) currentPage ignoreProjectIds (turn_pages tn) in
        let '(ok, w1) :=
          match canvas with
          | Some _ => claim_by t canvas w
          | None => (false, w)
          end in
        if ok then (Returned canvas, w1)
        else
          let w2 := run (during_race tn) w1 in
          match race_candidate tn with
          | None => waitForCanvasPage_loop t deadline currentPage ignoreProjectIds rest w2
          | Some _ =>
              let w3 := run (during_load tn) w2 in
              let '(ok', w4) :=
                claim_if_allowed t currentPage ignoreProjectIds (loaded_candidate tn) w3 in
              if ok' then (Returned (loaded_candidate tn), w4)
              else waitForCanvasPage_loop t deadline currentPage ignoreProjectIds rest w4
          end
      else (Returned None, w)
  end.

(** [waitForCanvasPage(context, currentPage, timeoutMs, logger, ignoreProjectIds)],
    called by task [t] at time [now]; [hasContext] is [!!context].  The
    deadline is [now + timeoutMs] for a positive [timeoutMs] and
    [Number.POSITIVE_INFINITY] otherwise. *)
Definition waitForCanvasPage (t : Task) (hasContext : bool)
    (currentPage : option Page) (now : Z) (timeoutMs : option Z)
    (ignoreProjectIds : gset string) (turns : list Turn) (w : World)
  : outcome (option Page) * World :=
  let deadline :=
    match timeoutMs with
    | Some ms => if (0 <? ms)%Z then Some (now + ms)%Z else None
    | None => None
    end in
  let '(ok, w1) := claim_if_allowed t currentPage ignoreProjectIds currentPage w in
  if ok then (Returned currentPage, w1)
  else if negb hasContext then (Returned None, w1)
  else waitForCanvasPage_loop t deadline currentPage ignoreProjectIds turns w1.

(** The invariant of the shared registry: a claimed page is held by
    exactly one task, a held page is claimed, and every claimed page
    carries a close listener. *)
Definition exclusive (w : World) : Prop :=
  (forall t1 t2 page, page ∈ held w t1 -> page ∈ held w t2 -> t1 = t2)
  /\ (forall page, page ∈ claimed (registry w) <-> exists t, page ∈ held w t)
  /\ claimed (registry w) ⊆ closeListeners (registry w).

(** What a successful return of [waitForCanvasPage] means: some world
    [w0] reached from the entry world by what the rest of the process did
    in between had the page allowed and unclaimed, and the final world is
    [w0] with the page claimed for the caller, in one synchronous step. *)
Definition claimed_at_return (t : Task) (cur : option Page) (ign : gset string)
    (p : Page) (w w' : World) : Prop :=
  exists (events : list Event) (w0 : World),
    w0 = run events w
    /\ isAllowed (registry w0) cur ign (Some p) = true
    /\ (ref p ∉ claimed (registry w0))
    /\ claim_by t (Some p) w0 = (true, w')
    /\ claimed (registry w') = {[ref p]} ∪ claimed (registry w0)
    /\ held w' t = {[ref p]} ∪ held w0 t
    /\ (forall t', t' <> t -> held w' t' = held w0 t').

(** A home page, a canvas page another task has claimed and a canvas page
    the home page opened, for the examples. *)
Definition page_home : Page :=
  {| ref := 0; url := "https://www.lovart.ai/zh/home"; opener := None |}.
Definition page_a : Page :=
  {| ref := 1; url := "https://www.lovart.ai/canvas?projectId=a&agent=1"; opener := None |}.
Definition page_b : Page :=
  {| ref := 2; url := "https://www.lovart.ai/canvas?projectId=b&agent=1"; opener := Some 0%nat |}.
Definition one_turn : Turn :=
  {| turn_now := 10; turn_pages := [page_home; page_a; page_b]; during_race := [];
     race_candidate := None; during_load := []; loaded_url := EmptyString |}.

(** The world in which task 1 has claimed [page_a], and the world after
    task 2 has then waited for a canvas page during [one_turn]. *)
Definition world_one : World := run [Claim 1%nat (Some page_a)] initial.
Definition world_two : World :=
  snd (waitForCanvasPage 2%nat true (Some page_home) 0 (Some 5000%Z) ∅ [one_turn] world_one).

End ClaimSet.

(** ** The pages of a run and their release *)
Module Lifecycle.
Import ClaimSet.

(** What [runLovartBatch] is run with, as far as its pages go. *)
Record Settings := {
  resolvedExistingCanvasUrl : string;
  forceSkipGeneration : bool;        (* skipPromptCheck *)
  canvasWaitTimeout : Z;
  canvasRetryLimit : Z;
  closeExistingCanvasPages : bool;   (* effectiveCloseExistingCanvasPages *)
  protectExternalPages : bool;
  resumeExistingProject : bool;
  closePagesOnDone : bool;
  useCdp : bool;
  shouldCloseBrowser : bool
}.

(** The variables of the run that decide which claims its [finally]
    block removes: [page], [originPage] and the set [ownedPages], kept in
    the order of insertion. *)
Record Books := {
  page : option Page;
  originPage : option Page;
  ownedPages : list Page
}.

Definition no_books : Books :=
  {| page := None; originPage := None; ownedPages := [] |}.

(** [set.has(p)] and [set.add(p)] for a set of page objects. *)
Definition has (pages : list Page) (p : Page) : bool :=
  existsb (fun q => (ref q =? ref p)%nat) pages.

Definition add (pages : list Page) (p : Page) : list Page :=
  if has pages p then pages else pages ++ [p].

(** The page taken at the start:
<<
    const existingPage = effectiveReusePage ? pickExistingPage(...) : null;
    page = existingPage || (await context.newPage());
    if (!existingPage) ownedPages.add(page);
    originPage = page;
>> *)
Definition acquire (existingPage : option Page) (newPage : Page) (b : Books) : Books :=
  match existingPage with
  | Some p => {| page := Some p; originPage := Some p; ownedPages := ownedPages b |}
  | None => {| page := Some newPage; originPage := Some newPage;
               ownedPages := add (ownedPages b) newPage |}
  end.

(** A fresh page or a popup takes the place of [page]:
    [ownedPages.add(fresh); page = fresh]. *)
Definition replace_page (fresh : Page) (b : Books) : Books :=
  {| page := Some fresh; originPage := originPage b;
     ownedPages := add (ownedPages b) fresh |}.

(** The page object [p], showing the URL [u] when it is read. *)
Definition seen (p : Page) (u : string) : Page :=
  {| ref := ref p; url := u; opener := opener p |}.

(** The variables of the canvas stage. *)
Record Flow := {
  current : Page;                 (* page *)
  origin : option Page;           (* originPage *)
  owned : list Page;              (* ownedPages *)
  canvasPage : option Page;
  skipGeneration : bool;
  world : World
}.

Definition with_world (f : Flow) (w : World) : Flow :=
  {| current := current f; origin := origin f; owned := owned f;
     canvasPage := canvasPage f; skipGeneration := skipGeneration f; world := w |}.

Definition with_skip (f : Flow) (skip : bool) : Flow :=
  {| current := current f; origin := origin f; owned := owned f;
     canvasPage := canvasPage f; skipGeneration := skip; world := world f |}.

(** [canvasPage = c], the claim on [c] being made by the callee. *)
Definition with_canvas (f : Flow) (c : Page) (w : World) : Flow :=
  {| current := current f; origin := origin f; owned := owned f;
     canvasPage := Some c; skipGeneration := skipGeneration f; world := w |}.

(** [canvasPage = page; claimCanvasPage(canvasPage);] with [page]
    showing the URL [u].  What [claimCanvasPage] returns is dropped. *)
Definition take_page (t : Task) (u : string) (f : Flow) : Flow :=
  with_canvas f (seen (current f) u)
    (snd (claim_by t (Some (seen (current f) u)) (world f))).

(** One turn of the loop [while (!canvasPage)]. *)
Record Attempt := {
  attempt_url : string;            (* page.url() after waitForURL *)
  attempt_now : Z;                 (* the clock when waitForCanvasPage is called *)
  attempt_turns : list Turn;       (* the turns of waitForCanvasPage *)
  attempt_resubmitted : outcome bool;  (* maybeResubmitPrompt *)
  attempt_signal : outcome bool        (* waitForGenerationSignal *)
}.

(** What the stage reads of the browser, in the order of the reads. *)
Record Seen := {
  contextPages : list Page;        (* getAllContextPages(context) *)
  urlAtEntry : string;             (* page.url(), first read *)
  urlAfterWait : string;           (* page.url() after waitForURL *)
  imagesFound : bool;              (* collectAgentImageUrls gives a URL *)
  hasActivity : bool;              (* hasPromptHistory or hasAnySelector *)
  urlAtForce : string;             (* page.url() for forceSkipGeneration *)
  submitError : option string;     (* thrown while the prompt is submitted *)
  popupPage : option Page;         (* the popup, once it has loaded *)
  attempts : list Attempt;
  urlAfterGoto : string;           (* page.url() after the forced goto *)
  forcedNow : Z;
  forcedTurns : list Turn;
  forcedError : option string;     (* thrown while the prompt is resubmitted *)
  cleanupPages : list Page;        (* getAllContextPages in the cleanup *)
  closeFails : list nat;           (* the pages whose close() throws *)
  originUrl : option string;       (* originPage.url(), unless it throws *)
  resubmitError : option string;   (* thrown by maybeResubmitPrompt *)
  confirmed : outcome bool;        (* canvasHasPromptOrImages(page) *)
  promptPages : list Page;         (* getAllContextPages in the search *)
  hasPrompt : nat -> outcome bool  (* canvasHasPromptOrImages(candidate) *)
}.

(** [existingCanvasPages]: the canvas pages open beside [page] when the
    stage begins. *)
Definition existingCanvasPages (pages : list Page) (cur : Page) : list Page :=
  List.filter (fun q => isCanvasPage (Some q) && negb (ref q =? ref cur)%nat) pages.

(** [canvasIgnoreProjectIds]: their project identifiers. *)
Definition canvasIgnoreProjectIds (existing : list Page) : gset string :=
  list_to_set (List.filter Str.nonempty
                 (List.map (fun q => extractProjectIdFromUrl (url q)) existing)).

(** The page closes, unless closing it fails. *)
Definition close_page (fails : list nat) (q : Page) (w : World) : World :=
  if existsb (Nat.eqb (ref q)) fails then w else close (ref q) w.

(** The block for an existing project:
<<
    if (resolvedExistingCanvasUrl) {
      if (isCanvasPage(page)) {
        canvasPage = page; claimCanvasPage(canvasPage); skipGeneration = true;
      } else {
        try { await page.waitForURL(/lovart\.ai\/canvas/i, ...); } catch (_err) {}
        if (isCanvasPage(page)) { ... the same ... }
      }
      if (!skipGeneration && isCanvasPage(page)) {
        try {
          const urls = await collectAgentImageUrls(page);
          if (urls && urls.length) { ... the same ... }
        } catch (_err) {}
      }
      if (skipGeneration) {
        ...
        if (!hasActivity) skipGeneration = false;
      }
    }
>> *)
Definition existing_project (t : Task) (s : Settings) (o : Seen) (f : Flow) : Flow :=
  if Str.nonempty (resolvedExistingCanvasUrl s) then
    let f1 :=
      if isCanvasPage (Some (seen (current f) (urlAtEntry o)))
      then with_skip (take_page t (urlAtEntry o) f) true
      else if isCanvasPage (Some (seen (current f) (urlAfterWait o)))
      then with_skip (take_page t (urlAfterWait o) f) true
      else f in
    let f2 :=
      if negb (skipGeneration f1)
         && isCanvasPage (Some (seen (current f1) (urlAfterWait o)))
         && imagesFound o
      then with_skip (take_page t (urlAfterWait o) f1) true
      else f1 in
    if skipGeneration f2 && negb (hasActivity o) then with_skip f2 false else f2
  else f.

(** [if (forceSkipGeneration && isCanvasPage(page)) { ... }] *)
Definition forced_skip (t : Task) (s : Settings) (o : Seen) (f : Flow) : Flow :=
  if forceSkipGeneration s && isCanvasPage (Some (seen (current f) (urlAtForce o)))
  then with_skip (take_page t (urlAtForce o) f) true
  else f.

(** The loop
<<
    while (!canvasPage) {
      try { await page.waitForURL(...); } catch (_err) {}
      if (isCanvasPage(page)) {
        canvasPage = page; claimCanvasPage(canvasPage); break;
      }
      canvasPage = await waitForCanvasPage(context, page, canvasWaitTimeout,
                                           logger, canvasIgnoreProjectIds);
      if (canvasPage) break;
      if (canvasRetryCount >= canvasRetryLimit) break;
      canvasRetryCount += 1;
      const resubmitted = await maybeResubmitPrompt(...);
      if (!resubmitted) break;
      const retrySignalOk = await waitForGenerationSignal(...);
      if (!retrySignalOk) break;
    }
>> *)
Fixpoint enter_canvas (t : Task) (s : Settings) (ignoreProjectIds : gset string)
    (canvasRetryCount : Z) (turns : list Attempt) (f : Flow) : outcome unit * Flow :=
  match turns with
  | [] => (Pending, f)
  | a :: rest =>
      if isCanvasPage (Some (seen (current f) (attempt_url a)))
      then (Returned tt, take_page t (attempt_url a) f)
      else
        let waited :=
          waitForCanvasPage t true (Some (seen (current f) (attempt_url a)))
            (attempt_now a) (Some (canvasWaitTimeout s)) ignoreProjectIds
            (attempt_turns a) (world f) in
        match fst waited with
        | Threw e => (Threw e, with_world f (snd waited))
        | Pending => (Pending, with_world f (snd waited))
        | Returned (Some c) => (Returned tt, with_canvas f c (snd waited))
        | Returned None =>
            if (canvasRetryLimit s <=? canvasRetryCount)%Z
            then (Returned tt, with_world f (snd waited))
            else
              match attempt_resubmitted a with
              | Threw e => (Threw e, with_world f (snd waited))
              | Pending => (Pending, with_world f (snd waited))
              | Returned false => (Returned tt, with_world f (snd waited))
              | Returned true =>
                  match attempt_signal a with
                  | Threw e => (Threw e, with_world f (snd waited))
                  | Pending => (Pending, with_world f (snd waited))
                  | Returned false => (Returned tt, with_world f (snd waited))
                  | Returned true =>
                      enter_canvas t s ignoreProjectIds (canvasRetryCount + 1) rest
                        (with_world f (snd waited))
                  end
              end
        end
  end.

Definition no_canvas : string := "未进入画布页面，生成未开始".

(** The forced new canvas, entered without a canvas page:
<<
    try { await page.goto(forcedCanvasUrl, ...); } catch (err) { ... }
    if (isCanvasPage(page)) {
      canvasPage = page; claimCanvasPage(canvasPage);
    } else {
      const forced = await waitForCanvasPage(...);
      if (forced) canvasPage = forced;
    }
    if (canvasPage) { ... maybeResubmitPrompt, waitForGenerationSignal ... }
>> *)
Definition forced_canvas (t : Task) (s : Settings) (ignoreProjectIds : gset string)
    (o : Seen) (f : Flow) : outcome unit * Flow :=
  let entered :=
    if isCanvasPage (Some (seen (current f) (urlAfterGoto o)))
    then (Returned tt, take_page t (urlAfterGoto o) f)
    else
      let waited :=
        waitForCanvasPage t true (Some (seen (current f) (urlAfterGoto o)))
          (forcedNow o) (Some (canvasWaitTimeout s)) ignoreProjectIds
          (forcedTurns o) (world f) in
      match fst waited with
      | Threw e => (Threw e, with_world f (snd waited))
      | Pending => (Pending, with_world f (snd waited))
      | Returned (Some c) => (Returned tt, with_canvas f c (snd waited))
      | Returned None => (Returned tt, with_world f (snd waited))
      end in
  match entered with
  | (Returned _, f1) =>
      match canvasPage f1 with
      | Some _ =>
          match forcedError o with
          | Some e => (Threw e, f1)
          | None => (Returned tt, f1)
          end
      | None => (Returned tt, f1)
      end
  | other => other
  end.

(** The block [if (!skipGeneration) { ... }]: the prompt is submitted,
    and a canvas page is looked for, in the popup, in [page], among the
    pages of the context, and at last by force. *)
Definition generate (t : Task) (s : Settings) (ignoreProjectIds : gset string)
    (o : Seen) (f : Flow) : outcome unit * Flow :=
  match submitError o with
  | Some e => (Threw e, f)
  | None =>
      let f1 :=
        match popupPage o with
        | Some p =>
            if isCanvasPage (Some p)
            then with_canvas f p (snd (claim_by t (Some p) (world f)))
            else f
        | None => f
        end in
      match canvasPage f1 with
      | Some _ => (Returned tt, f1)
      | None =>
          match enter_canvas t s ignoreProjectIds 0 (attempts o) f1 with
          | (Returned _, f2) =>
              match canvasPage f2 with
              | Some _ => (Returned tt, f2)
              | None =>
                  match forced_canvas t s ignoreProjectIds o f2 with
                  | (Returned _, f3) =>
                      match canvasPage f3 with
                      | Some _ => (Returned tt, f3)
                      | None => (Threw no_canvas, f3)
                      end
                  | other => other
                  end
              end
          | other => other
          end
      end
  end.

(** The canvas page becomes the page of the run:
<<
    if (canvasPage && canvasPage !== page) {
      if (!existingCanvasPages.has(canvasPage)) ownedPages.add(canvasPage);
      page = canvasPage;
    }
>> *)
Definition adopt (existing : list Page) (c : option Page) (cur : Page)
    (pages : list Page) : Page * list Page :=
  match c with
  | Some p =>
      if (ref p =? ref cur)%nat then (cur, pages)
      else (p, if has existing p then pages else add pages p)
  | None => (cur, pages)
  end.

Definition adopt_canvas (existing : list Page) (f : Flow) : Flow :=
  {| current := fst (adopt existing (canvasPage f) (current f) (owned f));
     origin := origin f;
     owned := snd (adopt existing (canvasPage f) (current f) (owned f));
     canvasPage := canvasPage f; skipGeneration := skipGeneration f;
     world := world f |}.

(** [cleanupLovartCanvasPages(context, page, logger)]: every other canvas
    page of the context is closed. *)
Definition cleanupLovartCanvasPages (o : Seen) (cur : Page) (w : World) : World :=
  fold_left
    (fun w q => if (ref q =? ref cur)%nat then w
                else if isCanvasPage (Some q) then close_page (closeFails o) q w
                else w)
    (cleanupPages o) w.

(** [/lovart\.ai\/zh\/home|lovart\.ai\/home/i.test(url)] *)
Definition isHomeUrl (u : string) : bool :=
  Str.contains "lovart.ai/zh/home" (Str.toLowerCase u)
  || Str.contains "lovart.ai/home" (Str.toLowerCase u).

(** [closeHomePage(originPage, page, logger)] *)
Definition closeHomePage (o : Seen) (originPage : option Page) (activePage : Page)
    (w : World) : World :=
  match originPage with
  | None => w
  | Some p =>
      if (ref p =? ref activePage)%nat then w
      else match originUrl o with
           | None => w
           | Some u => if isHomeUrl u then close_page (closeFails o) p w else w
           end
  end.

(** The pages that are in the way are closed:
<<
    if (effectiveCloseExistingCanvasPages && context) {
      await cleanupLovartCanvasPages(context, page, logger);
    }
    if (!protectExternalPages || ownedPages.has(originPage)) {
      await closeHomePage(originPage, page, logger);
    }
>> *)
Definition close_others (s : Settings) (o : Seen) (f : Flow) : Flow :=
  let w1 := if closeExistingCanvasPages s
            then cleanupLovartCanvasPages o (current f) (world f)
            else world f in
  let w2 := if negb (protectExternalPages s)
               || match origin f with
                  | Some p => has (owned f) p
                  | None => false
                  end
            then closeHomePage o (origin f) (current f) w1
            else w1 in
  with_world f w2.

(** [findCanvasPageWithPrompt(context, currentPage, selectors,
    promptSignature, logger, ignoreProjectIds)] over the pages of the
    context: the first canvas page that no task has claimed, that is
    related to [currentPage], whose project is not to be ignored and
    that shows the prompt or images is claimed and returned. *)
Fixpoint findCanvasPageWithPrompt (t : Task) (currentPage : Page)
    (ignoreProjectIds : gset string) (o : Seen) (pages : list Page) (w : World)
  : outcome (option Page) * World :=
  match pages with
  | [] => (Returned None, w)
  | candidate :: rest =>
      if isAllowed (registry w) (Some currentPage) ignoreProjectIds (Some candidate)
      then
        match hasPrompt o (ref candidate) with
        | Threw e => (Threw e, w)
        | Pending => (Pending, w)
        | Returned false =>
            findCanvasPageWithPrompt t currentPage ignoreProjectIds o rest w
        | Returned true =>
            if fst (claim_by t (Some candidate) w)
            then (Returned (Some candidate), snd (claim_by t (Some candidate) w))
            else findCanvasPageWithPrompt t currentPage ignoreProjectIds o rest
                   (snd (claim_by t (Some candidate) w))
        end
      else findCanvasPageWithPrompt t currentPage ignoreProjectIds o rest w
  end.

(** The canvas is confirmed, or another one is looked for:
<<
    let canvasConfirmed = await canvasHasPromptOrImages(page, ...);
    if (!canvasConfirmed && context) {
      const candidate = await findCanvasPageWithPrompt(context, page, ...);
      if (candidate) {
        if (!existingCanvasPages.has(candidate)) ownedPages.add(candidate);
        page = candidate;
        canvasConfirmed = true;
      }
    }
>> *)
Definition confirm_canvas (t : Task) (existing : list Page)
    (ignoreProjectIds : gset string) (o : Seen) (f : Flow) : outcome unit * Flow :=
  match confirmed o with
  | Threw e => (Threw e, f)
  | Pending => (Pending, f)
  | Returned true => (Returned tt, f)
  | Returned false =>
      let found :=
        findCanvasPageWithPrompt t (current f) ignoreProjectIds o (promptPages o)
          (world f) in
      match fst found with
      | Threw e => (Threw e, with_world f (snd found))
      | Pending => (Pending, with_world f (snd found))
      | Returned None => (Returned tt, with_world f (snd found))
      | Returned (Some candidate) =>
          (Returned tt,
           {| current := candidate; origin := origin f;
              owned := if has existing candidate then owned f
                       else add (owned f) candidate;
              canvasPage := canvasPage f; skipGeneration := skipGeneration f;
              world := snd found |})
      end
  end.

(** The canvas stage of [runLovartBatch], entered by task [t] with
    [cur] for its [page], and the origin page and the owned pages it has
    by then.  The
    other tasks act on the registry while the stage waits inside
    [waitForCanvasPage]; elsewhere the stage is taken to run alone. *)
Definition canvas_stage (t : Task) (s : Settings) (o : Seen) (cur : Page)
    (originPage : option Page) (ownedPages : list Page) (w : World)
  : outcome unit * Flow :=
  let existing := existingCanvasPages (contextPages o) cur in
  let ignoreProjectIds := canvasIgnoreProjectIds existing in
  let f0 := {| current := cur; origin := originPage; owned := ownedPages;
               canvasPage := None; skipGeneration := false; world := w |} in
  let f1 := forced_skip t s o (existing_project t s o f0) in
  let generated :=
    if skipGeneration f1 then (Returned tt, f1)
    else generate t s ignoreProjectIds o f1 in
  match generated with
  | (Returned _, f2) =>
      let f3 := close_others s o (adopt_canvas existing f2) in
      match (if negb (skipGeneration f3) && negb (resumeExistingProject s)
             then resubmitError o else None) with
      | Some e => (Threw e, f3)
      | None => confirm_canvas t existing ignoreProjectIds o f3
      end
  | other => other
  end.

(** The variables as the stage leaves them. *)
Definition books_of (f : Flow) : Books :=
  {| page := Some (current f); originPage := origin f; ownedPages := owned f |}.

(** The page is reopened after it was closed during the download:
    [page = await reopenCanvasPage(...)]. *)
Definition reopen (newPage : Page) (b : Books) : Books :=
  {| page := Some newPage; originPage := originPage b; ownedPages := ownedPages b |}.

(** [isLovartPage(page)]:
    [/canvas\?agent=1/i.test(url) && /projectId=/i.test(url)] *)
Definition isLovartPage (u : string) : bool :=
  Str.contains "canvas?agent=1" (Str.toLowerCase u)
  && Str.contains "projectid=" (Str.toLowerCase u).

Definition optional (p : option Page) : list Page :=
  match p with
  | Some q => [q]
  | None => []
  end.

(** What the [finally] block reads: the URL each page shows, [None] for
    a page that is closed, the pages whose [close()] throws, and the
    pages that close when the browser is disconnected from or closed at
    the very end. *)
Record Ending := {
  finalUrl : nat -> option string;
  finalCloseFails : list nat;
  closedWithBrowser : list nat
}.

(** [pagesToClose] *)
Definition pagesToClose (s : Settings) (b : Books) : list Page :=
  if negb (protectExternalPages s)
  then ownedPages b ++ optional (page b) ++ optional (originPage b)
  else ownedPages b
       ++ List.filter (has (ownedPages b)) (optional (page b))
       ++ List.filter (has (ownedPages b)) (optional (originPage b)).

(** The [finally] block of [runLovartBatch], as far as the registry
    goes:
<<
    if (closePagesOnDone) {
      ...
      for (const ownedPage of pagesToClose) {
        if (!ownedPage || ownedPage.isClosed()) continue;
        const shouldClose = await isLovartPage(ownedPage);
        if (!shouldClose) continue;
        await ownedPage.close().catch(() => {});
      }
    }
    const pagesToRelease = new Set(ownedPages);
    if (page) pagesToRelease.add(page);
    if (originPage) pagesToRelease.add(originPage);
    pagesToRelease.forEach(p => unclaimCanvasPage(p));

    if (useCdp) {
      if (browser && typeof browser.disconnect === 'function') await browser.disconnect();
    } else if (shouldCloseBrowser) {
      ... await context.close().catch(() => {}); or await browser.close().catch(() => {});
    }
>> *)
Definition pagesToRelease (b : Books) : list Page :=
  ownedPages b ++ optional (page b) ++ optional (originPage b).

Definition finish (s : Settings) (e : Ending) (b : Books) (w : World) : World :=
  let w1 :=
    if closePagesOnDone s
    then fold_left
           (fun w q => match finalUrl e (ref q) with
                       | Some u => if isLovartPage u
                                   then close_page (finalCloseFails e) q w
                                   else w
                       | None => w
                       end)
           (pagesToClose s b) w
    else w in
  let w2 := release_all (pagesToRelease b) w1 in
  if useCdp s || shouldCloseBrowser s
  then fold_left (fun w page => close page w) (closedWithBrowser e) w2
  else w2.

(** A run of task [t] from the canvas stage on: the stage, and then the
    [finally] block, which runs whether the stage has thrown or not. *)
Definition run_from_canvas (t : Task) (s : Settings) (o : Seen) (e : Ending)
    (cur : Page) (originPage : option Page) (ownedPages : list Page) (w : World)
  : outcome unit * Books * World :=
  let staged := canvas_stage t s o cur originPage ownedPages w in
  (fst staged, books_of (snd staged),
   finish s e (books_of (snd staged)) (world (snd staged))).

(** *** A run that leaves a claim behind

    The runs of the process share a persistent browser that is kept
    open.  A run starts on a home page of its own while an empty canvas,
    left open and claimed by nobody, is among the pages of the context.  The
    prompt is submitted; [waitForCanvasPage] finds the empty canvas and
    claims it.  The canvas shows neither the prompt nor images, and
    [findCanvasPageWithPrompt] finds the canvas the generation has
    opened in the meantime. *)
Definition default_settings : Settings :=
  {| resolvedExistingCanvasUrl := EmptyString; forceSkipGeneration := false;
     canvasWaitTimeout := 120000; canvasRetryLimit := 1;
     closeExistingCanvasPages := false; protectExternalPages := false;
     resumeExistingProject := false; closePagesOnDone := true;
     useCdp := false; shouldCloseBrowser := false |}.

Definition home : Page :=
  {| ref := 0; url := "https://www.lovart.ai/zh/home"; opener := None |}.
Definition empty_canvas : Page :=
  {| ref := 1; url := "https://www.lovart.ai/canvas?agent=1&newProject=true";
     opener := None |}.
Definition new_canvas : Page :=
  {| ref := 2; url := "https://www.lovart.ai/canvas?agent=1&projectId=p2";
     opener := None |}.

Definition first_look : Turn :=
  {| turn_now := 10; turn_pages := [home; empty_canvas]; during_race := [];
     race_candidate := None; during_load := []; loaded_url := EmptyString |}.

Definition leak_seen : Seen :=
  {| contextPages := [home; empty_canvas];
     urlAtEntry := url home; urlAfterWait := url home;
     imagesFound := false; hasActivity := false;
     urlAtForce := url home;
     submitError := None; popupPage := None;
     attempts := [ {| attempt_url := url home; attempt_now := 0;
                      attempt_turns := [first_look];
                      attempt_resubmitted := Returned false;
                      attempt_signal := Returned false |} ];
     urlAfterGoto := url home; forcedNow := 0; forcedTurns := [];
     forcedError := None;
     cleanupPages := []; closeFails := [];
     originUrl := Some (url home);
     resubmitError := None;
     confirmed := Returned false;
     promptPages := [empty_canvas; new_canvas];
     hasPrompt := fun page => Returned (page =? 2)%nat |}.

Definition leak_ending : Ending :=
  {| finalUrl := fun page => if (page =? 0)%nat then None
                             else if (page =? 1)%nat then Some (url empty_canvas)
                             else Some (url new_canvas);
     finalCloseFails := []; closedWithBrowser := [] |}.

(** The run of task 1, alone in the process, from the canvas stage to
    the end of its [finally] block. *)
Definition leak_run : outcome unit * Books * World :=
  run_from_canvas 1%nat default_settings leak_seen leak_ending home
    (originPage (acquire None home no_books)) (ownedPages (acquire None home no_books))
    initial.

(** A later task looks for a canvas page while the empty canvas is the
    only one open. *)
Definition later_look : Turn :=
  {| turn_now := 10; turn_pages := [empty_canvas]; during_race := [];
     race_candidate := None; during_load := []; loaded_url := EmptyString |}.

Definition too_late : Turn :=
  {| turn_now := 6000; turn_pages := [empty_canvas]; during_race := [];
     race_candidate := None; during_load := []; loaded_url := EmptyString |}.

(** *** A run that releases the claim of another

    Task 1 has claimed the canvas [page_a] and works on it.  Task 2 is
    run on the same browser to resume that project and reuses the page:
    [pickExistingPage] has no other page to give it.  Its own claim on
    the page fails, which it does not look at, and its [finally] block
    releases the page. *)
Definition resume_settings : Settings :=
  {| resolvedExistingCanvasUrl := url page_a; forceSkipGeneration := false;
     canvasWaitTimeout := 120000; canvasRetryLimit := 1;
     closeExistingCanvasPages := false; protectExternalPages := false;
     resumeExistingProject := true; closePagesOnDone := true;
     useCdp := false; shouldCloseBrowser := false |}.

Definition resume_seen : Seen :=
  {| contextPages := [page_a];
     urlAtEntry := url page_a; urlAfterWait := url page_a;
     imagesFound := true; hasActivity := true;
     urlAtForce := url page_a;
     submitError := None; popupPage := None;
     attempts := [];
     urlAfterGoto := url page_a; forcedNow := 0; forcedTurns := [];
     forcedError := None;
     cleanupPages := []; closeFails := [];
     originUrl := Some (url page_a);
     resubmitError := None;
     confirmed := Returned true;
     promptPages := [page_a];
     hasPrompt := fun _ => Returned true |}.

Definition resume_ending : Ending :=
  {| finalUrl := fun _ => Some (url page_a); finalCloseFails := [];
     closedWithBrowser := [] |}.

(** The run of task 2, entered on the page task 1 has claimed. *)
Definition resume_run : outcome unit * Books * World :=
  run_from_canvas 2%nat resume_settings resume_seen resume_ending
    page_a (originPage (acquire (Some page_a) home no_books))
    (ownedPages (acquire (Some page_a) home no_books)) world_one.

Definition shared_look : Turn :=
  {| turn_now := 10; turn_pages := [page_a]; during_race := [];
     race_candidate := None; during_load := []; loaded_url := EmptyString |}.

End Lifecycle.

(** ** Generation state pollers *)
Module Poller.
Import JS.

(** What a poll reads of the document: the selectors [page.$] finds an
    element for (a selector whose query throws finds none), and the text
    of the body, [None] when [page.evaluate] throws. *)
Record Dom := {
  matching : list string;
  bodyText : option string
}.

(** [hasAnySelector(page, selectors)] *)
Definition hasAnySelector (dom : Dom) (selectors : list string) : bool :=
  existsb (fun s => bool_decide (s ∈ matching dom)) selectors.

(** The alternatives of
    [/生成中遇到错误|生成失败|生成任务失败|生成出现错误|任务失败/]. *)
Definition errorPhrases : list string :=
  ["生成中遇到错误"; "生成失败"; "生成任务失败"; "生成出现错误"; "任务失败"]%string.

(** [hasGenerationErrorIndicator(page, selectors)] on an open page;
    [indicators] is [selectors.generationErrorIndicators || []]. *)
Definition hasGenerationErrorIndicator (dom : Dom) (indicators : list string) : bool :=
  if hasAnySelector dom indicators then true
  else match bodyText dom with
       | Some text => existsb (fun phrase => Str.contains phrase text) errorPhrases
       | None => false
       end.

(** [resolveEffectiveImageCount(urlCount, visualCount, _summaryCount)]:
<<
    const base = Math.max(Number(urlCount) || 0, Number(visualCount) || 0);
    if (!base) return 0;
    return base;
>> *)
Definition resolveEffectiveImageCount (urlCount visualCount _summaryCount : Z) : Z :=
  let base := Z.max urlCount visualCount in
  if (base =? 0)%Z then 0%Z else base.

(** The message of the error [throwIfAborted] throws for an aborted
    signal with the given reason. *)
Definition aborted_message (reason : string) : string :=
  ("lovart_aborted:" ++ (if Str.nonempty reason then reason else "aborted"))%string.

(** One turn of [waitForGenerationReady]. *)
Record Sample := {
  now : Z;                      (* Date.now() at the loop head *)
  pageGone : bool;              (* !page || page.isClosed() *)
  abortReason : option string;  (* the reason of the abort signal, once aborted *)
  dom : Dom;
  urls : outcome (list string); (* collectAgentImageUrls(page) *)
  stats : outcome (Z * Z);      (* collectResultImageStats(page): visualCount, summaryCount *)
  sleepError : option string    (* what page.waitForTimeout(1000) throws, if it does *)
}.

Record Ready := {
  selector : string;
  readyUrls : list string
}.

Definition images_selector (count : Z) : string :=
  ("images:" ++ Str.of_nat (Z.to_nat count))%string.

(** The count a turn settles on: the statistics are read only while
    the URL count is short of the target. *)
Definition turnCount (expectedCount : value) (minTarget : Z)
    (urlCount : Z) (stats : outcome (Z * Z)) : outcome Z :=
  if (truthy expectedCount && lt_value urlCount expectedCount)
     || (urlCount <? minTarget)%Z
  then match stats with
       | Returned (visual, summary) =>
           Returned (resolveEffectiveImageCount urlCount visual summary)
       | Threw e => Threw e
       | Pending => Pending
       end
  else Returned urlCount.

(** [minTarget] of [waitForGenerationReady]; [minCount] is the integer
    the caller got from [resolveMinimumSuccessCount]. *)
Definition minTarget (expectedCount : value) (minCount : Z) : Z :=
  if (0 <? minCount)%Z then Z.max 1 minCount
  else if Number_isFinite expectedCount && positive_value expectedCount
       then Z.max 1 (Math_floor expectedCount)
       else 1%Z.

Fixpoint waitForGenerationReady_loop (indicators : list string)
    (expectedCount : value) (target : Z) (deadline : Z)
    (samples : list Sample) : outcome (option Ready) :=
  match samples with
  | [] => Pending
  | s :: rest =>
      if (now s <? deadline)%Z then
        if pageGone s then Threw "PAGE_CLOSED"
        else match abortReason s with
        | Some reason => Threw (aborted_message reason)
        | None =>
          if hasGenerationErrorIndicator (dom s) indicators
          then Threw "generation_error"
          else match urls s with
          | Threw e => Threw e
          | Pending => Pending
          | Returned us =>
              match turnCount expectedCount target (Z.of_nat (length us)) (stats s) with
              | Threw e => Threw e
              | Pending => Pending
              | Returned count =>
                  if truthy expectedCount && ge_value count expectedCount
                  then Returned (Some {| selector := images_selector count; readyUrls := us |})
                  else if (target <=? count)%Z
                  then Returned (Some {| selector := images_selector count; readyUrls := us |})
                  else match sleepError s with
                       | Some e => Threw e
                       | None => waitForGenerationReady_loop indicators expectedCount
                                   target deadline rest
                       end
              end
          end
        end
      else Returned None
  end.

(** [waitForGenerationReady(page, selectors, expectedCount, minCount,
    timeoutMs, logger, abortSignal)], called at time [start]. *)
Definition ready_deadline (timeoutMs : option Z) (start : Z) : Z :=
  match timeoutMs with
  | Some ms => if (0 <? ms)%Z then (start + ms)%Z else (start + 180000)%Z
  | None => (start + 180000)%Z
  end.

Definition waitForGenerationReady (indicators : list string)
    (expectedCount : value) (minCount : Z) (timeoutMs : option Z) (start : Z)
    (samples : list Sample) : outcome (option Ready) :=
  waitForGenerationReady_loop indicators expectedCount
    (minTarget expectedCount minCount) (ready_deadline timeoutMs start) samples.

(** A turn after which the loop goes on: nothing is thrown, no error
    indicator shows, and the count is short of both targets. *)
Definition goes_on (indicators : list string) (expectedCount : value) (target : Z)
    (deadline : Z) (s : Sample) : bool :=
  (now s <? deadline)%Z
  && negb (pageGone s)
  && match abortReason s with Some _ => false | None => true end
  && negb (hasGenerationErrorIndicator (dom s) indicators)
  && match urls s with
     | Returned us =>
         match turnCount expectedCount target (Z.of_nat (length us)) (stats s) with
         | Returned count =>
             negb (truthy expectedCount && ge_value count expectedCount)
             && negb (target <=? count)%Z
         | _ => false
         end
     | _ => false
     end
  && match sleepError s with Some _ => false | None => true end.

(** What the turn that meets an error indicator throws. *)
Definition raised_at (s : Sample) : string :=
  if pageGone s then "PAGE_CLOSED"%string
  else match abortReason s with
       | Some reason => aborted_message reason
       | None => "generation_error"%string
       end.

(** For the examples: a page that is still generating, and the same page
    showing the failure text. *)
Definition busy_sample (clock : Z) : Sample :=
  {| now := clock; pageGone := false; abortReason := None;
     dom := {| matching := []; bodyText := Some "生成中"%string |};
     urls := Returned []; stats := Returned (0%Z, 0%Z); sleepError := None |}.

Definition failed_sample (clock : Z) : Sample :=
  {| now := clock; pageGone := false; abortReason := None;
     dom := {| matching := []; bodyText := Some "抱歉，生成失败，请重试"%string |};
     urls := Returned []; stats := Returned (0%Z, 0%Z); sleepError := None |}.

End Poller.

(** ** The count wait of [finalizeAndDownload] and its stuck policy *)
Module CountWait.
Import JS.

Definition initial_reason : string := "未开始".

(** The windows [runLovartBatch] reads from [timeouts]. *)
Definition positive_finite (v : value) : bool :=
  Number_isFinite v && positive_value v.

(** [zeroImageRetryWindowMs] *)
Definition zeroImageRetryWindowMs (zero_image_retry_ms : value) : Z :=
  if positive_finite zero_image_retry_ms then Math_floor zero_image_retry_ms
  else 60000%Z.

(** [zeroImagePollSliceMs] *)
Definition zeroImagePollSliceMs (zero_image_poll_ms : value) : Z :=
  if positive_finite zero_image_poll_ms then Z.max 5000 (Math_floor zero_image_poll_ms)
  else 30000%Z.

(** [zeroImageAbortMs] *)
Definition zeroImageAbortMs (zero_image_abort_ms : value) : Z :=
  if positive_finite zero_image_abort_ms then Z.max 30000 (Math_floor zero_image_abort_ms)
  else 300000%Z.

(** [maxZeroImageRetries] *)
Definition maxZeroImageRetries (zero_image_retry_count : value) : Z :=
  if positive_finite zero_image_retry_count then Z.min 3 (Math_floor zero_image_retry_count)
  else 1%Z.

Record Timeouts := {
  zero_image_retry_ms : value;
  zero_image_poll_ms : value;
  zero_image_abort_ms : value;
  zero_image_retry_count : value
}.

Definition continueCooldownMs : Z := 20000.

(** What [waitForAgentImagesCount] returns: [{ ok, count, urls }]. *)
Record SliceResult := {
  ok : bool;
  count : Z;
  urls : list string
}.

(** The variables the loop of [waitForCountWithRetry] works on:
    its own [lastResult], [zeroSince] and [lastContinueAttemptAt], and
    the [zeroImageRetryCount] and [results] of the enclosing run. *)
Record State := {
  lastResult : SliceResult;
  zeroSince : option Z;
  lastContinueAttemptAt : Z;
  zeroImageRetryCount : Z;
  results : list Slot
}.

(** One turn of the loop.  The clock is read once at the loop head and
    once after the slice: it does not advance inside a synchronous
    stretch. *)
Record Turn := {
  head : Z;
  dom : Poller.Dom;               (* read by hasGenerationErrorIndicator *)
  slice : outcome SliceResult;    (* waitForAgentImagesCount(page, targetCount, sliceMs, ...) *)
  after : Z;
  continued : outcome bool;       (* maybeContinueGeneration, where called *)
  resubmitted : outcome bool;     (* maybeResubmitPrompt, where called *)
  startError : option string      (* thrown by waitForGenerationSignal or
                                     waitForGenerationStart, where called *)
}.

(** [sliceMs] *)
Definition sliceMs (tm : Timeouts) (remainingMs : Z) : Z :=
  Z.min (Z.max 5000 (zeroImagePollSliceMs (zero_image_poll_ms tm))) remainingMs.

(** [resetResults()] *)
Definition resetResults (rs : list Slot) : list Slot :=
  List.map (fun _ => SlotFail initial_reason) rs.

Inductive Step :=
| Next (st : State)
| Done (r : outcome SliceResult) (st : State).

(** The start of the zero-progress window after [if (!zeroSince)
    zeroSince = Date.now()]. *)
Definition zero_window_start (zs : option Z) (clock : Z) : Z :=
  match zs with
  | Some z => if (z =? 0)%Z then clock else z
  | None => clock
  end.

Definition with_last (st : State) (r : SliceResult) : State :=
  {| lastResult := r; zeroSince := zeroSince st;
     lastContinueAttemptAt := lastContinueAttemptAt st;
     zeroImageRetryCount := zeroImageRetryCount st; results := results st |}.

Definition turn (tm : Timeouts) (indicators : list string) (targetCount : value)
    (deadline : Z) (st : State) (tn : Turn) : Step :=
  if negb (head tn <? deadline)%Z then Done (Returned (lastResult st)) st
  else if Poller.hasGenerationErrorIndicator (dom tn) indicators
  then Done (Threw "generation_error") st
  else match slice tn with
  | Threw e => Done (Threw e) st
  | Pending => Done Pending st
  | Returned result =>
      let st := with_last st result in
      if ok result then Done (Returned result) st
      else if (0 <? count result)%Z then
        let st := {| lastResult := result; zeroSince := None;
                     lastContinueAttemptAt := lastContinueAttemptAt st;
                     zeroImageRetryCount := zeroImageRetryCount st;
                     results := results st |} in
        if lt_value (count result) targetCount
           && (continueCooldownMs <? after tn - lastContinueAttemptAt st)%Z
        then match continued tn with
             | Threw e => Done (Threw e) st
             | Pending => Done Pending st
             | Returned false => Next st
             | Returned true =>
                 let st := {| lastResult := result; zeroSince := None;
                              lastContinueAttemptAt := after tn;
                              zeroImageRetryCount := zeroImageRetryCount st;
                              results := results st |} in
                 match startError tn with
                 | Some e => Done (Threw e) st
                 | None => Next st
                 end
             end
        else Next st
      else
        let z := zero_window_start (zeroSince st) (after tn) in
        let st := {| lastResult := result; zeroSince := Some z;
                     lastContinueAttemptAt := lastContinueAttemptAt st;
                     zeroImageRetryCount := zeroImageRetryCount st;
                     results := results st |} in
        let abortMs := zeroImageAbortMs (zero_image_abort_ms tm) in
        if negb (abortMs =? 0)%Z && (abortMs <=? after tn - z)%Z
        then Done (Threw "generation_stuck") st
        else if (zeroImageRetryWindowMs (zero_image_retry_ms tm) <=? after tn - z)%Z
                && (zeroImageRetryCount st <? maxZeroImageRetries (zero_image_retry_count tm))%Z
                && (after tn <? deadline)%Z
        then
          let st := {| lastResult := result; zeroSince := None;
                       lastContinueAttemptAt := lastContinueAttemptAt st;
                       zeroImageRetryCount := zeroImageRetryCount st + 1;
                       results := resetResults (results st) |} in
          match resubmitted tn with
          | Threw e => Done (Threw e) st
          | Pending => Done Pending st
          | Returned false => Done (Returned result) st
          | Returned true =>
              match startError tn with
              | Some e => Done (Threw e) st
              | None => Next st
              end
          end
        else Next st
  end.

Fixpoint waitForCountWithRetry_loop (tm : Timeouts) (indicators : list string)
    (targetCount : value) (deadline : Z) (st : State) (turns : list Turn)
  : outcome SliceResult * State :=
  match turns with
  | [] => (Pending, st)
  | tn :: rest =>
      match turn tm indicators targetCount deadline st tn with
      | Next st' => waitForCountWithRetry_loop tm indicators targetCount deadline st' rest
      | Done r st' => (r, st')
      end
  end.

(** [waitForCountWithRetry(targetCount, deadline)], entered with the
    run's [zeroImageRetryCount] and [results]. *)
Definition waitForCountWithRetry (tm : Timeouts) (indicators : list string)
    (targetCount : value) (deadline : Z) (retryCount : Z) (rs : list Slot)
    (turns : list Turn) : outcome SliceResult * State :=
  waitForCountWithRetry_loop tm indicators targetCount deadline
    {| lastResult := {| ok := false; count := 0; urls := [] |};
       zeroSince := None; lastContinueAttemptAt := 0;
       zeroImageRetryCount := retryCount; results := rs |}
    turns.

(** A turn that finds no image: the loop is entered, no error indicator
    shows, and the slice ends without reaching the target, with a count of
    zero; the clock has a positive reading after it. *)
Definition is_zero_turn (indicators : list string) (deadline : Z) (tn : Turn) : bool :=
  (head tn <? deadline)%Z
  && negb (Poller.hasGenerationErrorIndicator (dom tn) indicators)
  && match slice tn with
     | Returned r => negb (ok r) && (count r =? 0)%Z
     | _ => false
     end
  && (0 <? after tn)%Z.

(** A turn that finds some images, short of the target. *)
Definition is_progress_turn (indicators : list string) (deadline : Z) (tn : Turn) : bool :=
  (head tn <? deadline)%Z
  && negb (Poller.hasGenerationErrorIndicator (dom tn) indicators)
  && match slice tn with
     | Returned r => negb (ok r) && (0 <? count r)%Z
     | _ => false
     end.

Definition state_after (s : Step) : State :=
  match s with
  | Next st => st
  | Done _ st => st
  end.

(** The state the loop is in after [turns], when none of them has ended
    the wait. *)
Fixpoint after_turns (tm : Timeouts) (indicators : list string) (targetCount : value)
    (deadline : Z) (st : State) (turns : list Turn) : option State :=
  match turns with
  | [] => Some st
  | tn :: rest =>
      match turn tm indicators targetCount deadline st tn with
      | Next st' => after_turns tm indicators targetCount deadline st' rest
      | Done _ _ => None
      end
  end.

(** The state [waitForCountWithRetry] starts its loop in. *)
Definition entry_state (retryCount : Z) (rs : list Slot) : State :=
  {| lastResult := {| ok := false; count := 0; urls := [] |};
     zeroSince := None; lastContinueAttemptAt := 0;
     zeroImageRetryCount := retryCount; results := rs |}.

(** For the examples: no window configured, and a turn between two clock
    readings that finds a page without images or error text. *)
Definition default_timeouts : Timeouts :=
  {| zero_image_retry_ms := Undefined; zero_image_poll_ms := Undefined;
     zero_image_abort_ms := Undefined; zero_image_retry_count := Undefined |}.

Definition empty_turn (head_clock after_clock : Z) : Turn :=
  {| head := head_clock;
     dom := {| Poller.matching := []; Poller.bodyText := Some "Lovart"%string |};
     slice := Returned {| ok := false; count := 0; urls := [] |};
     after := after_clock;
     continued := Returned false;
     resubmitted := Returned false;
     startError := None |}.

(** A turn that finds two images, and no button to continue with. *)
Definition partial_turn (head_clock after_clock : Z) : Turn :=
  {| head := head_clock;
     dom := {| Poller.matching := []; Poller.bodyText := Some "Lovart"%string |};
     slice := Returned {| ok := false; count := 2;
                          urls := ["https://a.lovart.ai/artifacts/agent/1.png";
                                   "https://a.lovart.ai/artifacts/agent/2.png"]%string |};
     after := after_clock;
     continued := Returned false;
     resubmitted := Returned false;
     startError := None |}.

End CountWait.

(** ** Archives *)
Module Zip.
Import JS.

Definition missing_image : string := "缺少图片".

(** [isZipFile(filePath)]: [file] is the content of the file, [None]
    when it cannot be opened or read.  The header is a zero-filled
    buffer of four bytes that the read fills from the start of the
    file. *)
Definition header (content : list byte) : list byte :=
  firstn 4 (content ++ [x00; x00; x00; x00]).

Definition isZipFile (file : option (list byte)) : bool :=
  match file with
  | None => false
  | Some content =>
      Byte.eqb (nth 0 (header content) x00) x50
      && Byte.eqb (nth 1 (header content) x00) x4b
  end.

(** [path.extname(p)]: the part of the last path component from its
    last dot on; empty when there is no dot, when the dot is the first
    character of the component, and for the component [..]. *)
Fixpoint drop_slashes (rev_chars : list ascii) : list ascii :=
  match rev_chars with
  | c :: rest => if Ascii.eqb c "/"%char then drop_slashes rest else rev_chars
  | [] => []
  end.

Fixpoint take_component (rev_chars : list ascii) : list ascii :=
  match rev_chars with
  | c :: rest => if Ascii.eqb c "/"%char then [] else c :: take_component rest
  | [] => []
  end.

(** On the reversed component: the reversed extension and what precedes
    the dot, when there is a dot. *)
Fixpoint split_at_dot (rev_component : list ascii) : option (list ascii * list ascii) :=
  match rev_component with
  | [] => None
  | c :: rest =>
      if Ascii.eqb c "."%char then Some ([c], rest)
      else match split_at_dot rest with
           | Some (ext, before) => Some (c :: ext, before)
           | None => None
           end
  end.

Definition extname (p : string) : string :=
  let component := take_component (drop_slashes (rev (list_ascii_of_string p))) in
  match split_at_dot component with
  | None => EmptyString
  | Some (rev_ext, before) =>
      match before, rev_ext with
      | [], _ => EmptyString
      | [d], [_] => if Ascii.eqb d "."%char then EmptyString
                    else string_of_list_ascii (rev rev_ext)
      | _, _ => string_of_list_ascii (rev rev_ext)
      end
  end.

(** [['.png', '.jpg', '.jpeg', '.webp'].includes(ext)] with
    [ext = path.extname(file).toLowerCase()] *)
Definition imageExtensions : list string := [".png"; ".jpg"; ".jpeg"; ".webp"]%string.

Definition lower_ext (file : string) : string := Str.toLowerCase (extname file).

Definition isImageFile (file : string) : bool :=
  existsb (String.eqb (lower_ext file)) imageExtensions.

(** [listing.split('\n')] *)
Fixpoint split_lines_aux (current : string) (s : string) : list string :=
  match s with
  | EmptyString => [current]
  | String c rest =>
      if Ascii.eqb c "010"%char then current :: split_lines_aux EmptyString rest
      else split_lines_aux (current ++ String c EmptyString) rest
  end.

Definition split_lines (s : string) : list string := split_lines_aux EmptyString s.

(** What the archive tools do, as far as the handler sees it. *)
Record Env := {
  (* `unzip -o zip -d unzipDir` succeeds, and listFilesRecursively(unzipDir)
     then returns these paths *)
  unzip_o : option (list string);
  (* the same for `bsdtar -xf zip -C unzipDir` *)
  bsdtar_xf : option (list string);
  (* the output of `unzip -Z1 zip`, or the message of its failure *)
  unzip_Z1 : string + string;
  (* the output of `unzip -p zip entry`, or the message of its failure *)
  unzip_p : string -> list byte + string;
  (* the message convertToPng fails with on a source file, if it does *)
  convert_error : string -> option string;
  (* the clock when a slot is filled *)
  clock : Z
}.

(** The UTF-16 code units of a text, which are what [sort] compares.
    The text is held in UTF-8: a code point takes one to four bytes, and
    a code point above U+FFFF gives two code units, a surrogate pair.  A
    byte that begins no well-formed sequence reads as U+FFFD. *)
Definition continuation (b : N) : bool := (128 <=? b)%N && (b <? 192)%N.

Definition two_bytes (b0 b1 : N) : option N :=
  if (194 <=? b0)%N && (b0 <? 224)%N && continuation b1
  then Some ((b0 - 192) * 64 + (b1 - 128))%N
  else None.

Definition three_bytes (b0 b1 b2 : N) : option N :=
  let cp := ((b0 - 224) * 4096 + (b1 - 128) * 64 + (b2 - 128))%N in
  if (224 <=? b0)%N && (b0 <? 240)%N && continuation b1 && continuation b2
     && (2048 <=? cp)%N && negb ((55296 <=? cp)%N && (cp <? 57344)%N)
  then Some cp
  else None.

Definition four_bytes (b0 b1 b2 b3 : N) : option N :=
  let cp := ((b0 - 240) * 262144 + (b1 - 128) * 4096 + (b2 - 128) * 64 + (b3 - 128))%N in
  if (240 <=? b0)%N && (b0 <? 245)%N && continuation b1 && continuation b2
     && continuation b3 && (65536 <=? cp)%N && (cp <? 1114112)%N
  then Some cp
  else None.

Definition replacement : N := 65533.

Fixpoint utf16_units (bytes : list N) : list N :=
  match bytes with
  | [] => []
  | b0 :: r0 =>
      if (b0 <? 128)%N then b0 :: utf16_units r0
      else
        match r0 with
        | [] => [replacement]
        | b1 :: r1 =>
            match two_bytes b0 b1 with
            | Some cp => cp :: utf16_units r1
            | None =>
                match r1 with
                | [] => replacement :: utf16_units r0
                | b2 :: r2 =>
                    match three_bytes b0 b1 b2 with
                    | Some cp => cp :: utf16_units r2
                    | None =>
                        match r2 with
                        | [] => replacement :: utf16_units r0
                        | b3 :: r3 =>
                            match four_bytes b0 b1 b2 b3 with
                            | Some cp =>
                                (55296 + (cp - 65536) / 1024)%N
                                :: (56320 + (cp - 65536) mod 1024)%N
                                :: utf16_units r3
                            | None => replacement :: utf16_units r0
                            end
                        end
                    end
                end
            end
        end
  end.

Definition units_of (s : string) : list N :=
  utf16_units (List.map N_of_ascii (list_ascii_of_string s)).

(** [a <= b] as the default comparison of [sort] has it: by code units
    from the left, a text before every text it begins. *)
Fixpoint units_leb (a b : list N) : bool :=
  match a, b with
  | [], _ => true
  | _ :: _, [] => false
  | x :: a', y :: b' => (x <? y)%N || ((x =? y)%N && units_leb a' b')
  end.

(** [images.sort()]: ascending in the order of the UTF-16 code units. *)
Definition string_le (a b : string) : Prop := units_leb (units_of a) (units_of b) = true.

#[global] Instance string_le_dec a b : Decision (string_le a b).
Proof. unfold string_le. apply _. Defined.

#[global] Instance string_le_total : Total string_le.
Proof.
  intros a b. unfold string_le. generalize (units_of a) (units_of b). clear a b.
  induction l as [|x l IH]; intros [|y l']; cbn [units_leb]; auto.
  destruct (N.ltb_spec x y) as [Hxy|Hxy]; [left; reflexivity|].
  destruct (N.ltb_spec y x) as [Hyx|Hyx]; [right; reflexivity|].
  assert (x = y) by (apply N.le_antisymm; assumption). subst y.
  rewrite N.eqb_refl. cbn [orb andb]. apply IH.
Qed.

Definition sort (images : list string) : list string :=
  merge_sort string_le images.

(** The loop of the raw per-entry fallback: for each image entry whose
    bytes are not empty, the entry and the temporary file its bytes are
    written to. *)
Fixpoint extract_entries (env : Env) (unzipDir : string) (index : nat)
    (entries : list string) : outcome (list (string * string)) :=
  match entries with
  | [] => Returned []
  | entry :: rest =>
      if isImageFile entry then
        match unzip_p env entry with
        | inr e => Threw ("解压失败，请检查 unzip 命令: " ++ e)
        | inl raw =>
            match extract_entries env unzipDir (S index) rest with
            | Returned more =>
                match raw with
                | [] => Returned more
                | _ => Returned ((entry,
                                  path_join unzipDir
                                    ("entry_" ++ Str.of_nat (S index) ++ lower_ext entry))
                                 :: more)
                end
            | other => other
            end
        end
      else extract_entries env unzipDir index rest
  end.

(** The images the bulk extraction leaves: those among the files
    listed after [unzip -o], or, when that fails, among the files listed
    after [bsdtar -xf]; none when both fail. *)
Definition bulk_images (env : Env) : list string :=
  match unzip_o env with
  | Some files => List.filter isImageFile files
  | None =>
      match bsdtar_xf env with
      | Some files => List.filter isImageFile files
      | None => []
      end
  end.

(** The images found, before sorting, and what the fallback wrote. *)
Definition collect_images (env : Env) (unzipDir : string)
  : outcome (list string * list (string * string)) :=
  match bulk_images env with
  | _ :: _ => Returned (bulk_images env, [])
  | [] =>
      match unzip_Z1 env with
      | inr e => Threw ("解压失败，请检查 unzip 命令: " ++ e)
      | inl listing =>
          match extract_entries env unzipDir 0
                  (List.filter Str.nonempty (List.map Str.trim (split_lines listing))) with
          | Returned written => Returned (List.map snd written, written)
          | Threw e => Threw e
          | Pending => Pending
          end
      end
  end.

(** The loop that fills the slots; [i] counts up to the bound.  Next to
    the slots it yields the calls [convertToPng(images[i], targetPath)]
    made, oldest first. *)
Fixpoint fill (env : Env) (outputDir : string) (images : list string)
    (i turns : nat) (results : list Slot) (converted : list (string * string))
  : outcome (list Slot * list (string * string)) :=
  match turns with
  | O => Returned (results, converted)
  | S k =>
      match images !! i with
      | None => fill env outputDir images (S i) k results converted
      | Some image =>
          if Str.nonempty image then
            match convert_error env image with
            | Some e => Threw e
            | None =>
                fill env outputDir images (S i) k
                  (array_set i (SlotOk (targetPath outputDir i) (clock env)) results)
                  (converted ++ [(image, targetPath outputDir i)])
            end
          else fill env outputDir images (S i) k results converted
      end
  end.

(** What [handleZipDownload] returns, with the files it wrote and moved
    on the way. *)
Record Handled := {
  results : list Slot;
  written : list (string * string);
  converted : list (string * string)
}.

(** [handleZipDownload(zipPath, outputDir, expectedCount, logger)] *)
Definition handleZipDownload (env : Env) (outputDir : string)
    (expectedCount : value) : outcome Handled :=
  let unzipDir := path_join outputDir "unzipped" in
  match collect_images env unzipDir with
  | Returned (images, written) =>
      if too_long expectedCount then Threw "Invalid array length"
      else
        match fill env outputDir (sort images) 0 (loop_bound expectedCount)
                (replicate (array_length expectedCount) (SlotFail missing_image)) [] with
        | Returned (results, converted) =>
            Returned {| results := results; written := written; converted := converted |}
        | Threw e => Threw e
        | Pending => Pending
        end
  | Threw e => Threw e
  | Pending => Pending
  end.

(** The slots after [i] turns of the loop over an array of [n], and the
    moves the loop makes over all the images. *)
Definition slots_after (outputDir : string) (clock : Z) (images : list string)
    (n i : nat) : list Slot :=
  (fun j => if (j <? i)%nat && (j <? length images)%nat
            then SlotOk (targetPath outputDir j) clock
            else SlotFail missing_image) <$> seq 0 n.

Definition moves (outputDir : string) (images : list string) : list (string * string) :=
  imap (fun j image => (image, targetPath outputDir j)) images.

(** The number of slots a call populated. *)
Definition populated (r : outcome Handled) : Z :=
  match r with
  | Returned h => successCount (results h)
  | _ => 0%Z
  end.

(** For the examples: an archive of five images and two other entries
    that the archive tool extracts in bulk, and an archive of two images
    that only the per-entry fallback can read. *)
Definition five_and_two : Env :=
  {| unzip_o := Some ["out/unzipped/c.png"; "out/unzipped/readme.txt";
                      "out/unzipped/a.png"; "out/unzipped/e.webp";
                      "out/unzipped/b.JPG"; "out/unzipped/meta.json";
                      "out/unzipped/d.jpeg"]%string;
     bsdtar_xf := None;
     unzip_Z1 := inr "unused"%string;
     unzip_p := fun _ => inr "unused"%string;
     convert_error := fun _ => None;
     clock := 0 |}.

Definition raw_only : Env :=
  {| unzip_o := None;
     bsdtar_xf := None;
     unzip_Z1 := inl ("b.png" ++ String "010"%char "a.png" ++ String "010"%char EmptyString)%string;
     unzip_p := fun _ => inl [x89; x50];
     convert_error := fun _ => None;
     clock := 0 |}.

End Zip.

(** ** Direct download: the worker pool *)
Module Direct.
Import JS.

Definition missing_url : string := "缺少图片链接".
Definition fetch_failed : string := "下载图片链接失败".

(** The arguments of [downloadImagesWithConcurrency].  [concurrency],
    [minSuccessCount] and [deadlineMs] are whole numbers when they are
    numbers at all: the callers pass a capped integer, the result of
    [resolveMinimumSuccessCount] and a clock value. *)
Record Params := {
  urls : list string;
  outputDir : string;
  expectedCount : value;
  concurrency : option Z;
  minSuccessCount : option Z;
  downloadUntilExpected : bool;
  deadlineMs : option Z
}.

(** [count]: [Number.isFinite(expectedCount) ? Math.max(0, Math.floor(expectedCount)) : 0] *)
Definition count (p : Params) : nat :=
  if Number_isFinite (expectedCount p)
  then Z.to_nat (Z.max 0 (Math_floor (expectedCount p)))
  else 0%nat.

(** [deadline] *)
Definition deadline (p : Params) : Z :=
  match deadlineMs p with
  | Some d => if (0 <? d)%Z then d else 0%Z
  | None => 0%Z
  end.

(** [limit] *)
Definition limit (p : Params) : nat :=
  match concurrency p with
  | Some c => Z.to_nat (Z.max 1 (Z.min 8 c))
  | None => 4%nat
  end.

(** [stopAt] *)
Definition stopAt (p : Params) : Z :=
  match minSuccessCount p with
  | Some m =>
      if negb (downloadUntilExpected p) && (0 <? m)%Z
      then Z.max 1 (Z.min m (Z.of_nat (count p)))
      else 0%Z
  | None => 0%Z
  end.

(** [urls && urls[index] ? urls[index] : ''] *)
Definition url_at (p : Params) (index : nat) : string := nth index (urls p) EmptyString.

(** The variables the workers share, the files on disk, and the indexes
    handed to [downloadImageFromUrl] so far, oldest first. *)
Record State := {
  cursor : nat;
  successes : Z;
  results : list Slot;
  files : gset string;
  fetched : list nat
}.

Definition deadline_passed (p : Params) (clock : Z) : bool :=
  negb (deadline p =? 0)%Z && (deadline p <? clock)%Z.

Definition stop_reached (p : Params) (st : State) : bool :=
  negb (stopAt p =? 0)%Z && (stopAt p <=? successes st)%Z.

(** How a synchronous stretch of a worker ends: it left its loop, it
    suspended on [downloadImageFromUrl] for an index, or [throwIfAborted]
    threw. *)
Inductive Stretch :=
| Exited
| Awaiting (index : nat)
| Aborted (reason : string).

(** A worker from the head of its loop to its next suspension.  The
    clock and the abort signal are read once per stretch: neither
    changes while synchronous code runs.  Every pass moves the cursor, so
    [fuel] passes are enough when [fuel] exceeds the indexes left. *)
Fixpoint worker (p : Params) (fuel : nat) (clock : Z) (abort : option string)
    (st : State) : Stretch * State :=
  match fuel with
  | O => (Exited, st)
  | S fuel' =>
      if deadline_passed p clock then (Exited, st)
      else match abort with
      | Some reason => (Aborted reason, st)
      | None =>
        if stop_reached p st then (Exited, st)
        else
          let index := cursor st in
          let st := {| cursor := S (cursor st); successes := successes st;
                       results := results st; files := files st;
                       fetched := fetched st |} in
          if (count p <=? index)%nat then (Exited, st)
          else if deadline_passed p clock then (Exited, st)
          else if stop_reached p st then (Exited, st)
          else if negb (Str.nonempty (url_at p index)) then
            worker p fuel' clock abort
              {| cursor := cursor st; successes := successes st;
                 results := array_set index (SlotFail missing_url) (results st);
                 files := files st; fetched := fetched st |}
          else if bool_decide (targetPath (outputDir p) index ∈ files st) then
            worker p fuel' clock abort
              {| cursor := cursor st; successes := (successes st + 1)%Z;
                 results := array_set index
                              (SlotOk (targetPath (outputDir p) index) clock) (results st);
                 files := files st; fetched := fetched st |}
          else
            (Awaiting index,
             {| cursor := cursor st; successes := successes st;
                results := results st; files := files st;
                fetched := fetched st ++ [index] |})
      end
  end.

Definition enough_fuel (p : Params) (st : State) : nat := S (count p - cursor st).

(** A suspended worker resumes: [downloadImageFromUrl] has returned the
    saved path (the target path, now on disk) or the empty string. *)
Definition resume (p : Params) (index : nat) (saved : bool) (clock : Z)
    (abort : option string) (st : State) : Stretch * State :=
  let st :=
    if saved then
      {| cursor := cursor st; successes := (successes st + 1)%Z;
         results := array_set index
                      (SlotOk (targetPath (outputDir p) index) clock) (results st);
         files := {[targetPath (outputDir p) index]} ∪ files st;
         fetched := fetched st |}
    else
      {| cursor := cursor st; successes := successes st;
         results := array_set index (SlotFail fetch_failed) (results st);
         files := files st; fetched := fetched st |} in
  worker p (enough_fuel p st) clock abort st.

(** The host settles one pending fetch at a time, in an order and with
    results of its choosing. *)
Record Completion := {
  which : nat;               (* which of the pending fetches settles *)
  saved : bool;              (* whether downloadImageFromUrl saved the file *)
  clock : Z;                 (* Date.now() when the worker resumes *)
  abort : option string      (* the abort signal by then *)
}.

Fixpoint settle (p : Params) (pending : list nat) (st : State)
    (events : list Completion) : outcome (list Slot) * State :=
  match pending with
  | [] => (Returned (results st), st)
  | first :: _ =>
      match events with
      | [] => (Pending, st)
      | ev :: rest =>
          let k := (which ev mod length pending)%nat in
          let index := nth k pending first in
          match resume p index (saved ev) (clock ev) (abort ev) st with
          | (Exited, st') => settle p (delete k pending) st' rest
          | (Awaiting i, st') => settle p (delete k pending ++ [i]) st' rest
          | (Aborted reason, st') => (Threw (Poller.aborted_message reason), st')
          end
      end
  end.

(** [Array.from({ length: limit }, () => (async () => { ... })())]: each
    worker runs its first stretch as it is created. *)
Fixpoint start (p : Params) (workers : nat) (clock : Z) (abort : option string)
    (pending : list nat) (st : State) : option string * list nat * State :=
  match workers with
  | O => (None, pending, st)
  | S n =>
      match worker p (enough_fuel p st) clock abort st with
      | (Exited, st') => start p n clock abort pending st'
      | (Awaiting i, st') => start p n clock abort (pending ++ [i]) st'
      | (Aborted reason, st') =>
          let '(_, pending', st'') := start p n clock abort pending st' in
          (Some reason, pending', st'')
      end
  end.

(** [downloadImagesWithConcurrency({...})], called at time [now] with the
    given abort signal and files on disk; [Promise.all] rejects as soon
    as a worker throws.  An array of 2^32 elements or more cannot be
    allocated. *)
Definition downloadImagesWithConcurrency (p : Params) (now : Z)
    (abortAtStart : option string) (disk : gset string)
    (events : list Completion) : outcome (list Slot) * State :=
  let st0 := {| cursor := 0; successes := 0;
                results := replicate (count p) (SlotFail missing_url);
                files := disk; fetched := [] |} in
  if (2 ^ 32 <=? Z.of_nat (count p))%Z
  then (Threw "Invalid array length",
        {| cursor := 0; successes := 0; results := []; files := disk; fetched := [] |})
  else if (count p =? 0)%nat then (Returned (results st0), st0)
  else
    match start p (limit p) now abortAtStart [] st0 with
    | (Some reason, _, st) => (Threw (Poller.aborted_message reason), st)
    | (None, pending, st) => settle p pending st events
    end.

(** For the examples: three slots expected, two URLs known, a pool of
    two workers, and a schedule under which the second fetch settles
    first and fails. *)
Definition example_params : Params :=
  {| urls := ["https://a.lovart.ai/agent/1.png"; "https://a.lovart.ai/agent/2.png"]%string;
     outputDir := "out";
     expectedCount := Num (of_Z 3);
     concurrency := Some 2%Z;
     minSuccessCount := Some 3%Z;
     downloadUntilExpected := true;
     deadlineMs := None |}.

Definition example_schedule : list Completion :=
  [ {| which := 1; saved := false; clock := 500; abort := None |};
    {| which := 0; saved := true; clock := 900; abort := None |};
    {| which := 0; saved := true; clock := 950; abort := None |} ].

(** An output directory that holds the three target files already, a
    call with a URL for every slot, and the same call told to stop at two
    successes. *)
Definition full_disk : gset string :=
  {[ "out/001.png"; "out/002.png"; "out/003.png" ]}%string.

Definition rerun_params : Params :=
  {| urls := ["https://a.lovart.ai/agent/1.png"; "https://a.lovart.ai/agent/2.png";
              "https://a.lovart.ai/agent/3.png"]%string;
     outputDir := "out";
     expectedCount := Num (of_Z 3);
     concurrency := Some 2%Z;
     minSuccessCount := Some 3%Z;
     downloadUntilExpected := true;
     deadlineMs := None |}.

Definition short_circuit : Params :=
  {| urls := urls rerun_params;
     outputDir := "out";
     expectedCount := Num (of_Z 3);
     concurrency := Some 2%Z;
     minSuccessCount := Some 2%Z;
     downloadUntilExpected := false;
     deadlineMs := None |}.

(** What one synchronous stretch of a worker does to the shared state. *)
Record stretch_ok (p : Params) (clock : Z) (abort : option string)
    (st : State) (e : Stretch) (st' : State) : Prop := {
  so_files : files st' = files st;
  so_cursor : (cursor st <= cursor st')%nat;
  so_length : length (results st') = length (results st);
  so_slots : forall i,
    results st' !! i = results st !! i
    \/ ((cursor st <= i < cursor st')%nat /\ (i < count p)%nat
        /\ ((Str.nonempty (url_at p i) = false
             /\ results st' !! i = Some (SlotFail missing_url))
            \/ (Str.nonempty (url_at p i) = true
                /\ targetPath (outputDir p) i ∈ files st
                /\ results st' !! i = Some (SlotOk (targetPath (outputDir p) i) clock))));
  so_successes : (successes st <= successes st')%Z;
  so_end : match e with
           | Awaiting i =>
               fetched st' = fetched st ++ [i]
               /\ (i < count p)%nat /\ (cursor st <= i < cursor st')%nat
               /\ Str.nonempty (url_at p i) = true
               /\ targetPath (outputDir p) i ∉ files st
           | Exited => fetched st' = fetched st
           | Aborted reason => fetched st' = fetched st /\ abort = Some reason
           end
}.

(** The invariant of the pool, for a call that found [disk] on disk. *)
Record pool_inv (p : Params) (disk : gset string) (st : State) : Prop := {
  pi_length : length (results st) = count p;
  pi_disk : disk ⊆ files st;
  pi_missing : forall i, (i < count p)%nat -> Str.nonempty (url_at p i) = false ->
    results st !! i = Some (SlotFail missing_url);
  pi_fetched : forall i, i ∈ fetched st ->
    (targetPath (outputDir p) i ∉ disk)
    /\ Str.nonempty (url_at p i) = true /\ (i < count p)%nat;
  pi_present : forall i, (i < count p)%nat -> targetPath (outputDir p) i ∈ disk ->
    results st !! i = Some (SlotFail missing_url)
    \/ exists t, results st !! i = Some (SlotOk (targetPath (outputDir p) i) t)
}.

(** The state a resumed worker starts its next stretch from. *)
Definition settled (p : Params) (index : nat) (saved : bool) (clock : Z) (st : State)
  : State :=
  if saved then
    {| cursor := cursor st; successes := (successes st + 1)%Z;
       results := array_set index
                    (SlotOk (targetPath (outputDir p) index) clock) (results st);
       files := {[targetPath (outputDir p) index]} ∪ files st;
       fetched := fetched st |}
  else
    {| cursor := cursor st; successes := successes st;
       results := array_set index (SlotFail fetch_failed) (results st);
       files := files st; fetched := fetched st |}.

(** The files every slot of the call would be written to are on disk. *)
Definition all_present (p : Params) (disk : gset string) : Prop :=
  forall i, (i < count p)%nat -> targetPath (outputDir p) i ∈ disk.

Definition all_present_b (p : Params) (disk : gset string) : bool :=
  forallb (fun i => bool_decide (targetPath (outputDir p) i ∈ disk)) (seq 0 (count p)).

End Direct.

(** ** The task queue of the workers *)
Module TaskQueue.

(** Text is a sequence of UTF-16 code units, which is what [length] and
    [trim] work on. *)
Definition text := list N.

(** The value of a field of a record. *)
Inductive cell :=
| Undefined
| Null
| Bool (b : bool)
| Number (x : JS.number)
| Text (t : text)
| Array (length : nat)
| Object.

Definition text_of_string (s : string) : text :=
  List.map N_of_ascii (list_ascii_of_string s).

Definition status_new : text := text_of_string "new".
Definition status_processing : text := text_of_string "processing".

(** White space and line terminators, which [trim] removes. *)
Definition is_white_space (c : N) : bool :=
  (c =? 9)%N || (c =? 10)%N || (c =? 11)%N || (c =? 12)%N || (c =? 13)%N
  || (c =? 32)%N || (c =? 160)%N || (c =? 5760)%N
  || ((8192 <=? c)%N && (c <=? 8202)%N)
  || (c =? 8232)%N || (c =? 8233)%N || (c =? 8239)%N || (c =? 8287)%N
  || (c =? 12288)%N || (c =? 65279)%N.

Fixpoint trimStart (t : text) : text :=
  match t with
  | c :: rest => if is_white_space c then trimStart rest else t
  | [] => []
  end.

(** [t.trim()]: the trailing white space is the leading white space of
    the reversed text. *)
Definition trim (t : text) : text := rev (trimStart (rev (trimStart t))).

Definition truthy (c : cell) : bool :=
  match c with
  | Undefined | Null => false
  | Bool b => b
  | Number x => JS.truthy (JS.Num x)
  | Text t => negb (length t =? 0)%nat
  | Array _ | Object => true
  end.

Record Fields := {
  status : cell;
  task_id : cell;
  rewritten_content : cell;
  claimed_by : cell;
  claimed_at : cell
}.

Record Item := {
  record_id : string;
  fields : Fields
}.

(** [s === 'new' || s === null || s === undefined || s === ''] *)
Definition isNew (s : cell) : bool :=
  match s with
  | Undefined | Null => true
  | Text t => bool_decide (t = status_new) || bool_decide (t = [])
  | _ => false
  end.

(** [tid && tid.trim() !== '']: a truthy value that is not text has no
    [trim] method, and the call throws. *)
Definition hasTaskId (tid : cell) : outcome bool :=
  if truthy tid then
    match tid with
    | Text t => Returned (negb (length (trim t) =? 0)%nat)
    | _ => Threw "tid.trim is not a function"
    end
  else Returned false.

(** [content.length >= minLength] for [content = rewritten_content || ''];
    the first worker tests [content && content.length >= 10], the second
    [content.length >= 30]. *)
Definition hasContent (minLength : nat) (raw : cell) : bool :=
  match (if truthy raw then raw else Text []) with
  | Text t => (minLength <=? length t)%nat
  | Array n => (minLength <=? n)%nat
  | _ => false
  end.

(** [!claimed] *)
Definition notClaimed (claimed : cell) : bool := negb (truthy claimed).

(** [updateRecord(recordId, { status: 'processing', claimed_by, claimed_at })]
    on the table the service keeps. *)
Definition claim_fields (worker : text) (now : Z) (f : Fields) : Fields :=
  {| status := Text status_processing;
     task_id := task_id f;
     rewritten_content := rewritten_content f;
     claimed_by := Text worker;
     claimed_at := Number (JS.of_Z now) |}.

Definition updateRecord (worker : text) (now : Z) (id : string) (table : list Item)
  : list Item :=
  List.map (fun it => if String.eqb (record_id it) id
                      then {| record_id := record_id it;
                              fields := claim_fields worker now (fields it) |}
                      else it) table.

(** The loop of [claimTask] over the listed items; [update_error id] is
    the message [updateRecord] fails with for that record, if it does. *)
Fixpoint scan (minLength : nat) (worker : text) (now : Z)
    (update_error : string -> option string)
    (items : list Item) (table : list Item) : outcome (option Item) * list Item :=
  match items with
  | [] => (Returned None, table)
  | item :: rest =>
      let f := fields item in
      match hasTaskId (task_id f) with
      | Threw e => (Threw e, table)
      | Pending => (Pending, table)
      | Returned has_id =>
          if isNew (status f) && has_id
             && hasContent minLength (rewritten_content f)
             && notClaimed (claimed_by f)
          then match update_error (record_id item) with
               | Some e => (Threw e, table)
               | None => (Returned (Some item),
                          updateRecord worker now (record_id item) table)
               end
          else scan minLength worker now update_error rest table
      end
  end.

(** [claimTask()]: [listed] is what [getRecords] returns, or the message
    it fails with; the table is the one the service keeps. *)
Definition claimTask (minLength : nat) (worker : text) (now : Z)
    (listed : list Item + string) (update_error : string -> option string)
    (table : list Item) : outcome (option Item) * list Item :=
  match listed with
  | inr e => (Threw e, table)
  | inl items => scan minLength worker now update_error items table
  end.

(** The two workers. *)
Definition claimTask_first := claimTask 10.
Definition claimTask_second := claimTask 30.

(** The condition under which the loop claims an item. *)
Definition qualifies (minLength : nat) (item : Item) : Prop :=
  isNew (status (fields item)) = true
  /\ hasTaskId (task_id (fields item)) = Returned true
  /\ hasContent minLength (rewritten_content (fields item)) = true
  /\ notClaimed (claimed_by (fields item)) = true.

(** For the examples: a queue of a claimed record, a record whose
    content is short, and a record that can be claimed by the first
    worker only. *)
Definition record (id : string) (s tid content claimed : cell) : Item :=
  {| record_id := id;
     fields := {| status := s; task_id := tid; rewritten_content := content;
                  claimed_by := claimed; claimed_at := Undefined |} |}.

Definition example_queue : list Item :=
  [ record "rec1" (Text status_new) (Text (text_of_string "task-1"))
      (Text (text_of_string "a rewritten article of some length"))
      (Text (text_of_string "worker-b"));
    record "rec2" Null (Text (text_of_string "task-2"))
      (Text (text_of_string "short")) Undefined;
    record "rec3" (Text []) (Text (text_of_string " task-3 "))
      (Text (text_of_string "twelve chars")) Null ].

End TaskQueue.

(** ** The download stage and the report of a run *)
Module Run.
Import JS.

Definition not_started : string := "未开始".
Definition missing_button : string := "缺少下载按钮".

(** What [runLovartBatch] has settled before the stage starts. *)
Record Options := {
  expectedCount : value;                  (* options.expectedCount *)
  outputDir : string;
  preferDirectDownload : bool;
  requireDownloadAll : bool;
  hasDownloadButtons : bool;              (* selectors.downloadButtons is configured *)
  downloadUntilExpected : bool;
  cappedDirectDownloadConcurrency : Z;
  directDownloadStageMs : Z;
  processDeadline : Z;
  downloadDeadline : Z
}.

(** [Array.from({ length: options.expectedCount || 0 }, () => ({ ok: false,
    error: '未开始' }))], for a length the array can have; for a length
    of 2^32 or more [Array.from] throws, which [report_of] tells. *)
Definition initial_results (o : Options) : list Slot :=
  replicate (if truthy (expectedCount o) then array_length (expectedCount o) else 0%nat)
            (SlotFail not_started).

Definition minSuccessCount (o : Options) : Z :=
  Aggregator.resolveMinimumSuccessCount (expectedCount o).

(** [targetDownloadCount] *)
Definition targetDownloadCount (o : Options) (agentImageCount : Z) : Z :=
  let expectedTotal :=
    if Number_isFinite (expectedCount o)
    then Z.max 0 (Math_floor (expectedCount o)) else 0%Z in
  if (0 <? expectedTotal)%Z && (expectedTotal <? 10)%Z then expectedTotal
  else if (0 <? expectedTotal)%Z then
    if (0 <? agentImageCount)%Z && (agentImageCount <? expectedTotal)%Z
    then agentImageCount else expectedTotal
  else agentImageCount.

(** [isDownloadComplete()] *)
Definition isDownloadComplete (o : Options) (agentImageCount : Z)
    (results : list Slot) : bool :=
  let target := targetDownloadCount o agentImageCount in
  if negb (target =? 0)%Z then (target <=? successCount results)%Z
  else if truthy (expectedCount o) then (minSuccessCount o <=? successCount results)%Z
  else (0 <? successCount results)%Z.

(** [resolveDownloadTargetForUrls(urls)] *)
Definition resolveDownloadTargetForUrls (o : Options) (agentImageCount : Z)
    (urls : list string) : Z :=
  let count := Z.of_nat (length urls) in
  let target := targetDownloadCount o agentImageCount in
  if (count =? 0)%Z then 0%Z
  else if negb (target =? 0)%Z then Z.min target count
  else if truthy (expectedCount o)
  then Z.min (Z.max 0 (Math_floor (expectedCount o))) count
  else count.

(** [tryDownloadAllFirst]: [requireDownloadAll || (options.expectedCount &&
    options.expectedCount > 1)] *)
Definition tryDownloadAllFirst (o : Options) : bool :=
  requireDownloadAll o || (truthy (expectedCount o) && gt_const (expectedCount o) 1).

(** [ensureWithinProcessDeadline()] and [ensureWithinDownloadDeadline()] *)
Definition process_expired (o : Options) (clock : Z) : option string :=
  if (processDeadline o <? clock)%Z then Some "处理超时"%string else None.

Definition download_expired (o : Options) (clock : Z) : option string :=
  if negb (downloadDeadline o =? 0)%Z && (downloadDeadline o <? clock)%Z
  then Some "download_timeout"%string else None.

Definition both_expired (o : Options) (clock : Z) : option string :=
  match process_expired o clock with
  | Some e => Some e
  | None => download_expired o clock
  end.

(** What a call of [downloadImagesWithConcurrency] meets. *)
Record DirectRun := {
  dr_clock : Z;
  dr_abort : option string;
  dr_disk : gset string;
  dr_events : list Direct.Completion
}.

Definition direct_download (o : Options) (agentImageCount : Z) (urls : list string)
    (deadline : Z) (d : DirectRun) (results : list Slot) : outcome unit * list Slot :=
  let params :=
    {| Direct.urls := urls;
       Direct.outputDir := outputDir o;
       Direct.expectedCount := Num (of_Z (resolveDownloadTargetForUrls o agentImageCount urls));
       Direct.concurrency := Some (cappedDirectDownloadConcurrency o);
       Direct.minSuccessCount := Some (minSuccessCount o);
       Direct.downloadUntilExpected := downloadUntilExpected o;
       Direct.deadlineMs := Some deadline |} in
  match fst (Direct.downloadImagesWithConcurrency params (dr_clock d) (dr_abort d)
               (dr_disk d) (dr_events d)) with
  | Returned entries => (Returned tt, merge_results entries results)
  | Threw e => (Threw e, results)
  | Pending => (Pending, results)
  end.

(** What [downloadFromHandle] ends in: an error, [{ zipPath }] for a file
    that starts with the zip signature, or [{ filePath }] with the target
    path [convertToPng] returns. *)
Inductive Fetched :=
| FetchThrew (message : string)
| FetchedZip (archive : Zip.Env)
| FetchedFile.

(** [isElementDetachedError(err)] *)
Definition detachedPhrases : list string :=
  ["handle_detached"; "element is not attached to the dom"; "node is detached";
   "jshandle is disposed"; "cannot find context with specified id";
   "execution context was destroyed"]%string.

Definition isElementDetachedError (message : string) : bool :=
  existsb (fun phrase => Str.contains phrase (Str.toLowerCase message)) detachedPhrases.

(** The handling of a bulk download, shared by the toolbar and the
    download-all attempts: [Some done] when the attempt returns
    [isDownloadComplete()], [None] when it goes on. *)
Definition take_bulk (o : Options) (agentImageCount clock : Z) (f : Fetched)
    (results : list Slot) : option bool * list Slot :=
  match f with
  | FetchThrew _ => (None, results)
  | FetchedZip archive =>
      match Zip.handleZipDownload archive (outputDir o) (expectedCount o) with
      | Returned handled =>
          let rs := merge_results (Zip.results handled) results in
          (Some (isDownloadComplete o agentImageCount rs), rs)
      | _ => (None, results)
      end
  | FetchedFile =>
      let rs := array_set 0 (SlotOk (path_join (outputDir o) "lovart_all.png") clock)
                  results in
      (Some (isDownloadComplete o agentImageCount rs), rs)
  end.

(** [attemptToolbarDownload()] *)
Record Toolbar := {
  tb_clock : Z;
  tb_error : option string;       (* thrown by the page helpers of the attempt *)
  tb_ready : bool;                (* hasSelectionToolbar(page) *)
  tb_candidates : list Fetched    (* downloadFromHandle on each candidate *)
}.

Fixpoint toolbar_candidates (o : Options) (agentImageCount clock : Z)
    (candidates : list Fetched) (results : list Slot) : bool * list Slot :=
  match candidates with
  | [] => (false, results)
  | c :: rest =>
      match take_bulk o agentImageCount clock c results with
      | (Some done, rs) => (done, rs)
      | (None, rs) => toolbar_candidates o agentImageCount clock rest rs
      end
  end.

Definition attemptToolbarDownload (o : Options) (agentImageCount : Z) (tb : Toolbar)
    (results : list Slot) : outcome bool * list Slot :=
  match both_expired o (tb_clock tb) with
  | Some e => (Threw e, results)
  | None =>
      match tb_error tb with
      | Some e => (Threw e, results)
      | None =>
          if negb (tb_ready tb) then (Returned false, results)
          else let '(done, rs) :=
                 toolbar_candidates o agentImageCount (tb_clock tb)
                   (tb_candidates tb) results in
               (Returned done, rs)
      end
  end.

(** [attemptDownloadAll()] *)
Record DownloadAll := {
  da_clock : Z;
  da_error : option string;
  da_ready : bool;                (* hasSelectionToolbar(page) *)
  da_appeared : bool;             (* waitForDownloadAllAfterSelection found the control *)
  da_match : bool;                (* a download-all control was located *)
  da_fetched : Fetched
}.

Definition attemptDownloadAll (o : Options) (agentImageCount : Z) (da : DownloadAll)
    (results : list Slot) : outcome bool * list Slot :=
  match both_expired o (da_clock da) with
  | Some e => (Threw e, results)
  | None =>
      match da_error da with
      | Some e => (Threw e, results)
      | None =>
          if negb (da_ready da) then (Returned false, results)
          else if requireDownloadAll o && negb (da_appeared da)
          then (Threw "等待下载全部按钮超时，请确认下载入口是否可见", results)
          else if negb (da_match da) then (Returned false, results)
          else match take_bulk o agentImageCount (da_clock da) (da_fetched da) results with
               | (Some done, rs) => (Returned done, rs)
               | (None, rs) => (Returned false, rs)
               end
      end
  end.

(** One index of the per-item loop. *)
Record Button := {
  b_clock : Z;
  b_present : bool;               (* downloadButtons[i] *)
  b_first : Fetched;              (* the first attempt *)
  b_relocated : bool;             (* the button is found again after a detached handle *)
  b_second : Fetched              (* the second attempt *)
}.

Definition absent_button : Button :=
  {| b_clock := 0; b_present := false; b_first := FetchedFile;
     b_relocated := false; b_second := FetchedFile |}.

(** An attempt inside [try]: the slots, the [downloaded] flag, and
    [Some complete] when a single file was stored in slot [i]. *)
Definition button_attempt (o : Options) (agentImageCount : Z) (i : nat) (clock : Z)
    (f : Fetched) (results : list Slot) (downloaded : bool)
  : list Slot * bool * option bool :=
  match f with
  | FetchThrew _ => (results, downloaded, None)
  | FetchedZip archive =>
      match Zip.handleZipDownload archive (outputDir o) (expectedCount o) with
      | Returned handled =>
          let rs := merge_results (Zip.results handled) results in
          (rs, isDownloadComplete o agentImageCount rs, None)
      | _ => (results, downloaded, None)
      end
  | FetchedFile =>
      let rs := array_set i (SlotOk (targetPath (outputDir o) i) clock) results in
      (rs, downloaded, Some (isDownloadComplete o agentImageCount rs))
  end.

Definition press (o : Options) (agentImageCount : Z) (i : nat) (b : Button)
    (results : list Slot) (downloaded : bool) : outcome unit * list Slot * bool :=
  match process_expired o (b_clock b) with
  | Some e => (Threw e, results, downloaded)
  | None =>
      if negb (b_present b)
      then (Returned tt, array_set i (SlotFail missing_button) results, downloaded)
      else
        match b_first b with
        | FetchThrew message =>
            if isElementDetachedError message then
              if negb (b_relocated b)
              then (Returned tt, array_set i (SlotFail missing_button) results, downloaded)
              else
                match b_second b with
                | FetchThrew message2 =>
                    (Returned tt, array_set i (SlotFail message2) results, downloaded)
                | second =>
                    let '(rs, dl, stored) :=
                      button_attempt o agentImageCount i (b_clock b) second
                        results downloaded in
                    match stored with
                    | Some false => (Returned tt, rs, dl)
                    | _ => (Returned tt, array_set i (SlotFail message) rs, dl)
                    end
                end
            else (Returned tt, array_set i (SlotFail message) results, downloaded)
        | first =>
            let '(rs, dl, _) :=
              button_attempt o agentImageCount i (b_clock b) first results downloaded in
            (Returned tt, rs, dl)
        end
  end.

Fixpoint press_all (o : Options) (agentImageCount : Z) (buttons : list Button)
    (i turns : nat) (results : list Slot) (downloaded : bool)
  : outcome unit * list Slot * bool :=
  match turns with
  | O => (Returned tt, results, downloaded)
  | S k =>
      match press o agentImageCount i (nth i buttons absent_button) results downloaded with
      | (Returned _, rs, dl) => press_all o agentImageCount buttons (S i) k rs dl
      | stop => stop
      end
  end.

Record Buttons := {
  bs_clock : Z;
  bs_error : option string;
  bs_toolbar : bool;              (* hasSelectionToolbar(page) *)
  bs_buttons : list Button        (* collectDownloadButtons(...), index by index *)
}.

(** [buttonTargetCount]: [targetDownloadCount || (options.expectedCount || 0)],
    as the number of turns of the loop over it. *)
Definition buttonTargetCount (o : Options) (agentImageCount : Z) : nat :=
  let target := targetDownloadCount o agentImageCount in
  if negb (target =? 0)%Z then Z.to_nat target
  else if truthy (expectedCount o) then loop_bound (expectedCount o) else 0%nat.

Definition per_item (o : Options) (agentImageCount : Z) (bs : Buttons)
    (results : list Slot) (downloaded : bool) : outcome unit * list Slot * bool :=
  match download_expired o (bs_clock bs) with
  | Some e => (Threw e, results, downloaded)
  | None =>
      match bs_error bs with
      | Some e => (Threw e, results, downloaded)
      | None =>
          match (if bs_toolbar bs then bs_buttons bs else []) with
          | [] => (Returned tt, results, downloaded)
          | buttons =>
              match press_all o agentImageCount buttons 0
                      (buttonTargetCount o agentImageCount) results downloaded with
              | (Returned _, rs, _) =>
                  (Returned tt, rs, isDownloadComplete o agentImageCount rs)
              | stop => stop
              end
          end
      end
  end.

(** One pass of [finalizeAndDownload]. *)
Record Pass := {
  reset_results : bool;           (* the count wait called resetResults() *)
  wait_error : option string;     (* thrown before the images are counted *)
  agentImageUrls : list string;
  agentImageCount : Z;
  stage_clock : Z;
  stage_error : option string;    (* thrown by ensureFitToScreen or ensureCanvasSelection *)
  direct_first : DirectRun;
  toolbar : Toolbar;
  downloadAll : DownloadAll;
  zoom_clock : Z;
  buttons : Buttons;
  scrape_clock : Z;
  scraped : string + list string; (* collectAgentImageUrls(page), or what it throws *)
  direct_last : DirectRun
}.

(** The errors the per-item loop records carry a message. *)
Definition fetched_named (f : Fetched) : bool :=
  match f with
  | FetchThrew message => Str.nonempty message
  | _ => true
  end.

Definition button_named (b : Button) : bool :=
  fetched_named (b_first b) && fetched_named (b_second b).

Definition errors_named (p : Pass) : bool :=
  forallb button_named (bs_buttons (buttons p)).

(** The report [finalizeAndDownload] returns and the one the [catch] of
    [runLovartBatch] makes of an error. *)
Record Report := {
  ok : bool;
  results : list Slot;
  successes : option Z;
  expectedTotal : option Z;
  error : option string
}.

Definition sequence (A : Type) (step : outcome A * list Slot)
    (next : A -> list Slot -> outcome Report * list Slot) : outcome Report * list Slot :=
  match step with
  | (Returned a, rs) => next a rs
  | (Threw e, rs) => (Threw e, rs)
  | (Pending, rs) => (Pending, rs)
  end.
Arguments sequence {A} step next.

Definition guard (e : option string) (rs : list Slot) : outcome unit * list Slot :=
  match e with
  | Some message => (Threw message, rs)
  | None => (Returned tt, rs)
  end.

Definition insufficient (count minimum : Z) : string :=
  ("生成图片不足 (" ++ Str.of_nat (Z.to_nat count) ++ "/"
     ++ Str.of_nat (Z.to_nat minimum) ++ ")")%string.

Definition finalizeAndDownload (o : Options) (p : Pass) (results0 : list Slot)
  : outcome Report * list Slot :=
  let aic := agentImageCount p in
  let rs0 := if reset_results p then CountWait.resetResults results0 else results0 in
  sequence (guard (wait_error p) rs0) (fun _ rs =>
  sequence (guard (if (aic =? 0)%Z then Some "生成图片为 0，重试仍无结果"%string
                   else None) rs) (fun _ rs =>
  sequence (guard (if truthy (expectedCount o) && (aic <? minSuccessCount o)%Z
                   then Some (insufficient aic (minSuccessCount o)) else None) rs)
    (fun _ rs =>
  sequence (guard (process_expired o (stage_clock p)) rs) (fun _ rs =>
  sequence (guard (stage_error p) rs) (fun _ rs =>
  (* direct fetch first, when preferred and URLs are known *)
  sequence
    (if preferDirectDownload o then
       match both_expired o (dr_clock (direct_first p)) with
       | Some e => (Threw e, rs)
       | None =>
           match agentImageUrls p with
           | [] => (Returned false, rs)
           | urls =>
               let deadline :=
                 if (0 <? directDownloadStageMs o)%Z
                 then Z.min (downloadDeadline o)
                        (dr_clock (direct_first p) + directDownloadStageMs o)
                 else downloadDeadline o in
               match direct_download o aic urls deadline (direct_first p) rs with
               | (Returned _, rs') => (Returned (isDownloadComplete o aic rs'), rs')
               | (Threw e, rs') => (Threw e, rs')
               | (Pending, rs') => (Pending, rs')
               end
           end
       end
     else (Returned false, rs)) (fun downloaded rs =>
  (* the toolbar control *)
  sequence
    (if downloaded then (Returned true, rs)
     else attemptToolbarDownload o aic (toolbar p) rs) (fun downloaded rs =>
  (* download all, after a zoom-out when it was not tried first *)
  sequence
    (if downloaded then (Returned true, rs)
     else if tryDownloadAllFirst o then attemptDownloadAll o aic (downloadAll p) rs
     else match download_expired o (zoom_clock p) with
          | Some e => (Threw e, rs)
          | None => attemptDownloadAll o aic (downloadAll p) rs
          end) (fun downloaded rs =>
  (* the per-item buttons *)
  sequence
    (if negb downloaded && hasDownloadButtons o then
       match per_item o aic (buttons p) rs downloaded with
       | (Returned _, rs', dl) => (Returned dl, rs')
       | (Threw e, rs', _) => (Threw e, rs')
       | (Pending, rs', _) => (Pending, rs')
       end
     else (Returned downloaded, rs)) (fun downloaded rs =>
  (* last resort: fetch whatever URLs the page shows now *)
  sequence
    (if downloaded then (Returned tt, rs)
     else match both_expired o (scrape_clock p) with
          | Some e => (Threw e, rs)
          | None =>
              match scraped p with
              | inl e => (Threw e, rs)
              | inr [] => (Threw "未检测到生成图片链接，请检查页面状态", rs)
              | inr urls => direct_download o aic urls (downloadDeadline o)
                              (direct_last p) rs
              end
          end) (fun _ rs =>
  (Returned {| ok := Aggregator.report_ok (expectedCount o) rs;
               results := rs;
               successes := Some (successCount rs);
               expectedTotal := Some (Aggregator.expectedTotal (expectedCount o) rs);
               error := None |}, rs))))))))))).

(** [isPageClosedError(err)].  An error stands here by its message; the
    errors with the code [PAGE_CLOSED] are those [assertPageOpen]
    creates, and their message is [PAGE_CLOSED]. *)
Definition closedPhrases : list string :=
  ["target page, context or browser has been closed"; "page closed";
   "browser has been closed"; "session closed"]%string.

Definition isPageClosedError (message : string) : bool :=
  String.eqb message "PAGE_CLOSED"
  || existsb (fun phrase => Str.contains phrase (Str.toLowerCase message)) closedPhrases.

(** [runLovartBatch] from the array on: the array is made, which throws
    a [RangeError] out of the run when the expected count asks for 2^32
    slots or more; then up to two passes over the same array, the second
    after a closed page has been reopened, and the report.
    [reopen_error] is what the recovery throws, if it does. *)
Definition error_report (message : string) (rs : list Slot) : Report :=
  {| ok := false; results := rs; successes := None; expectedTotal := None;
     error := Some message |}.

Definition report_of (o : Options) (first : Pass) (reopen_error : option string)
    (second : Pass) : outcome Report :=
  if too_long (expectedCount o) then Threw "Invalid array length"
  else
  match finalizeAndDownload o first (initial_results o) with
  | (Returned r, _) => Returned r
  | (Pending, _) => Pending
  | (Threw e, rs) =>
      if isPageClosedError e then
        match reopen_error with
        | Some e' => Returned (error_report e' rs)
        | None =>
            match finalizeAndDownload o second rs with
            | (Returned r, _) => Returned r
            | (Pending, _) => Pending
            | (Threw e'', rs') => Returned (error_report e'' rs')
            end
        end
      else Returned (error_report e rs)
  end.

(** The array of a run keeps its length and every slot of it says what
    became of it; a pass leaves the array so and reports the array it
    worked on. *)
Definition inv (n : nat) (rs : list Slot) : Prop := length rs = n /\ slots_wf rs.

Definition good (n : nat) (out : outcome Report * list Slot) : Prop :=
  inv n (snd out) /\ forall r, fst out = Returned r -> results r = snd out.

(** For the examples: ten images expected, direct fetch preferred; a pass
    that finds eight image URLs and fetches all eight, and a pass that
    finds no image at all. *)
Definition example_options : Options :=
  {| expectedCount := Num (of_Z 10);
     outputDir := "out";
     preferDirectDownload := true;
     requireDownloadAll := false;
     hasDownloadButtons := true;
     downloadUntilExpected := true;
     cappedDirectDownloadConcurrency := 4;
     directDownloadStageMs := 0;
     processDeadline := 100000;
     downloadDeadline := 90000 |}.

Definition idle_direct : DirectRun :=
  {| dr_clock := 1000; dr_abort := None; dr_disk := ∅; dr_events := [] |}.

Definition saved_at (t : Z) : Direct.Completion :=
  {| Direct.which := 0; Direct.saved := true; Direct.clock := t; Direct.abort := None |}.

Definition eight_found : Pass :=
  {| reset_results := false;
     wait_error := None;
     agentImageUrls := List.map (fun k => ("https://a.lovart.ai/agent/" ++ Str.of_nat k
                                           ++ ".png")%string) (seq 1 8);
     agentImageCount := 8;
     stage_clock := 1000;
     stage_error := None;
     direct_first :=
       {| dr_clock := 1000; dr_abort := None; dr_disk := ∅;
          dr_events := List.map saved_at [2000; 2100; 2200; 2300; 2400; 2500; 2600; 2700]%Z |};
     toolbar := {| tb_clock := 3000; tb_error := None; tb_ready := false;
                   tb_candidates := [] |};
     downloadAll := {| da_clock := 3000; da_error := None; da_ready := false;
                       da_appeared := false; da_match := false;
                       da_fetched := FetchedFile |};
     zoom_clock := 3000;
     buttons := {| bs_clock := 3000; bs_error := None; bs_toolbar := false;
                   bs_buttons := [] |};
     scrape_clock := 3000;
     scraped := inr [];
     direct_last := idle_direct |}.

Definition none_found : Pass :=
  {| reset_results := false;
     wait_error := None;
     agentImageUrls := [];
     agentImageCount := 0;
     stage_clock := 1000;
     stage_error := None;
     direct_first := idle_direct;
     toolbar := toolbar eight_found;
     downloadAll := downloadAll eight_found;
     zoom_clock := 3000;
     buttons := buttons eight_found;
     scrape_clock := 3000;
     scraped := inr [];
     direct_last := idle_direct |}.

End Run.

(** * Properties *)

Module JSFacts.
Import JS.
Local Open Scope Z_scope.

Lemma digits2_pos_bounds (p : positive) :
  2 ^ (Z.pos (digits2_pos p) - 1) <= Z.pos p < 2 ^ Z.pos (digits2_pos p).
Proof.
  induction p as [p IH | p IH |]; simpl digits2_pos.
  - rewrite Pos2Z.inj_succ.
    replace (Z.succ (Z.pos (digits2_pos p)) - 1) with (Z.succ (Z.pos (digits2_pos p) - 1)) by lia.
    rewrite !Z.pow_succ_r by lia. lia.
  - rewrite Pos2Z.inj_succ.
    replace (Z.succ (Z.pos (digits2_pos p)) - 1) with (Z.succ (Z.pos (digits2_pos p) - 1)) by lia.
    rewrite !Z.pow_succ_r by lia. lia.
  - simpl. lia.
Qed.

Lemma digits2_pos_unique (p : positive) (d : Z) :
  2 ^ (d - 1) <= Z.pos p < 2 ^ d -> Z.pos (digits2_pos p) = d.
Proof.
  intros [Hlo Hhi].
  destruct (digits2_pos_bounds p) as [Hlo' Hhi'].
  assert (0 < d).
  { destruct (Z_lt_le_dec 0 d); [assumption|].
    exfalso. destruct (Z.eq_dec d 0) as [->|]; [simpl in Hhi; lia|].
    rewrite Z.pow_neg_r in Hhi by lia. lia. }
  destruct (Z_lt_le_dec (Z.pos (digits2_pos p)) d) as [Hlt|Hge].
  - assert (2 ^ Z.pos (digits2_pos p) <= 2 ^ (d - 1)) by (apply Z.pow_le_mono_r; lia). lia.
  - destruct (Z.eq_dec (Z.pos (digits2_pos p)) d); [assumption|].
    assert (2 ^ d <= 2 ^ (Z.pos (digits2_pos p) - 1)) by (apply Z.pow_le_mono_r; lia). lia.
Qed.

Lemma shr_1_m (r : shr_record) : 0 <= shr_m r -> shr_m (shr_1 r) = shr_m r / 2.
Proof.
  destruct r as [m b s]. simpl. intros Hm.
  destruct m as [|[p|p|]|p]; cbn [shr_m]; try lia; try reflexivity.
  - apply Z.div_unique with (r := 1); lia.
  - apply Z.div_unique with (r := 0); lia.
Qed.

Lemma iter_shr_1_m (k : positive) : forall r : shr_record,
  0 <= shr_m r -> shr_m (SpecFloat.iter_pos shr_1 k r) = shr_m r / 2 ^ Z.pos k.
Proof.
  induction k as [k IH | k IH |]; intros r Hr; simpl SpecFloat.iter_pos.
  - assert (H1 : 0 <= shr_m (shr_1 r)) by (rewrite shr_1_m by assumption; apply Z.div_pos; lia).
    assert (H2 : 0 <= shr_m (SpecFloat.iter_pos shr_1 k (shr_1 r))) by (rewrite IH by assumption; apply Z.div_pos; lia).
    rewrite IH, IH, shr_1_m by assumption.
    rewrite !Z.div_div by lia.
    f_equal. change 2 with (2 ^ 1) at 1.
    rewrite <- !Z.pow_add_r by lia. f_equal. lia.
  - assert (H2 : 0 <= shr_m (SpecFloat.iter_pos shr_1 k r)) by (rewrite IH by assumption; apply Z.div_pos; lia).
    rewrite IH, IH by assumption.
    rewrite !Z.div_div by lia.
    f_equal. rewrite <- !Z.pow_add_r by lia. f_equal. lia.
  - rewrite shr_1_m by assumption. reflexivity.
Qed.

Lemma round_nearest_even_bounds (m : Z) (l : location) :
  m <= round_nearest_even m l <= m + 1.
Proof.
  destruct l as [|[]]; simpl; try lia. destruct (Z.even m); lia.
Qed.

Lemma fexp_normal (x : Z) : -1021 <= x -> fexp prec emax x = x - 53.
Proof. intros H. unfold fexp, emin, prec, emax. lia. Qed.

Lemma shr_fexp_none (m : positive) (e : Z) :
  Z.pos (digits2_pos m) = 53 -> -1074 <= e ->
  shr_fexp prec emax (Z.pos m) e loc_Exact = (Build_shr_record (Z.pos m) false false, e).
Proof.
  intros Hd He. unfold shr_fexp. cbn [Zdigits2 shr_record_of_loc].
  rewrite Hd, fexp_normal by lia.
  replace (53 + e - 53 - e) with 0 by lia. reflexivity.
Qed.

Lemma binary_round_aux_bracket (P : positive) (e : Z) :
  53 < Z.pos (digits2_pos P) ->
  -1074 <= Z.pos (digits2_pos P) + e - 53 ->
  Z.pos (digits2_pos P) + e - 53 + 1 <= 971 ->
  exists (m : positive) (e2 : Z),
    binary_round_aux prec emax false (Z.pos P) e loc_Exact = S754_finite false m e2 /\
    let k := Z.pos (digits2_pos P) - 53 in
    let q := Z.pos P / 2 ^ k in
    (e2 = e + k /\ q <= Z.pos m <= q + 1) \/
    (e2 = e + k + 1 /\ q <= 2 * Z.pos m <= q + 1).
Proof.
  intros HD Hlo Hhi.
  destruct (digits2_pos_bounds P) as [HPlo HPhi].
  set (D := Z.pos (digits2_pos P)) in *.
  set (k := D - 53). set (q := Z.pos P / 2 ^ k).
  assert (Hk : 0 < k) by (unfold k; lia).
  assert (Hq : 2 ^ 52 <= q < 2 ^ 53).
  { unfold q. split.
    - apply Z.div_le_lower_bound; [apply Z.pow_pos_nonneg; lia|].
      rewrite <- Z.pow_add_r by lia. replace (k + 52) with (D - 1) by (unfold k; lia). assumption.
    - apply Z.div_lt_upper_bound; [apply Z.pow_pos_nonneg; lia|].
      rewrite <- Z.pow_add_r by lia. replace (k + 53) with D by (unfold k; lia). assumption. }
  unfold binary_round_aux.
  assert (E1 : shr_fexp prec emax (Z.pos P) e loc_Exact =
               (SpecFloat.iter_pos shr_1 (Z.to_pos k) (Build_shr_record (Z.pos P) false false), e + k)).
  { unfold shr_fexp. cbn [Zdigits2 shr_record_of_loc]. fold D.
    rewrite fexp_normal by lia.
    replace (D + e - 53 - e) with (Z.pos (Z.to_pos k)) by (rewrite Z2Pos.id; unfold k; lia).
    cbn [shr]. rewrite Z2Pos.id by lia. reflexivity. }
  rewrite E1. clear E1.
  set (r1 := SpecFloat.iter_pos shr_1 (Z.to_pos k) _).
  assert (Hr1 : shr_m r1 = q).
  { unfold r1. rewrite iter_shr_1_m by (cbn; lia). cbn [shr_m]. rewrite Z2Pos.id by lia. reflexivity. }
  pose proof (round_nearest_even_bounds (shr_m r1) (loc_of_shr_record r1)) as Hrne.
  set (m1 := round_nearest_even (shr_m r1) (loc_of_shr_record r1)) in *.
  rewrite Hr1 in Hrne.
  assert (Hm1pos : 0 < m1) by (assert (0 < 2 ^ 52) by (apply Z.pow_pos_nonneg; lia); lia).
  destruct m1 as [|pm1|pm1] eqn:Em1; try lia.
  destruct (Z_lt_le_dec (Z.pos pm1) (2 ^ 53)) as [Hlt|Hge].
  - rewrite shr_fexp_none.
    + cbn [shr_m].
      replace (e + k <=? emax - prec) with true
        by (symmetry; apply Z.leb_le; unfold emax, prec, k; lia).
      exists pm1, (e + k). split; [reflexivity|]. left. split; [reflexivity|lia].
    + apply digits2_pos_unique. change (53 - 1) with 52. lia.
    + unfold k. lia.
  - assert (Epm : Z.pos pm1 = 2 ^ 53) by lia.
    assert (Epm' : pm1 = (2 ^ 53)%positive) by (apply Pos2Z.inj; rewrite Epm; reflexivity).
    subst pm1.
    assert (E2 : shr_fexp prec emax (Z.pos (2 ^ 53)) (e + k) loc_Exact =
                 (Build_shr_record (Z.pos (2 ^ 52)) false false, e + k + 1)).
    { unfold shr_fexp. cbn [Zdigits2 shr_record_of_loc].
      replace (Z.pos (digits2_pos (2 ^ 53))) with 54 by reflexivity.
      rewrite fexp_normal by (unfold k; lia).
      replace (54 + (e + k) - 53 - (e + k)) with 1 by lia.
      reflexivity. }
    rewrite E2. cbn [shr_m].
    replace (e + k + 1 <=? emax - prec) with true
      by (symmetry; apply Z.leb_le; unfold emax, prec, k; lia).
    exists (2 ^ 52)%positive, (e + k + 1). split; [reflexivity|]. right.
    split; [reflexivity|].
    change (2 * Z.pos (2 ^ 52)) with (2 ^ 53). rewrite <- Epm. lia.
Qed.

Lemma iter_xO_pow (a p : positive) :
  Z.pos (Pos.iter xO p a) = Z.pos p * 2 ^ Z.pos a.
Proof.
  induction a as [|a IH] using Pos.peano_ind.
  - simpl. lia.
  - rewrite Pos.iter_succ, Pos2Z.inj_xO, IH, Pos2Z.inj_succ, Z.pow_succ_r by lia. lia.
Qed.

Lemma binary_round_aux_exact (m : positive) (e : Z) :
  Z.pos (digits2_pos m) = 53 -> -1074 <= e <= 971 ->
  binary_round_aux prec emax false (Z.pos m) e loc_Exact = S754_finite false m e.
Proof.
  intros Hd He. unfold binary_round_aux.
  rewrite shr_fexp_none by lia. cbn [shr_m loc_of_shr_record round_nearest_even].
  rewrite shr_fexp_none by lia. cbn [shr_m].
  replace (e <=? emax - prec) with true
    by (symmetry; apply Z.leb_le; unfold emax, prec; lia).
  reflexivity.
Qed.

Lemma of_Z_small (p : positive) :
  Z.pos (digits2_pos p) < 53 ->
  exists m : positive,
    of_Z (Z.pos p) = S754_finite false m (Z.pos (digits2_pos p) - 53) /\
    Z.pos m = Z.pos p * 2 ^ (53 - Z.pos (digits2_pos p)) /\
    Z.pos (digits2_pos m) = 53.
Proof.
  intros Hd. set (d := Z.pos (digits2_pos p)) in *.
  destruct (digits2_pos_bounds p) as [Hlo Hhi]. fold d in Hlo, Hhi.
  assert (Hd0 : 0 < d) by (unfold d; lia).
  set (a := Z.to_pos (53 - d)).
  assert (Ha : Z.pos a = 53 - d) by (unfold a; rewrite Z2Pos.id; lia).
  assert (Hm : Z.pos (Pos.iter xO p a) = Z.pos p * 2 ^ (53 - d))
    by (rewrite iter_xO_pow, Ha; reflexivity).
  assert (Hdm : Z.pos (digits2_pos (Pos.iter xO p a)) = 53).
  { apply digits2_pos_unique. rewrite Hm. change (53 - 1) with 52. split.
    - replace 52 with ((d - 1) + (53 - d)) by lia.
      rewrite Z.pow_add_r by lia. apply Z.mul_le_mono_nonneg_r; [apply Z.pow_nonneg; lia|assumption].
    - replace 53 with (d + (53 - d)) at 2 by lia.
      rewrite Z.pow_add_r by lia. apply Z.mul_lt_mono_pos_r; [apply Z.pow_pos_nonneg; lia|assumption]. }
  exists (Pos.iter xO p a). split; [|split; assumption].
  unfold of_Z, binary_normalize, binary_round, shl_align. fold d.
  rewrite Z.add_0_r, fexp_normal by lia.
  replace (d - 53 - 0) with (Z.neg a) by lia.
  apply binary_round_aux_exact; [assumption|lia].
Qed.

Lemma floor_of_Z_small (p : positive) :
  Z.pos (digits2_pos p) < 53 -> floor_number (of_Z (Z.pos p)) = Z.pos p.
Proof.
  intros Hd. destruct (of_Z_small p Hd) as (m & -> & Hm & _).
  unfold floor_number, signed.
  replace (0 <=? Z.pos (digits2_pos p) - 53) with false by (symmetry; apply Z.leb_gt; lia).
  rewrite Z.shiftr_div_pow2 by lia. rewrite Hm.
  replace (- (Z.pos (digits2_pos p) - 53)) with (53 - Z.pos (digits2_pos p)) by lia.
  apply Z.div_mul. apply Z.pow_nonzero; lia.
Qed.

Lemma digits_small (n : Z) (p : positive) :
  Z.pos p = n -> n < 2 ^ 48 -> Z.pos (digits2_pos p) <= 48.
Proof.
  intros Hp Hn. destruct (digits2_pos_bounds p) as [Hlo _].
  destruct (Z_le_gt_dec (Z.pos (digits2_pos p)) 48) as [|Hgt]; [assumption|].
  assert (2 ^ 48 <= 2 ^ (Z.pos (digits2_pos p) - 1)) by (apply Z.pow_le_mono_r; lia). lia.
Qed.


Lemma ceil_of_Z_small (p : positive) :
  Z.pos (digits2_pos p) < 53 -> Math_ceil (of_Z (Z.pos p)) = Z.pos p.
Proof.
  intros Hd. destruct (of_Z_small p Hd) as (m & -> & Hm & _).
  unfold Math_ceil, signed.
  replace (0 <=? Z.pos (digits2_pos p) - 53) with false by (symmetry; apply Z.leb_gt; lia).
  rewrite Z.shiftr_div_pow2 by lia. rewrite Hm.
  replace (- (Z.pos (digits2_pos p) - 53)) with (53 - Z.pos (digits2_pos p)) by lia.
  rewrite <- Z.mul_opp_l, Z.div_mul by (apply Z.pow_nonzero; lia). lia.
Qed.

(** What the runner reads of a natural number below 2^48 held in a
    JavaScript number. *)
Lemma of_Z_reads (z : Z) :
  0 <= z < 2 ^ 48 ->
  Number_isFinite (Num (of_Z z)) = true
  /\ Math_floor (Num (of_Z z)) = z
  /\ Math_ceil (of_Z z) = z
  /\ truthy (Num (of_Z z)) = negb (z =? 0)
  /\ array_length (Num (of_Z z)) = Z.to_nat z
  /\ loop_bound (Num (of_Z z)) = Z.to_nat z
  /\ too_long (Num (of_Z z)) = (2 ^ 32 <=? z).
Proof.
  intros [H0 H1]. destruct z as [|p|p]; [repeat split; reflexivity| |lia].
  pose proof (digits_small (Z.pos p) p eq_refl H1) as Hd.
  pose proof (floor_of_Z_small p ltac:(lia)) as Hf.
  pose proof (ceil_of_Z_small p ltac:(lia)) as Hc.
  destruct (of_Z_small p ltac:(lia)) as (m & E & _ & _).
  unfold array_length, loop_bound, too_long, Math_floor, Number_isFinite, truthy.
  rewrite E in *. rewrite Hf, Hc. repeat split; reflexivity.
Qed.

End JSFacts.

Module SlotFacts.

Lemma array_set_in_range (i : nat) (v : Slot) (l : list Slot) :
  (i < length l)%nat -> array_set i v l = <[i:=v]> l.
Proof.
  intros H. unfold array_set.
  replace (i <? length l)%nat with true by (symmetry; apply Nat.ltb_lt; assumption).
  reflexivity.
Qed.

Lemma normalize_nonempty (p : string) : Str.nonempty (Path.normalize p) = true.
Proof.
  unfold Path.normalize. destruct p as [|c p]; [reflexivity|].
  cbv zeta.
  destruct (Path.normalizeString (String c p) (negb (Path.starts_with_slash (String c p))))
    as [|d kept].
  - destruct (Path.starts_with_slash (String c p)); [reflexivity|].
    destruct (Path.ends_with_slash (String c p)); reflexivity.
  - destruct (Path.starts_with_slash (String c p)); [reflexivity|].
    destruct (Path.ends_with_slash (String c p)); reflexivity.
Qed.

Lemma path_join_nonempty (dir name : string) : Str.nonempty (path_join dir name) = true.
Proof.
  unfold path_join, Path.join.
  destruct dir, name; try reflexivity; apply normalize_nonempty.
Qed.

(** [path.join] normalizes: a leading [./] and a doubled slash go, and
    [..] takes the directory before it with it. *)
Lemma path_join_normalizes :
  path_join "./out" "001.png" = "out/001.png"%string
  /\ path_join "out//run/../" "a.png" = "out/a.png"%string
  /\ path_join "/tmp/out" "unzipped" = "/tmp/out/unzipped"%string
  /\ targetPath "./out" 0 = "out/001.png"%string.
Proof. repeat split; vm_compute; reflexivity. Qed.

Lemma targetPath_nonempty (outputDir : string) (i : nat) :
  Str.nonempty (targetPath outputDir i) = true.
Proof. apply path_join_nonempty. Qed.

Lemma array_set_wf (n i : nat) (v : Slot) (rs : list Slot) :
  (i < n)%nat -> length rs = n -> slots_wf rs -> well_formed v = true ->
  length (array_set i v rs) = n /\ slots_wf (array_set i v rs).
Proof.
  intros Hi Hlen Hwf Hv. rewrite array_set_in_range by lia.
  split; [rewrite length_insert; assumption|]. apply Forall_insert; assumption.
Qed.

Lemma merge_from_wf (n : nat) (entries : list Slot) :
  forall (idx : nat) (rs : list Slot),
    (idx + length entries <= n)%nat -> slots_wf entries ->
    length rs = n -> slots_wf rs ->
    length (merge_from idx entries rs) = n /\ slots_wf (merge_from idx entries rs).
Proof.
  induction entries as [|entry rest IH]; intros idx rs Hidx Hentries Hlen Hwf;
    cbn [merge_from]; [split; assumption|].
  cbn [length] in Hidx. inversion Hentries as [|? ? Hentry Hrest]; subst.
  destruct (array_set_wf (length rs) idx entry rs ltac:(lia) eq_refl Hwf Hentry) as (Hl & Hw).
  destruct entry; [| |discriminate]; apply IH; (lia || assumption).
Qed.

Lemma replicate_wf (n : nat) (s : Slot) :
  well_formed s = true -> slots_wf (replicate n s).
Proof. intros H. apply Forall_replicate. assumption. Qed.

End SlotFacts.

Module AggregatorFacts.
Import JS Aggregator.
Import JSFacts.
Local Open Scope Z_scope.

Lemma ceil_shift_unique (m j T : Z) :
  0 <= j -> (T - 1) * 2 ^ j < m <= T * 2 ^ j ->
  - Z.shiftr (- m) j = T.
Proof.
  intros Hj [Hlo Hhi]. rewrite Z.shiftr_div_pow2 by assumption.
  assert (H2 : 0 < 2 ^ j) by (apply Z.pow_pos_nonneg; lia).
  assert (E : (- m) / 2 ^ j = - T).
  { symmetry. apply Z.div_unique with (r := - m - 2 ^ j * - T); lia. }
  lia.
Qed.

Lemma ceil_mul_0_7 (p : positive) :
  Z.pos p < 2 ^ 48 ->
  Math_ceil (mul (of_Z (Z.pos p)) lit_0_7) = ceil_7_10 (Z.pos p).
Proof.
  intros Hn. unfold ceil_7_10.
  pose proof (digits_small (Z.pos p) p eq_refl Hn) as Hd48.
  destruct (of_Z_small p ltac:(lia)) as (m1 & -> & Hm1 & Hdm1).
  set (n := Z.pos p) in *.
  set (d := Z.pos (digits2_pos p)) in *.
  assert (Hd0 : 0 < d) by (unfold d; lia).
  set (A := 2 ^ (53 - d)) in *.
  assert (HA : 0 < A) by (apply Z.pow_pos_nonneg; lia).
  unfold mul, lit_0_7, SFmul. cbn [xorb].
  set (M := 6305039478318694%positive).
  destruct (digits2_pos_bounds m1) as [Hm1lo Hm1hi]. rewrite Hdm1 in Hm1lo, Hm1hi.
  change (53 - 1) with 52 in Hm1lo.
  destruct (digits2_pos_bounds (m1 * M)) as [HPlo HPhi].
  set (D := Z.pos (digits2_pos (m1 * M))) in *.
  assert (HPval : Z.pos (m1 * M) = Z.pos m1 * 6305039478318694) by reflexivity.
  assert (HD : 105 <= D <= 106).
  { split.
    - destruct (Z_le_gt_dec 105 D) as [|Hgt]; [assumption|].
      assert (2 ^ D <= 2 ^ 104) by (apply Z.pow_le_mono_r; lia).
      assert (2 ^ 52 * 2 ^ 52 <= Z.pos m1 * 6305039478318694)
        by (apply Z.mul_le_mono_nonneg; lia).
      change (2 ^ 52 * 2 ^ 52) with (2 ^ 104) in *. lia.
    - destruct (Z_le_gt_dec D 106) as [|Hgt]; [assumption|].
      assert (2 ^ 106 <= 2 ^ (D - 1)) by (apply Z.pow_le_mono_r; lia).
      assert (Z.pos m1 * 6305039478318694 < 2 ^ 53 * 2 ^ 53)
        by (apply Z.mul_lt_mono_nonneg; lia).
      change (2 ^ 53 * 2 ^ 53) with (2 ^ 106) in *. lia. }
  destruct (binary_round_aux_bracket (m1 * M) (d - 53 + -53)) as (m & e2 & -> & Hbr);
    fold D; try lia.
  fold D in Hbr. cbv zeta in Hbr.
  set (k := D - 53) in *. set (q := Z.pos (m1 * M) / 2 ^ k) in *.
  set (j := 159 - d - D).
  assert (Hj : 0 < j) by (unfold j; lia).
  set (K := 2 ^ k) in *. set (J := 2 ^ j).
  assert (HK : 0 < K) by (apply Z.pow_pos_nonneg; unfold k; lia).
  assert (HJ : 0 < J) by (apply Z.pow_pos_nonneg; lia).
  assert (HJK : J * K = 2 ^ 53 * A).
  { unfold J, K, A. rewrite <- !Z.pow_add_r by (unfold j, k; lia). f_equal. unfold j, k. lia. }
  assert (HK52 : K * 2 ^ 52 <= Z.pos (m1 * M)).
  { unfold K. rewrite <- Z.pow_add_r by (unfold k; lia).
    replace (k + 52) with (D - 1) by (unfold k; lia). assumption. }
  set (T := (7 * n + 9) / 10).
  assert (HT : 7 * n <= 10 * T <= 7 * n + 9).
  { unfold T. pose proof (Z.div_mod (7 * n + 9) 10 ltac:(lia)).
    pose proof (Z.mod_pos_bound (7 * n + 9) 10 ltac:(lia)). lia. }
  assert (Hn0 : 0 < n) by (unfold n; lia).
  rewrite HPval, Hm1 in HK52. fold n in HK52.
  (* the quotient lies strictly between (T-1)*J and T*J *)
  assert (Hqlo : (T - 1) * J + 1 <= q).
  { unfold q. apply Z.div_le_lower_bound; [assumption|].
    rewrite HPval, Hm1. fold n.
    assert (K < 2 * (n * A)) by nia.
    assert ((T - 1) * 2 ^ 53 + 2 * n <= n * 6305039478318694) by lia.
    nia. }
  assert (Hqhi : q < T * J).
  { unfold q. apply Z.div_lt_upper_bound; [assumption|].
    rewrite HPval, Hm1. fold n.
    assert (n * 6305039478318694 < T * 2 ^ 53) by lia.
    nia. }
  unfold Math_ceil, signed.
  destruct Hbr as [[-> Hm] | [-> Hm]].
  - replace (0 <=? d - 53 + -53 + k) with false by (symmetry; apply Z.leb_gt; unfold k; lia).
    apply ceil_shift_unique; [unfold k; lia|].
    replace (- (d - 53 + -53 + k)) with j by (unfold j, k; lia).
    fold J. lia.
  - replace (0 <=? d - 53 + -53 + k + 1) with false by (symmetry; apply Z.leb_gt; unfold k; lia).
    apply ceil_shift_unique; [unfold k; lia|].
    replace (- (d - 53 + -53 + k + 1)) with (j - 1) by (unfold j, k; lia).
    assert (EJ : J = 2 * 2 ^ (j - 1)).
    { unfold J. replace j with (Z.succ (j - 1)) at 1 by lia. apply Z.pow_succ_r. lia. }
    lia.
Qed.

(** A product with a non-positive first factor has a non-positive ceiling. *)
Lemma binary_round_aux_negative (m e : Z) (l : location) :
  Math_ceil (binary_round_aux prec emax true m e l) <= 0.
Proof.
  unfold binary_round_aux.
  destruct (shr_fexp prec emax m e l) as [r1 e1].
  destruct (shr_fexp prec emax _ e1 loc_Exact) as [r2 e2].
  destruct (shr_m r2) as [|p|p]; cbn [Math_ceil]; try lia.
  destruct (e2 <=? emax - prec); cbn [Math_ceil]; try lia.
  unfold signed. destruct (0 <=? e2) eqn:He.
  - rewrite Z.shiftl_mul_pow2 by (apply Z.leb_le; assumption).
    assert (0 < 2 ^ e2) by (apply Z.pow_pos_nonneg; [lia | apply Z.leb_le; assumption]). nia.
  - apply Z.leb_gt in He. change (- Z.neg p) with (Z.pos p).
    rewrite Z.shiftr_div_pow2 by lia.
    assert (0 <= Z.pos p / 2 ^ (- e2)) by (apply Z.div_pos; [lia | apply Z.pow_pos_nonneg; lia]).
    lia.
Qed.

Lemma ceil_mul_negative (p : positive) :
  Math_ceil (mul (of_Z (Z.neg p)) lit_0_7) <= 0.
Proof.
  unfold of_Z, binary_normalize, binary_round.
  destruct (shl_align p 0 _) as [mz ez].
  unfold binary_round_aux.
  destruct (shr_fexp prec emax (Z.pos mz) ez loc_Exact) as [r1 e1].
  destruct (shr_fexp prec emax _ e1 loc_Exact) as [r2 e2].
  destruct (shr_m r2) as [|q|q]; cbn; try lia.
  destruct (e2 <=? emax - prec); cbn; try lia.
  apply binary_round_aux_negative.
Qed.

Lemma resolveMinimumSuccessCount_count (v : value) :
  let count := if Number_isFinite v then Math_floor v else 0 in
  count < 2 ^ 48 ->
  resolveMinimumSuccessCount v = if 0 <? count then spec_minimum count else 1.
Proof.
  intros count Hc. unfold resolveMinimumSuccessCount. fold count.
  destruct count as [|p|p] eqn:E.
  - reflexivity.
  - cbn [Z.eqb Z.ltb Z.compare]. unfold spec_minimum.
    rewrite ceil_mul_0_7 by assumption. reflexivity.
  - cbn [Z.eqb Z.ltb Z.compare].
    pose proof (ceil_mul_negative p). lia.
Qed.

Lemma ceil_7_10_spec (n : Z) : 10 * (ceil_7_10 n - 1) < 7 * n <= 10 * ceil_7_10 n.
Proof.
  unfold ceil_7_10.
  pose proof (Z.div_mod (7 * n + 9) 10 ltac:(lia)).
  pose proof (Z.mod_pos_bound (7 * n + 9) 10 ltac:(lia)). lia.
Qed.

Lemma report_ok_count (v : value) (results : list Slot) :
  let count := if Number_isFinite v then Math_floor v else 0 in
  count < 2 ^ 48 ->
  report_ok v results =
    if 0 <? count then spec_minimum count <=? successCount results
    else 0 <? successCount results.
Proof.
  intros count Hc. unfold report_ok.
  rewrite (resolveMinimumSuccessCount_count v Hc). fold count.
  unfold expectedTotal. subst count.
  destruct (Number_isFinite v).
  - destruct (0 <? Math_floor v) eqn:E.
    + replace (0 <? Z.max 0 (Math_floor v)) with true
        by (symmetry; apply Z.ltb_lt; apply Z.ltb_lt in E; lia).
      reflexivity.
    + replace (0 <? Z.max 0 (Math_floor v)) with false
        by (symmetry; apply Z.ltb_ge; apply Z.ltb_ge in E; lia).
      reflexivity.
  - cbn [Z.ltb Z.compare].
    destruct (0 <? Z.of_nat (length results)); [|reflexivity].
    destruct (0 <? successCount results) eqn:E.
    + apply Z.leb_le. apply Z.ltb_lt in E. lia.
    + apply Z.leb_gt. apply Z.ltb_ge in E. lia.
Qed.

(** C1. The report of a pass that ends normally carries
    [ok = (successCount >= minSuccessCount)] when a positive count [n] was
    expected, with [minSuccessCount = max(1, ceil(0.7 n))], the ceiling
    being the exact one although the code multiplies binary64 numbers;
    with no expected count, or one that rounds down to zero or less, the
    minimum is 1 and [ok = (successCount > 0)].  The minimum is 7 for 10,
    1 for 1 and 1 for 0.  The bound on [n] is far above the 2^32 slots an
    array can have. *)
Theorem report_ok_threshold (expectedCount : value) (results : list Slot) :
  let n := if Number_isFinite expectedCount then Math_floor expectedCount else 0 in
  n < 2 ^ 48 ->
  (10 * (ceil_7_10 n - 1) < 7 * n <= 10 * ceil_7_10 n)
  /\ resolveMinimumSuccessCount expectedCount = (if 0 <? n then Z.max 1 (ceil_7_10 n) else 1)
  /\ report_ok expectedCount results =
       (if 0 <? n then Z.max 1 (ceil_7_10 n) <=? successCount results
        else 0 <? successCount results)
  /\ report_ok Undefined results = (0 <? successCount results)
  /\ resolveMinimumSuccessCount Undefined = 1
  /\ resolveMinimumSuccessCount (Num (of_Z 10)) = 7
  /\ resolveMinimumSuccessCount (Num (of_Z 1)) = 1
  /\ resolveMinimumSuccessCount (Num (of_Z 0)) = 1.
Proof.
  intros n Hn. split; [apply ceil_7_10_spec|].
  split; [apply (resolveMinimumSuccessCount_count expectedCount Hn)|].
  split; [apply (report_ok_count expectedCount results Hn)|].
  split; [apply (report_ok_count Undefined results); reflexivity|].
  repeat split; vm_compute; reflexivity.
Qed.

Lemma report_ok_threshold_witness :
  resolveMinimumSuccessCount (Num (of_Z 3)) = 3
  /\ report_ok (Num (of_Z 3)) [SlotOk "out/001.png" 0; SlotFail "x"; SlotOk "out/003.png" 0] = false.
Proof.
  assert (H : (if Number_isFinite (Num (of_Z 3)) then Math_floor (Num (of_Z 3)) else 0) < 2 ^ 48)
    by (vm_compute; reflexivity).
  destruct (report_ok_threshold (Num (of_Z 3))
              [SlotOk "out/001.png" 0; SlotFail "x"; SlotOk "out/003.png" 0] H)
    as (_ & Hmin & Hok & _).
  split; [rewrite Hmin | rewrite Hok]; vm_compute; reflexivity.
Defined.

End AggregatorFacts.

Module ClaimSetFacts.
Import ClaimSet.

Lemma exclusive_initial : exclusive initial.
Proof.
  unfold exclusive, initial; cbn. split; [set_solver|]. split; [|set_solver].
  intros page. split; [set_solver|]. intros [t Ht]. set_solver.
Qed.

Lemma claim_by_spec (t : Task) (page : option Page) (w : World) :
  match page with
  | Some p =>
      if decide (ref p ∈ claimed (registry w))
      then claim_by t page w = (false, w)
      else claim_by t page w =
             (true, {| registry := {| claimed := {[ref p]} ∪ claimed (registry w);
                                      closeListeners := {[ref p]} ∪ closeListeners (registry w) |};
                       held := grant (held w) t (ref p) |})
  | None => claim_by t page w = (false, w)
  end.
Proof.
  destruct w as [r h]. destruct page as [p|]; unfold claim_by, claimCanvasPage; cbn.
  - destruct (decide (ref p ∈ claimed r)); reflexivity.
  - reflexivity.
Qed.

Lemma exclusive_claim_by (t : Task) (page : option Page) (w : World) :
  exclusive w -> exclusive (snd (claim_by t page w)).
Proof.
  intros (Hone & Hcl & Hls).
  pose proof (claim_by_spec t page w) as Hs.
  destruct page as [p|]; [|rewrite Hs; cbn; repeat split; assumption || apply Hcl].
  destruct (decide (ref p ∈ claimed (registry w))) as [Hin|Hout]; rewrite Hs; cbn.
  - repeat split; assumption || apply Hcl.
  - unfold exclusive, grant; cbn. split; [|split].
    + intros t1 t2 page H1 H2.
      destruct (decide (t1 = t)) as [->|N1], (decide (t2 = t)) as [->|N2]; try reflexivity.
      * apply elem_of_union in H1 as [H1|H1].
        -- apply elem_of_singleton in H1 as ->. exfalso. apply Hout, Hcl. eauto.
        -- eauto.
      * apply elem_of_union in H2 as [H2|H2].
        -- apply elem_of_singleton in H2 as ->. exfalso. apply Hout, Hcl. eauto.
        -- eauto.
      * eauto.
    + intros page. rewrite elem_of_union, elem_of_singleton. split.
      * intros [->|H].
        -- exists t. rewrite decide_True by reflexivity. set_solver.
        -- apply Hcl in H as [t' Ht']. exists t'.
           destruct (decide (t' = t)); set_solver.
      * intros [t' Ht']. destruct (decide (t' = t)).
        -- apply elem_of_union in Ht' as [Ht'|Ht']; [left; set_solver|].
           right. apply Hcl. eauto.
        -- right. apply Hcl. eauto.
    + set_solver.
Qed.

Lemma exclusive_revoke (r : Registry) (h : Task -> gset nat) (page : nat) (ls : gset nat) :
  exclusive {| registry := r; held := h |} ->
  claimed r ∖ {[page]} ⊆ ls ->
  exclusive {| registry := {| claimed := claimed r ∖ {[page]}; closeListeners := ls |};
               held := revoke h page |}.
Proof.
  intros (Hone & Hcl & Hls) Hsub. unfold exclusive, revoke; cbn in *.
  split; [|split; [|assumption]].
  - intros t1 t2 q H1 H2. apply (Hone t1 t2 q); set_solver.
  - intros q. rewrite elem_of_difference. split.
    + intros [Hq Hne]. apply Hcl in Hq as [t Ht]. exists t. set_solver.
    + intros [t Ht]. apply elem_of_difference in Ht as [Ht Hne].
      split; [apply Hcl; eauto | assumption].
Qed.

Lemma exclusive_unclaim (page : option Page) (w : World) :
  exclusive w -> exclusive (unclaim page w).
Proof.
  intros H. destruct page as [p|]; [|assumption].
  destruct w as [r h]. unfold unclaim, unclaimCanvasPage; cbn.
  apply exclusive_revoke; [assumption|].
  destruct H as (_ & _ & Hls). cbn in Hls. set_solver.
Qed.

Lemma exclusive_close (page : nat) (w : World) :
  exclusive w -> exclusive (close page w).
Proof.
  intros H. unfold close.
  destruct (decide (page ∈ closeListeners (registry w))) as [Hin|]; [|assumption].
  destruct w as [r h]. unfold pageClosed; cbn in *. rewrite decide_True by assumption.
  apply exclusive_revoke; [assumption|].
  destruct H as (_ & _ & Hls). cbn in *. set_solver.
Qed.

Lemma exclusive_apply_event (e : Event) (w : World) :
  exclusive w -> exclusive (apply_event w e).
Proof.
  destruct e; cbn; auto using exclusive_claim_by, exclusive_unclaim, exclusive_close.
Qed.

Lemma exclusive_run (events : list Event) (w : World) :
  exclusive w -> exclusive (run events w).
Proof.
  revert w. induction events as [|e events IH]; intros w H; cbn; [assumption|].
  apply IH, exclusive_apply_event, H.
Qed.

Lemma run_app (e1 e2 : list Event) (w : World) : run (e1 ++ e2) w = run e2 (run e1 w).
Proof. unfold run. apply fold_left_app. Qed.

Lemma isAllowed_unclaimed (r : Registry) (cur : option Page) (ign : gset string) (p : Page) :
  isAllowed r cur ign (Some p) = true ->
  (ref p ∉ claimed r) /\ isCanvasPage (Some p) = true.
Proof.
  unfold isAllowed, isCanvasPageClaimed. intros H.
  apply andb_prop in H as [H _]. apply andb_prop in H as [H _].
  apply andb_prop in H as [Hc Hn]. split; [|assumption].
  apply negb_true_iff, bool_decide_eq_false in Hn. assumption.
Qed.

Lemma claim_by_unclaimed (t : Task) (p : Page) (w : World) :
  ref p ∉ claimed (registry w) ->
  claim_by t (Some p) w =
    (true, {| registry := {| claimed := {[ref p]} ∪ claimed (registry w);
                             closeListeners := {[ref p]} ∪ closeListeners (registry w) |};
              held := grant (held w) t (ref p) |}).
Proof.
  intros H. pose proof (claim_by_spec t (Some p) w) as Hs. cbn in Hs.
  rewrite decide_False in Hs by assumption. assumption.
Qed.

Lemma claimed_at_return_intro (t : Task) (cur : option Page) (ign : gset string)
    (p : Page) (events : list Event) (w : World) :
  isAllowed (registry (run events w)) cur ign (Some p) = true ->
  claimed_at_return t cur ign p w (snd (claim_by t (Some p) (run events w)))
  /\ fst (claim_by t (Some p) (run events w)) = true.
Proof.
  intros Hal. destruct (isAllowed_unclaimed _ _ _ _ Hal) as [Hun _].
  rewrite (claim_by_unclaimed t p _ Hun). cbn. split; [|reflexivity].
  exists events, (run events w). repeat split; try assumption.
  - apply claim_by_unclaimed. assumption.
  - cbn [held]. unfold grant. case_decide; [reflexivity|contradiction].
  - intros t' Hne. cbn [held]. unfold grant. case_decide; [contradiction|reflexivity].
Qed.

Lemma claimed_at_return_later (t : Task) (cur : option Page) (ign : gset string)
    (p : Page) (events : list Event) (w w' : World) :
  claimed_at_return t cur ign p (run events w) w' -> claimed_at_return t cur ign p w w'.
Proof.
  intros (evs & w0 & -> & H). exists (events ++ evs), (run evs (run events w)).
  split; [symmetry; apply run_app | exact H].
Qed.

Lemma claim_if_allowed_cases (t : Task) (cur : option Page) (ign : gset string)
    (page : option Page) (w : World) :
  (fst (claim_if_allowed t cur ign page w) = false /\ snd (claim_if_allowed t cur ign page w) = w)
  \/ (exists p, page = Some p /\ fst (claim_if_allowed t cur ign page w) = true
                /\ claimed_at_return t cur ign p w (snd (claim_if_allowed t cur ign page w))).
Proof.
  unfold claim_if_allowed.
  destruct (isAllowed (registry w) cur ign page) eqn:Hal; [|left; split; reflexivity].
  destruct page as [p|]; [|discriminate Hal].
  right. exists p. split; [reflexivity|].
  destruct (claimed_at_return_intro t cur ign p [] w Hal) as [H1 H2]. cbn in H1, H2.
  split; assumption.
Qed.

Lemma find_allowed_cases (t : Task) (cur : option Page) (ign : gset string)
    (pages : list Page) (w : World) :
  match find_allowed (registry w) cur ign pages with
  | Some c => In c pages /\ fst (claim_by t (Some c) w) = true
              /\ claimed_at_return t cur ign c w (snd (claim_by t (Some c) w))
  | None => True
  end.
Proof.
  unfold find_allowed.
  destruct (find _ pages) as [c|] eqn:Hf; [|exact I].
  apply find_some in Hf as [Hin Hal]. split; [assumption|].
  destruct (claimed_at_return_intro t cur ign c [] w Hal) as [H1 H2]. split; assumption.
Qed.

Lemma waitForCanvasPage_loop_returns (t : Task) (deadline : option Z)
    (cur : option Page) (ign : gset string) (turns : list Turn) :
  forall (w : World) (p : Page),
    fst (waitForCanvasPage_loop t deadline cur ign turns w) = Returned (Some p) ->
    claimed_at_return t cur ign p w (snd (waitForCanvasPage_loop t deadline cur ign turns w)).
Proof.
  induction turns as [|tn rest IH]; intros w p; cbn [waitForCanvasPage_loop]; [discriminate|].
  destruct (match deadline with Some d => (turn_now tn <? d)%Z | None => true end);
    [|discriminate].
  pose proof (find_allowed_cases t cur ign (turn_pages tn) w) as Hfind.
  destruct (find_allowed (registry w) cur ign (turn_pages tn)) as [c|].
  - destruct Hfind as (_ & Hok & Hret).
    destruct (claim_by t (Some c) w) as [ok w1]. cbn in Hok, Hret. subst ok.
    cbn. intros [= ->]. assumption.
  - cbn [fst snd].
    destruct (race_candidate tn) as [cand|] eqn:Hrace.
    + destruct (claim_if_allowed_cases t cur ign (loaded_candidate tn)
                  (run (during_load tn) (run (during_race tn) w)))
        as [[Hf Hs] | (q & Hq & Hf & Hret)].
      * destruct (claim_if_allowed t cur ign (loaded_candidate tn) _) as [ok w4].
        cbn in Hf, Hs. subst ok w4. intros H.
        apply claimed_at_return_later with (events := during_race tn).
        apply claimed_at_return_later with (events := during_load tn).
        apply IH, H.
      * destruct (claim_if_allowed t cur ign (loaded_candidate tn) _) as [ok w4].
        cbn in Hf, Hret. subst ok. cbn. intros H. rewrite Hq in H. injection H as ->.
        apply claimed_at_return_later with (events := during_race tn).
        apply claimed_at_return_later with (events := during_load tn).
        assumption.
    + intros H. apply claimed_at_return_later with (events := during_race tn).
      apply IH, H.
Qed.

Lemma waitForCanvasPage_returns (t : Task) (hasContext : bool) (cur : option Page)
    (now : Z) (timeoutMs : option Z) (ign : gset string) (turns : list Turn)
    (w : World) (p : Page) :
  fst (waitForCanvasPage t hasContext cur now timeoutMs ign turns w) = Returned (Some p) ->
  claimed_at_return t cur ign p w
    (snd (waitForCanvasPage t hasContext cur now timeoutMs ign turns w)).
Proof.
  unfold waitForCanvasPage.
  destruct (claim_if_allowed_cases t cur ign cur w) as [[Hf Hs] | (q & Hq & Hf & Hret)].
  - destruct (claim_if_allowed t cur ign cur w) as [ok w1]. cbn in Hf, Hs. subst ok w1.
    destruct hasContext; cbn [negb]; [|discriminate].
    apply waitForCanvasPage_loop_returns.
  - destruct (claim_if_allowed t cur ign cur w) as [ok w1]. cbn in Hf, Hret. subst ok.
    cbn. intros H. rewrite Hq in H. injection H as ->. assumption.
Qed.

Lemma exclusive_claimed_at_return (t : Task) (cur : option Page) (ign : gset string)
    (p : Page) (w w' : World) :
  exclusive w -> claimed_at_return t cur ign p w w' -> exclusive w'.
Proof.
  intros Hex (events & w0 & -> & _ & _ & Hcl & _).
  replace w' with (snd (claim_by t (Some p) (run events w))) by (rewrite Hcl; reflexivity).
  apply exclusive_claim_by, exclusive_run, Hex.
Qed.

Lemma release_all_unclaimed (pages : list Page) (w : World) (p : Page) :
  In p pages -> ref p ∉ claimed (registry (release_all pages w)).
Proof.
  unfold release_all. revert w.
  assert (Hkeep : forall ps w, ref p ∉ claimed (registry w) ->
            ref p ∉ claimed (registry (fold_left (fun w q => unclaim (Some q) w) ps w))).
  { induction ps as [|q ps IH]; intros w Hw; cbn; [assumption|].
    apply IH. destruct w as [r h]. cbn in *. set_solver. }
  induction pages as [|q pages IH]; intros w Hin; [destruct Hin|].
  cbn. destruct Hin as [->|Hin]; [|apply IH, Hin].
  apply Hkeep. destruct w as [r h]. cbn. set_solver.
Qed.

Lemma exclusive_disjoint (w : World) :
  exclusive w -> forall t1 t2, t1 <> t2 -> held w t1 ## held w t2.
Proof.
  intros (Hone & _) t1 t2 Hne. apply elem_of_disjoint. intros page H1 H2.
  apply Hne, (Hone t1 t2 page H1 H2).
Qed.

(** What the registry functions themselves guarantee.  The record
    [held] keeps, for each task, the pages one of its own calls of
    [claimCanvasPage] added to the set and that nobody has removed since:
    in every world the process can reach these are disjoint for two
    distinct tasks and all lie in the claim set.  [waitForCanvasPage]
    returns a page only from a synchronous step that found it allowed,
    hence unclaimed, and claimed it for the caller in that same step;
    claiming a claimed page returns [false] and changes nothing;
    [unclaimCanvasPage] and the close of the page each remove the
    claim, whichever task calls. *)
Lemma registry_exclusive (events : list Event) :
  let w := run events initial in
  (forall t1 t2, t1 <> t2 -> held w t1 ## held w t2)
  /\ (forall t page, page ∈ held w t -> page ∈ claimed (registry w))
  /\ (forall t hasContext cur now timeoutMs ign turns p,
        fst (waitForCanvasPage t hasContext cur now timeoutMs ign turns w)
          = Returned (Some p) ->
        let w' := snd (waitForCanvasPage t hasContext cur now timeoutMs ign turns w) in
        claimed_at_return t cur ign p w w'
        /\ ref p ∈ claimed (registry w')
        /\ ref p ∈ held w' t
        /\ (forall t1 t2, t1 <> t2 -> held w' t1 ## held w' t2))
  /\ (forall t page,
        isCanvasPageClaimed (registry w) page = true ->
        claimCanvasPage (registry w) page = (false, registry w)
        /\ claim_by t page w = (false, w))
  /\ (forall p t,
        (ref p ∉ claimed (registry (unclaim (Some p) w)))
        /\ (ref p ∉ held (unclaim (Some p) w) t))
  /\ (forall p t,
        ref p ∈ claimed (registry w) ->
        (ref p ∉ claimed (registry (close (ref p) w)))
        /\ (ref p ∉ held (close (ref p) w) t)).
Proof.
  intros w.
  assert (Hex : exclusive w) by (apply exclusive_run, exclusive_initial).
  split; [apply exclusive_disjoint, Hex|].
  split; [intros t page H; apply Hex; eauto|].
  split.
  { intros t hasContext cur now timeoutMs ign turns p Hret w'.
    pose proof (waitForCanvasPage_returns _ _ _ _ _ _ _ _ _ Hret) as Hc. fold w' in Hc.
    split; [assumption|].
    pose proof (exclusive_claimed_at_return _ _ _ _ _ _ Hex Hc) as Hex'.
    destruct Hc as (evs & w0 & _ & _ & _ & _ & Hcl & Hh & _).
    split; [rewrite Hcl; set_solver|].
    split; [rewrite Hh; set_solver|].
    apply exclusive_disjoint, Hex'. }
  split.
  { intros t page Hcl. destruct page as [p|]; [|discriminate].
    unfold isCanvasPageClaimed in Hcl. apply bool_decide_eq_true in Hcl.
    pose proof (claim_by_spec t (Some p) w) as Hs. cbn in Hs.
    rewrite decide_True in Hs by assumption. split; [|assumption].
    unfold claimCanvasPage. rewrite decide_True by assumption. reflexivity. }
  split.
  { intros p t. destruct w as [r h]. unfold unclaim, unclaimCanvasPage, revoke; cbn.
    split; set_solver. }
  intros p t Hin. destruct Hex as (_ & _ & Hls).
  unfold close. rewrite decide_True by set_solver.
  destruct w as [r h]. unfold pageClosed, revoke; cbn in *.
  rewrite decide_True by set_solver. cbn. split; set_solver.
Qed.

(** Task 2 waits for a canvas page while task 1 holds [page_a]: it is
    given [page_b], the next canvas page of the context. *)
Lemma waitForCanvasPage_skips_claimed :
  fst (waitForCanvasPage 2%nat true (Some page_home) 0 (Some 5000%Z) ∅ [one_turn] world_one)
    = Returned (Some page_b)
  /\ ref page_b ∈ held world_two 2%nat
  /\ held world_two 1%nat ## held world_two 2%nat.
Proof.
  assert (H : fst (waitForCanvasPage 2%nat true (Some page_home) 0 (Some 5000%Z) ∅
                     [one_turn] world_one)
              = Returned (Some page_b)) by (vm_compute; reflexivity).
  split; [exact H|].
  destruct (registry_exclusive [Claim 1%nat (Some page_a)]) as (_ & _ & Hwait & _).
  destruct (Hwait 2%nat true (Some page_home) 0%Z (Some 5000%Z) ∅ [one_turn] page_b H)
    as (_ & _ & Hheld & Hdis).
  split; [exact Hheld|]. apply Hdis. lia.
Qed.

End ClaimSetFacts.

Module LifecycleFacts.
Import ClaimSet Lifecycle ClaimSetFacts.

Lemma close_keeps_unclaimed (pages : list nat) :
  forall (w : World) (r : nat),
    r ∉ claimed (registry w) ->
    r ∉ claimed (registry (fold_left (fun w page => close page w) pages w)).
Proof.
  induction pages as [|q pages IH]; intros w r Hr; [exact Hr|].
  cbn [fold_left]. apply IH. unfold close.
  destruct (decide (q ∈ closeListeners (registry w))); [|exact Hr].
  unfold pageClosed. destruct (decide (q ∈ closeListeners (registry w))); [|exact Hr].
  cbn. set_solver.
Qed.

(** The [finally] block leaves no page of [pagesToRelease] claimed:
    the owned pages, the page of the run and its origin page. *)
Lemma finish_releases (s : Settings) (e : Ending) (b : Books) (w : World) (p : Page) :
  In p (pagesToRelease b) -> ref p ∉ claimed (registry (finish s e b w)).
Proof.
  intros H. unfold finish. cbv zeta.
  destruct (useCdp s || shouldCloseBrowser s);
    [apply close_keeps_unclaimed|]; apply release_all_unclaimed, H.
Qed.

Lemma release_all_keeps (pages : list Page) :
  forall (w : World) (r : nat),
    r ∈ claimed (registry w) ->
    (forall p, In p pages -> ref p <> r) ->
    r ∈ claimed (registry (release_all pages w)).
Proof.
  induction pages as [|q pages IH]; intros w r Hr Hno; [exact Hr|].
  unfold release_all in *. cbn [fold_left]. apply IH.
  - destruct w as [reg h]. cbn. apply elem_of_difference. split; [exact Hr|].
    intros Hq. apply elem_of_singleton in Hq. apply (Hno q); [left; reflexivity|].
    symmetry. exact Hq.
  - intros p Hp. apply Hno. right. exact Hp.
Qed.

(** It removes no other claim, unless it closes pages: a page claimed
    that is not among [pagesToRelease] stays claimed when the pages and
    the browser are left open. *)
Lemma finish_keeps (s : Settings) (e : Ending) (b : Books) (w : World) (r : nat) :
  closePagesOnDone s = false ->
  useCdp s = false -> shouldCloseBrowser s = false ->
  r ∈ claimed (registry w) ->
  (forall p, In p (pagesToRelease b) -> ref p <> r) ->
  r ∈ claimed (registry (finish s e b w)).
Proof.
  intros Hopen Hcdp Hclose Hr Hno. unfold finish. rewrite Hopen, Hcdp, Hclose.
  apply release_all_keeps; assumption.
Qed.


(** Nor do the runs keep to the pages they have claimed.  In
    [resume_run] task 2 is run on the page task 1 has claimed: its own
    claim fails, the run goes on all the same, and its [finally] block
    removes the claim of task 1, which is still at work on the page.  A
    third task that looks for a canvas page is then given that page. *)
Lemma finished_run_releases_foreign_claim :
  claimed (registry world_one) = {[ref page_a]}
  /\ held world_one 1%nat = {[ref page_a]}
  /\ fst (claim_by 2%nat (Some page_a) world_one) = false
  /\ fst (fst resume_run) = Returned tt
  /\ page (snd (fst resume_run)) = Some page_a
  /\ claimed (registry (snd resume_run)) = ∅
  /\ fst (waitForCanvasPage 3%nat true None 0 (Some 5000%Z) ∅ [shared_look]
            (snd resume_run)) = Returned (Some page_a).
Proof.
  split; [vm_compute; reflexivity|].
  split; [vm_compute; reflexivity|].
  split; [vm_compute; reflexivity|].
  split; [vm_compute; reflexivity|].
  split; [vm_compute; reflexivity|].
  split; vm_compute; reflexivity.
Qed.

End LifecycleFacts.

Module CountWaitFacts.
Import JS CountWait.
Local Open Scope Z_scope.

Lemma zeroImageAbortMs_floor (v : value) : 30000 <= zeroImageAbortMs v.
Proof. unfold zeroImageAbortMs. destruct (positive_finite v); lia. Qed.

Lemma zero_window_start_nonzero (zs : option Z) (clock : Z) :
  0 < clock -> zero_window_start zs clock <> 0.
Proof.
  intros H. unfold zero_window_start. destruct zs as [z|]; [|lia].
  destruct (z =? 0) eqn:E; [lia|]. apply Z.eqb_neq in E. assumption.
Qed.

Lemma zero_window_start_kept (z clock : Z) :
  z <> 0 -> zero_window_start (Some z) clock = z.
Proof.
  intros H. unfold zero_window_start. apply Z.eqb_neq in H. rewrite H. reflexivity.
Qed.

(** A zero turn with the retries used up either raises the stuck error or
    goes on with the window start recorded. *)
Lemma zero_turn_step (tm : Timeouts) (indicators : list string) (target : value)
    (deadline : Z) (st : State) (tn : Turn) :
  is_zero_turn indicators deadline tn = true ->
  maxZeroImageRetries (zero_image_retry_count tm) <= zeroImageRetryCount st ->
  let z := zero_window_start (zeroSince st) (after tn) in
  if zeroImageAbortMs (zero_image_abort_ms tm) <=? after tn - z
  then exists st', turn tm indicators target deadline st tn
                   = Done (Threw "generation_stuck") st'
  else exists st', turn tm indicators target deadline st tn = Next st'
                   /\ zeroSince st' = Some z
                   /\ zeroImageRetryCount st' = zeroImageRetryCount st.
Proof.
  intros H Hretry z. unfold is_zero_turn in H.
  apply andb_prop in H as [H Hafter]. apply andb_prop in H as [H Hslice].
  apply andb_prop in H as [Hhead Hind]. apply negb_true_iff in Hind.
  destruct (slice tn) as [r| |] eqn:Es; try discriminate.
  apply andb_prop in Hslice as [Hok Hcount]. apply negb_true_iff in Hok.
  apply Z.eqb_eq in Hcount.
  pose proof (zeroImageAbortMs_floor (zero_image_abort_ms tm)) as Hab.
  unfold turn. rewrite Hhead, Hind, Es, Hok, Hcount. cbn [negb Z.ltb Z.compare].
  cbn [zeroSince with_last after zeroImageRetryCount]. fold z.
  replace (zeroImageAbortMs (zero_image_abort_ms tm) =? 0) with false
    by (symmetry; apply Z.eqb_neq; lia).
  cbn [negb andb].
  destruct (zeroImageAbortMs (zero_image_abort_ms tm) <=? after tn - z).
  - eexists. reflexivity.
  - replace (zeroImageRetryCount st <? maxZeroImageRetries (zero_image_retry_count tm))
      with false by (symmetry; apply Z.ltb_ge; lia).
    rewrite andb_false_r. cbn [andb].
    eexists. split; [reflexivity|]. split; reflexivity.
Qed.

Lemma stuck_in_loop (tm : Timeouts) (indicators : list string) (target : value)
    (deadline : Z) (pre : list Turn) :
  forall (st : State) (last : Turn) (rest : list Turn),
    maxZeroImageRetries (zero_image_retry_count tm) <= zeroImageRetryCount st ->
    forallb (is_zero_turn indicators deadline) (pre ++ [last]) = true ->
    zeroImageAbortMs (zero_image_abort_ms tm)
      <= after last - zero_window_start (zeroSince st) (after (hd last pre)) ->
    fst (waitForCountWithRetry_loop tm indicators target deadline st (pre ++ last :: rest))
      = Threw "generation_stuck".
Proof.
  induction pre as [|tn pre IH]; intros st last rest Hretry Hzero Hwin.
  - cbn in Hzero. rewrite andb_true_r in Hzero. cbn [hd] in Hwin.
    pose proof (zero_turn_step tm indicators target deadline st last Hzero Hretry) as Hs.
    cbv zeta in Hs.
    replace (_ <=? _) with true in Hs by (symmetry; apply Z.leb_le; exact Hwin).
    destruct Hs as [st' Hs]. cbn [app waitForCountWithRetry_loop]. rewrite Hs. reflexivity.
  - cbn [app forallb] in Hzero. apply andb_prop in Hzero as [Htn Hzero].
    cbn [hd] in Hwin.
    pose proof (zero_turn_step tm indicators target deadline st tn Htn Hretry) as Hs.
    cbv zeta in Hs. cbn [app waitForCountWithRetry_loop].
    destruct (_ <=? _) in Hs.
    + destruct Hs as [st' Hs]. rewrite Hs. reflexivity.
    + destruct Hs as (st' & Hs & Hz & Hr). rewrite Hs.
      apply IH; [lia|assumption|].
      rewrite Hz, zero_window_start_kept; [assumption|].
      apply zero_window_start_nonzero.
      unfold is_zero_turn in Htn. apply andb_prop in Htn as [_ Htn].
      apply Z.ltb_lt. assumption.
Qed.

Lemma progress_resets_window (tm : Timeouts) (indicators : list string) (target : value)
    (deadline : Z) (st : State) (tn : Turn) :
  is_progress_turn indicators deadline tn = true ->
  zeroSince (state_after (turn tm indicators target deadline st tn)) = None.
Proof.
  unfold is_progress_turn. intros H.
  apply andb_prop in H as [H Hslice]. apply andb_prop in H as [Hhead Hind].
  apply negb_true_iff in Hind.
  destruct (slice tn) as [r| |] eqn:Es; try discriminate.
  apply andb_prop in Hslice as [Hok Hcount]. apply negb_true_iff in Hok.
  unfold turn. rewrite Hhead, Hind, Es, Hok, Hcount. cbn [negb].
  destruct (_ && _); [|reflexivity].
  destruct (continued tn) as [[|]| |]; try reflexivity.
  destruct (startError tn); reflexivity.
Qed.

Lemma turn_retry_mono (tm : Timeouts) (indicators : list string) (target : value)
    (deadline : Z) (st : State) (tn : Turn) :
  zeroImageRetryCount st
  <= zeroImageRetryCount (state_after (turn tm indicators target deadline st tn)).
Proof.
  unfold turn.
  destruct (negb (head tn <? deadline)); [reflexivity|].
  destruct (Poller.hasGenerationErrorIndicator (dom tn) indicators); [reflexivity|].
  destruct (slice tn) as [result|e|]; [|reflexivity ..].
  cbn zeta. destruct (ok result); [reflexivity|].
  destruct (0 <? count result).
  - destruct (lt_value (count result) target && _); [|reflexivity].
    destruct (continued tn) as [[|]|e|]; try reflexivity.
    destruct (startError tn); reflexivity.
  - destruct (negb _ && _); [reflexivity|].
    destruct ((zeroImageRetryWindowMs (zero_image_retry_ms tm) <=? _)
              && (zeroImageRetryCount _ <? _) && (after tn <? deadline));
      [|reflexivity].
    destruct (resubmitted tn) as [[|]|e|]; cbn; try lia.
    destruct (startError tn); cbn; lia.
Qed.

Lemma after_turns_app (tm : Timeouts) (indicators : list string) (target : value)
    (deadline : Z) (pre rest : list Turn) :
  forall st,
    after_turns tm indicators target deadline st (pre ++ rest)
    = match after_turns tm indicators target deadline st pre with
      | Some st' => after_turns tm indicators target deadline st' rest
      | None => None
      end.
Proof.
  induction pre as [|tn pre IH]; intros st; cbn [app after_turns]; [reflexivity|].
  destruct (turn tm indicators target deadline st tn); [apply IH|reflexivity].
Qed.

Lemma loop_after_turns (tm : Timeouts) (indicators : list string) (target : value)
    (deadline : Z) (pre rest : list Turn) :
  forall st st',
    after_turns tm indicators target deadline st pre = Some st' ->
    waitForCountWithRetry_loop tm indicators target deadline st (pre ++ rest)
    = waitForCountWithRetry_loop tm indicators target deadline st' rest.
Proof.
  induction pre as [|tn pre IH]; intros st st' H; cbn [app after_turns] in *.
  - injection H as <-. reflexivity.
  - cbn [waitForCountWithRetry_loop].
    destruct (turn tm indicators target deadline st tn); [apply IH; exact H|discriminate].
Qed.

Lemma after_turns_retry_mono (tm : Timeouts) (indicators : list string) (target : value)
    (deadline : Z) (turns : list Turn) :
  forall st st',
    after_turns tm indicators target deadline st turns = Some st' ->
    zeroImageRetryCount st <= zeroImageRetryCount st'.
Proof.
  induction turns as [|tn rest IH]; intros st st' H; cbn [after_turns] in H.
  - injection H as <-. reflexivity.
  - pose proof (turn_retry_mono tm indicators target deadline st tn) as Hm.
    destruct (turn tm indicators target deadline st tn) as [st1|]; [|discriminate].
    cbn in Hm. specialize (IH st1 st' H). lia.
Qed.

(** After a turn that finds some images the window has no start. *)
Lemma after_progress_turn (tm : Timeouts) (indicators : list string) (target : value)
    (deadline : Z) (before : list Turn) (p : Turn) (st st' : State) :
  is_progress_turn indicators deadline p = true ->
  after_turns tm indicators target deadline st (before ++ [p]) = Some st' ->
  zeroSince st' = None.
Proof.
  intros Hp H. rewrite after_turns_app in H.
  destruct (after_turns tm indicators target deadline st before) as [st1|]; [|discriminate].
  cbn [after_turns] in H.
  pose proof (progress_resets_window tm indicators target deadline st1 p Hp) as Hz.
  destruct (turn tm indicators target deadline st1 p) as [st2|]; [|discriminate].
  injection H as <-. exact Hz.
Qed.

(** Zero turns inside the window go on, and leave its start alone. *)
Lemma zeros_go_on (tm : Timeouts) (indicators : list string) (target : value)
    (deadline : Z) (w : Z) (zeros : list Turn) :
  forall st,
    maxZeroImageRetries (zero_image_retry_count tm) <= zeroImageRetryCount st ->
    zeroSince st = Some w -> w <> 0 ->
    forallb (is_zero_turn indicators deadline) zeros = true ->
    Forall (fun tn => after tn - w < zeroImageAbortMs (zero_image_abort_ms tm)) zeros ->
    exists st',
      after_turns tm indicators target deadline st zeros = Some st'
      /\ zeroSince st' = Some w
      /\ zeroImageRetryCount st' = zeroImageRetryCount st.
Proof.
  induction zeros as [|tn zeros IH]; intros st Hretry Hw Hw0 Hzero Hin.
  - exists st. cbn. auto.
  - cbn [forallb] in Hzero. apply andb_prop in Hzero as [Htn Hzero].
    apply Forall_cons in Hin as [Hhere Hin].
    pose proof (zero_turn_step tm indicators target deadline st tn Htn Hretry) as Hs.
    cbv zeta in Hs. rewrite Hw, (zero_window_start_kept w (after tn) Hw0) in Hs.
    replace (_ <=? _) with false in Hs by (symmetry; apply Z.leb_gt; exact Hhere).
    destruct Hs as (st1 & Hs & Hz & Hr). cbn [after_turns]. rewrite Hs.
    destruct (IH st1) as (st' & Hrun & Hz' & Hr'); try assumption; [lia|].
    exists st'. split; [exact Hrun|]. split; [exact Hz'|lia].
Qed.

(** The zero turns of one window, from a state in which the window has
    no start: they go on while the clock is less than [zeroImageAbortMs]
    past the first of them, which is where the window starts. *)
Lemma window_from_first_zero (tm : Timeouts) (indicators : list string) (target : value)
    (deadline : Z) (first : Turn) (more : list Turn) (st : State) :
  maxZeroImageRetries (zero_image_retry_count tm) <= zeroImageRetryCount st ->
  zeroSince st = None ->
  forallb (is_zero_turn indicators deadline) (first :: more) = true ->
  Forall (fun tn => after tn - after first < zeroImageAbortMs (zero_image_abort_ms tm))
         (first :: more) ->
  exists st',
    after_turns tm indicators target deadline st (first :: more) = Some st'
    /\ zeroSince st' = Some (after first)
    /\ zeroImageRetryCount st' = zeroImageRetryCount st.
Proof.
  intros Hretry Hnone Hzero Hin.
  cbn [forallb] in Hzero. apply andb_prop in Hzero as [Hfirst Hzero].
  apply Forall_cons in Hin as [Hhere Hin].
  pose proof (zero_turn_step tm indicators target deadline st first Hfirst Hretry) as Hs.
  cbv zeta in Hs. rewrite Hnone in Hs. cbn [zero_window_start] in Hs.
  replace (_ <=? _) with false in Hs by (symmetry; apply Z.leb_gt; exact Hhere).
  destruct Hs as (st1 & Hs & Hz & Hr). cbn [after_turns]. rewrite Hs.
  assert (Hpos : after first <> 0).
  { unfold is_zero_turn in Hfirst. apply andb_prop in Hfirst as [_ Hfirst].
    apply Z.ltb_lt in Hfirst. lia. }
  destruct (zeros_go_on tm indicators target deadline (after first) more st1)
    as (st' & Hrun & Hz' & Hr'); try assumption; [lia|].
  exists st'. split; [exact Hrun|]. split; [exact Hz'|lia].
Qed.



End CountWaitFacts.

Module PollerFacts.
Import JS Poller.
Local Open Scope Z_scope.

Lemma goes_on_step (indicators : list string) (expected : value) (target deadline : Z)
    (s : Sample) (rest : list Sample) :
  goes_on indicators expected target deadline s = true ->
  waitForGenerationReady_loop indicators expected target deadline (s :: rest)
    = waitForGenerationReady_loop indicators expected target deadline rest.
Proof.
  unfold goes_on. intros H.
  apply andb_prop in H as [H Hsleep]. apply andb_prop in H as [H Hurls].
  apply andb_prop in H as [H Hind]. apply andb_prop in H as [H Habort].
  apply andb_prop in H as [Hnow Hgone].
  apply negb_true_iff in Hgone, Hind.
  cbn [waitForGenerationReady_loop]. rewrite Hnow, Hgone.
  destruct (abortReason s); [discriminate|]. rewrite Hind.
  destruct (urls s) as [us| |]; try discriminate.
  destruct (turnCount expected target (Z.of_nat (length us)) (stats s)) as [c| |];
    try discriminate.
  apply andb_prop in Hurls as [H1 H2]. apply negb_true_iff in H1, H2.
  rewrite H1, H2. destruct (sleepError s); [discriminate|reflexivity].
Qed.

Lemma raised_in_loop (indicators : list string) (expected : value) (target deadline : Z)
    (pre : list Sample) (s : Sample) (rest : list Sample) :
  forallb (goes_on indicators expected target deadline) pre = true ->
  now s < deadline ->
  hasGenerationErrorIndicator (dom s) indicators = true ->
  waitForGenerationReady_loop indicators expected target deadline (pre ++ s :: rest)
    = Threw (raised_at s).
Proof.
  intros Hpre Hnow Hind. induction pre as [|p pre IH].
  - cbn [app waitForGenerationReady_loop]. apply Z.ltb_lt in Hnow. rewrite Hnow.
    unfold raised_at. destruct (pageGone s); [reflexivity|].
    destruct (abortReason s); [reflexivity|]. rewrite Hind. reflexivity.
  - cbn [forallb] in Hpre. apply andb_prop in Hpre as [Hp Hpre].
    cbn [app]. rewrite goes_on_step by assumption. apply IH, Hpre.
Qed.

(** C4. When a turn of the ready poller begins before the deadline and
    the error indicator (selector or page text) shows, the poller throws
    in that very turn, whatever time is left and whatever would have
    followed: [generation_error], unless the page is gone or the task
    aborted, which are thrown first.  It neither sleeps nor polls
    again. *)
Theorem error_indicator_raises (indicators : list string) (expectedCount : value)
    (minCount : Z) (timeoutMs : option Z) (start : Z)
    (pre : list Sample) (s : Sample) (rest : list Sample) :
  forallb (goes_on indicators expectedCount (minTarget expectedCount minCount)
             (ready_deadline timeoutMs start)) pre = true ->
  now s < ready_deadline timeoutMs start ->
  hasGenerationErrorIndicator (dom s) indicators = true ->
  waitForGenerationReady indicators expectedCount minCount timeoutMs start
    (pre ++ s :: rest) = Threw (raised_at s)
  /\ (pageGone s = false -> abortReason s = None ->
      waitForGenerationReady indicators expectedCount minCount timeoutMs start
        (pre ++ s :: rest) = Threw "generation_error").
Proof.
  intros Hpre Hnow Hind.
  assert (H : waitForGenerationReady indicators expectedCount minCount timeoutMs start
                (pre ++ s :: rest) = Threw (raised_at s))
    by (apply raised_in_loop; assumption).
  split; [exact H|].
  intros Hgone Habort. rewrite H. unfold raised_at. rewrite Hgone, Habort. reflexivity.
Qed.

Lemma error_indicator_raises_witness :
  waitForGenerationReady [] (Num (of_Z 4)) 3 (Some 120000) 0
    ([busy_sample 0; busy_sample 1000] ++ failed_sample 2000 :: [busy_sample 3000])
    = Threw "generation_error".
Proof.
  refine (proj2 (error_indicator_raises [] (Num (of_Z 4)) 3 (Some 120000) 0
                   [busy_sample 0; busy_sample 1000] (failed_sample 2000)
                   [busy_sample 3000] _ _ _) _ _).
  - vm_compute. reflexivity.
  - vm_compute. reflexivity.
  - vm_compute. reflexivity.
  - reflexivity.
  - reflexivity.
Defined.

(** C7. The effective image count is the larger of the URL count and the
    visual count; the summary count is not read at all, so it can neither
    raise nor lower it.  In a turn of the ready poller the count is that
    maximum over the URL count and the visual count the turn used, which
    is the sampled one or zero when the statistics were not sampled. *)
Theorem effective_count_is_maximum (urlCount visualCount summaryCount : Z) :
  resolveEffectiveImageCount urlCount visualCount summaryCount
    = Z.max urlCount visualCount
  /\ (forall other : Z,
        resolveEffectiveImageCount urlCount visualCount other
          = resolveEffectiveImageCount urlCount visualCount summaryCount)
  /\ resolveEffectiveImageCount urlCount visualCount summaryCount
       <= Z.max urlCount visualCount
  /\ (forall (expectedCount : value) (target : Z) (us : list string),
        exists visualUsed : Z,
          (visualUsed = visualCount \/ visualUsed = 0)
          /\ turnCount expectedCount target (Z.of_nat (length us))
               (Returned (visualCount, summaryCount))
             = Returned (Z.max (Z.of_nat (length us)) visualUsed)).
Proof.
  assert (E : forall u v s, resolveEffectiveImageCount u v s = Z.max u v).
  { intros u v s. unfold resolveEffectiveImageCount.
    destruct (Z.max u v =? 0) eqn:H; [|reflexivity]. apply Z.eqb_eq in H. lia. }
  split; [apply E|]. split; [intros other; rewrite !E; reflexivity|].
  split; [rewrite E; lia|].
  intros expectedCount target us. unfold turnCount.
  destruct (_ || _).
  - exists visualCount. split; [left; reflexivity|]. rewrite E. reflexivity.
  - exists 0. split; [right; reflexivity|]. f_equal. lia.
Qed.

End PollerFacts.

Module ZipFacts.
Import JS Zip.
Import JSFacts.


Lemma sort_sorted (l : list string) : Sorted string_le (sort l).
Proof. unfold sort. apply Sorted_merge_sort. apply _. Qed.

Lemma sort_perm (l : list string) : sort l ≡ₚ l.
Proof. unfold sort. apply merge_sort_Permutation. Qed.

Lemma image_nonempty (f : string) : isImageFile f = true -> Str.nonempty f = true.
Proof. destruct f; [discriminate|reflexivity]. Qed.

Lemma sort_images (files : list string) :
  Forall (fun f => isImageFile f = true) (sort (List.filter isImageFile files)).
Proof.
  rewrite sort_perm. apply Forall_forall. intros f Hf.
  apply list_elem_of_In, filter_In in Hf. apply Hf.
Qed.

Lemma slots_after_length outputDir clock images n i :
  length (slots_after outputDir clock images n i) = n.
Proof. unfold slots_after. rewrite length_fmap, length_seq. reflexivity. Qed.

Lemma slots_after_lookup outputDir clock images n i j :
  (j < n)%nat ->
  slots_after outputDir clock images n i !! j
    = Some (if (j <? i)%nat && (j <? length images)%nat
            then SlotOk (targetPath outputDir j) clock
            else SlotFail missing_image).
Proof.
  intros H. unfold slots_after. rewrite list_lookup_fmap, lookup_seq_lt by assumption.
  reflexivity.
Qed.

Lemma fill_all (env : Env) (outputDir : string) (images : list string) (n : nat) :
  (forall f, convert_error env f = None) ->
  Forall (fun f => Str.nonempty f = true) images ->
  forall k i, (i + k = n)%nat ->
    fill env outputDir images i k (slots_after outputDir (clock env) images n i)
         (take i (moves outputDir images))
    = Returned (slots_after outputDir (clock env) images n n,
                take n (moves outputDir images)).
Proof.
  intros Hconv Hne. induction k as [|k IH]; intros i Hik.
  - replace i with n by lia. reflexivity.
  - cbn [fill]. destruct (images !! i) as [image|] eqn:Hi.
    + rewrite Forall_forall in Hne.
      rewrite (Hne image) by (apply list_elem_of_lookup; eauto). rewrite Hconv.
      assert (Hlen : (i < length images)%nat) by (apply lookup_lt_Some in Hi; assumption).
      replace (array_set i _ _) with (slots_after outputDir (clock env) images n (S i)).
      * replace (take i (moves outputDir images) ++ [(image, targetPath outputDir i)])
          with (take (S i) (moves outputDir images)).
        -- apply IH. lia.
        -- apply take_S_r. unfold moves. rewrite list_lookup_imap, Hi. reflexivity.
      * unfold array_set. rewrite slots_after_length.
        replace (i <? n)%nat with true by (symmetry; apply Nat.ltb_lt; lia).
        apply list_eq. intros j.
        destruct (decide (j < n)%nat) as [Hj|Hj].
        -- rewrite slots_after_lookup by assumption.
           destruct (decide (j = i)) as [->|Hne'].
           ++ rewrite list_lookup_insert_eq by (rewrite slots_after_length; lia).
              replace (i <? S i)%nat with true by (symmetry; apply Nat.ltb_lt; lia).
              replace (i <? length images)%nat with true by (symmetry; apply Nat.ltb_lt; lia).
              reflexivity.
           ++ rewrite list_lookup_insert_ne by congruence.
              rewrite slots_after_lookup by assumption.
              destruct (j <? length images)%nat; [|rewrite !andb_false_r; reflexivity].
              rewrite !andb_true_r.
              destruct (j <? i)%nat eqn:E1, (j <? S i)%nat eqn:E2; try reflexivity.
              ** apply Nat.ltb_lt in E1. apply Nat.ltb_ge in E2. lia.
              ** apply Nat.ltb_ge in E1. apply Nat.ltb_lt in E2. lia.
        -- rewrite !lookup_ge_None_2; [reflexivity| |].
           ++ rewrite length_insert, slots_after_length. lia.
           ++ rewrite slots_after_length. lia.
    + assert (Hlen : (length images <= i)%nat) by (apply lookup_ge_None in Hi; assumption).
      replace (slots_after outputDir (clock env) images n i)
        with (slots_after outputDir (clock env) images n (S i)).
      * replace (take i (moves outputDir images)) with (take (S i) (moves outputDir images)).
        -- apply IH. lia.
        -- unfold moves. rewrite !take_ge by (rewrite length_imap; lia). reflexivity.
      * unfold slots_after. apply list_fmap_ext. intros _ j _.
        destruct (j <? length images)%nat eqn:E; [|rewrite !andb_false_r; reflexivity].
        apply Nat.ltb_lt in E.
        replace (j <? S i)%nat with true by (symmetry; apply Nat.ltb_lt; lia).
        replace (j <? i)%nat with true by (symmetry; apply Nat.ltb_lt; lia).
        reflexivity.
Qed.

Lemma slots_after_none outputDir clock images n :
  slots_after outputDir clock images n 0 = replicate n (SlotFail missing_image).
Proof.
  unfold slots_after. symmetry. apply replicate_as_Forall.
  rewrite length_fmap, length_seq. split; [reflexivity|].
  apply Forall_fmap, Forall_forall. intros j _. reflexivity.
Qed.

Lemma successCount_slots_after outputDir clock images n :
  successCount (slots_after outputDir clock images n n)
    = Z.of_nat (Nat.min n (length images)).
Proof.
  unfold successCount, slots_after. f_equal.
  assert (H : forall s m, length (List.filter slot_ok
            ((fun j => if (j <? s + m)%nat && (j <? length images)%nat
                       then SlotOk (targetPath outputDir j) clock
                       else SlotFail missing_image) <$> seq s m))
          = (Nat.min (s + m) (length images) - Nat.min s (length images))%nat).
  { intros s m. revert s. induction m as [|m IH]; intros s.
    - cbn. replace (s + 0)%nat with s by lia. lia.
    - cbn [seq fmap list_fmap List.filter].
      replace (s <? s + S m)%nat with true by (symmetry; apply Nat.ltb_lt; lia).
      cbn [andb].
      replace (s + S m)%nat with (S s + m)%nat by lia.
      destruct (s <? length images)%nat eqn:E; cbn [slot_ok length].
      + apply Nat.ltb_lt in E. rewrite IH. lia.
      + apply Nat.ltb_ge in E. rewrite IH. lia. }
  specialize (H 0%nat n). cbn [Nat.add] in H. rewrite H. cbn. lia.
Qed.

Lemma isZipFile_signature (content : list byte) :
  isZipFile (Some content) = true <-> exists rest, content = x50 :: x4b :: rest.
Proof.
  unfold isZipFile, header. split.
  - intros H. apply andb_prop in H as [H0 H1].
    destruct content as [|a [|b rest]]; cbn in H0, H1.
    + vm_compute in H0. discriminate.
    + vm_compute in H1. discriminate.
    + apply byte_dec_bl in H0, H1. subst. eauto.
  - intros [rest ->]. reflexivity.
Qed.

Lemma bulk_images_of (env : Env) (files : list string) :
  unzip_o env = Some files \/ (unzip_o env = None /\ bsdtar_xf env = Some files) ->
  bulk_images env = List.filter isImageFile files.
Proof.
  unfold bulk_images. intros [H|[H1 H2]]; [rewrite H|rewrite H1, H2]; reflexivity.
Qed.

(** [sort] compares code units, not bytes: a name that begins with a
    character beyond U+FFFF, whose first code unit is a surrogate, comes
    before a name that begins with U+FF21, although its bytes are the
    larger. *)
Lemma sort_by_code_units :
  sort ["Ａ.png"; "😀.png"; "b.png"; "B.png"]%string
  = ["B.png"; "b.png"; "😀.png"; "Ａ.png"]%string.
Proof. vm_compute. reflexivity. Qed.

(** C5, as amended.  A file is taken for a zip when its first two bytes
    are the signature [PK], whatever its name.  When the archive is
    extracted in bulk, by [unzip] or, when that fails, by [bsdtar], and
    no conversion fails, the files kept are the extracted files with an
    image extension, sorted in the lexicographic order of their UTF-16
    code units, and they are moved one to one onto the slots from index 0
    up, as far as the expected count [n] reaches: the array has [n]
    slots, slot [i] is a success exactly when there is an [i]-th image,
    and [min n (number of images)] slots are populated.  With five images
    and two other entries that is five as soon as five slots are
    expected. *)
Theorem zip_images_fill_slots_in_order (env : Env) (outputDir : string)
    (files : list string) (n : nat) :
  unzip_o env = Some files \/ (unzip_o env = None /\ bsdtar_xf env = Some files) ->
  List.filter isImageFile files <> [] ->
  (forall f, convert_error env f = None) ->
  (Z.of_nat n < 2 ^ 32)%Z ->
  (forall content : list byte,
     isZipFile (Some content) = true <-> exists rest, content = x50 :: x4b :: rest)
  /\ Sorted string_le (sort (List.filter isImageFile files))
  /\ sort (List.filter isImageFile files) ≡ₚ List.filter isImageFile files
  /\ exists h : Handled,
       handleZipDownload env outputDir (Num (of_Z (Z.of_nat n))) = Returned h
       /\ length (results h) = n
       /\ converted h = take n (moves outputDir (sort (List.filter isImageFile files)))
       /\ (forall i, (i < n)%nat ->
             results h !! i
             = Some (if (i <? length (List.filter isImageFile files))%nat
                     then SlotOk (targetPath outputDir i) (clock env)
                     else SlotFail missing_image))
       /\ successCount (results h)
          = Z.of_nat (Nat.min n (length (List.filter isImageFile files)))
       /\ (length (List.filter isImageFile files) = 5%nat -> (5 <= n)%nat ->
           successCount (results h) = 5%Z).
Proof.
  intros Hbulk Hsome Hconv Hn.
  apply bulk_images_of in Hbulk.
  split; [apply isZipFile_signature|].
  split; [apply sort_sorted|]. split; [apply sort_perm|].
  set (images := sort (List.filter isImageFile files)).
  assert (Hlen : length images = length (List.filter isImageFile files))
    by (unfold images; rewrite sort_perm; reflexivity).
  destruct (of_Z_reads (Z.of_nat n)) as (_ & _ & _ & _ & Hal & Hlb & Htl);
    [split; [lia|]; transitivity (2 ^ 32)%Z; [assumption|reflexivity]|].
  rewrite Nat2Z.id in Hal, Hlb.
  assert (Hfill := fill_all env outputDir images n Hconv
                     (Forall_impl _ _ _ (sort_images files) image_nonempty) n 0%nat eq_refl).
  rewrite slots_after_none in Hfill.
  change (take 0 (moves outputDir images)) with (@nil (string * string)) in Hfill.
  exists {| results := slots_after outputDir (clock env) images n n;
            written := [];
            converted := take n (moves outputDir images) |}.
  split.
  { unfold handleZipDownload, collect_images. rewrite Hbulk.
    destruct (List.filter isImageFile files) as [|f fs] eqn:Ef; [contradiction|].
    rewrite Htl. replace (2 ^ 32 <=? Z.of_nat n)%Z with false
      by (symmetry; apply Z.leb_gt; assumption).
    rewrite Hal, Hlb. fold images. rewrite Hfill. reflexivity. }
  cbn [results converted].
  split; [apply slots_after_length|]. split; [reflexivity|].
  split.
  { intros i Hi. rewrite slots_after_lookup by assumption.
    replace (i <? n)%nat with true by (symmetry; apply Nat.ltb_lt; assumption).
    rewrite Hlen. reflexivity. }
  split; [rewrite successCount_slots_after, Hlen; reflexivity|].
  intros H5 Hn5. rewrite successCount_slots_after, Hlen, H5. lia.
Qed.

Lemma zip_images_fill_slots_in_order_witness :
  exists h : Handled,
    handleZipDownload five_and_two "out" (Num (of_Z (Z.of_nat 6))) = Returned h
    /\ successCount (results h) = 5%Z.
Proof.
  destruct (zip_images_fill_slots_in_order five_and_two "out"
              ["out/unzipped/c.png"; "out/unzipped/readme.txt";
               "out/unzipped/a.png"; "out/unzipped/e.webp";
               "out/unzipped/b.JPG"; "out/unzipped/meta.json";
               "out/unzipped/d.jpeg"]%string 6%nat)
    as (_ & _ & _ & h & Hh & _ & _ & _ & _ & H5).
  - left. reflexivity.
  - vm_compute. discriminate.
  - intros f. reflexivity.
  - vm_compute. reflexivity.
  - exists h. split; [exact Hh|]. apply H5; [vm_compute; reflexivity|lia].
Defined.

(** C5 as stated fails: the same archive of five images and two other
    entries populates three slots when three are expected and none when no
    count is given; and when only the per-entry fallback can read an
    archive, the first image of its listing, [b.png], is the one moved to
    the first slot although [a.png] sorts before it. *)
Lemma zip_five_images_not_five_slots :
  populated (handleZipDownload five_and_two "out" (Num (of_Z 3))) = 3%Z
  /\ populated (handleZipDownload five_and_two "out" (Num (of_Z 3))) <> 5%Z
  /\ populated (handleZipDownload five_and_two "out" Undefined) = 0%Z
  /\ exists h : Handled,
       handleZipDownload raw_only "out" (Num (of_Z 2)) = Returned h
       /\ written h = [("b.png", "out/unzipped/entry_1.png");
                       ("a.png", "out/unzipped/entry_2.png")]%string
       /\ converted h !! 0%nat = Some ("out/unzipped/entry_1.png", "out/001.png")%string.
Proof.
  split; [vm_compute; reflexivity|].
  split; [vm_compute; discriminate|].
  split; [vm_compute; reflexivity|].
  eexists. split; [vm_compute; reflexivity|]. split; reflexivity.
Qed.

End ZipFacts.

Module DirectFacts.
Import JS Direct JSFacts SlotFacts.

Lemma stretch_ok_refl p clock abort st e :
  match e with
  | Awaiting _ => False
  | Exited => True
  | Aborted reason => abort = Some reason
  end ->
  stretch_ok p clock abort st e st.
Proof.
  intros H. split; try reflexivity; try lia; [left; reflexivity|].
  destruct e; [reflexivity|contradiction|split; [reflexivity|assumption]].
Qed.

Lemma stretch_ok_bump p clock abort st e c' :
  (cursor st <= c')%nat ->
  match e with
  | Exited => True
  | _ => False
  end ->
  stretch_ok p clock abort st e
    {| cursor := c'; successes := successes st; results := results st;
       files := files st; fetched := fetched st |}.
Proof.
  intros Hc H. split; cbn; try reflexivity; try lia; [left; reflexivity|].
  destruct e; [reflexivity|contradiction|contradiction].
Qed.

Lemma worker_ok (p : Params) (clock : Z) (abort : option string) (fuel : nat) :
  forall st : State,
    length (results st) = count p ->
    stretch_ok p clock abort st (fst (worker p fuel clock abort st))
      (snd (worker p fuel clock abort st)).
Proof.
  induction fuel as [|fuel IH]; intros st Hlen; cbn [worker].
  { apply stretch_ok_refl. exact I. }
  destruct (deadline_passed p clock) eqn:Hdl.
  { apply stretch_ok_refl. exact I. }
  destruct abort as [reason|] eqn:Hab.
  { apply stretch_ok_refl. reflexivity. }
  destruct (stop_reached p st) eqn:Hstop.
  { apply stretch_ok_refl. exact I. }
  destruct (count p <=? cursor st)%nat eqn:Hcount.
  { cbn [fst snd]. apply stretch_ok_bump; [lia|exact I]. }
  apply Nat.leb_gt in Hcount.
  replace (stop_reached p {| cursor := S (cursor st); successes := successes st;
                             results := results st; files := files st;
                             fetched := fetched st |})
    with false by (rewrite <- Hstop; reflexivity).
  destruct (negb (Str.nonempty (url_at p (cursor st)))) eqn:Hurl.
  - apply negb_true_iff in Hurl. cbn [cursor successes results files fetched].
    set (st1 := {| cursor := S (cursor st); successes := successes st;
                   results := array_set (cursor st) (SlotFail missing_url) (results st);
                   files := files st; fetched := fetched st |}).
    assert (Hlen1 : length (results st1) = count p).
    { cbn. rewrite array_set_in_range by lia. rewrite length_insert. assumption. }
    specialize (IH st1 Hlen1).
    destruct (worker p fuel clock None st1) as [e st']. cbn [fst snd] in *.
    destruct IH as [Hf Hc Hl Hs Hsu He]. subst st1.
    cbn [cursor successes results files fetched] in *.
    split.
    + assumption.
    + lia.
    + rewrite Hl, array_set_in_range, length_insert by lia. reflexivity.
    + intros i. destruct (Hs i) as [Heq | (Hr & Hi & Hcase)].
      * rewrite Heq, array_set_in_range by lia.
        destruct (decide (i = cursor st)) as [->|Hne].
        -- right. split; [lia|]. split; [assumption|]. left. split; [assumption|].
           apply list_lookup_insert_eq. lia.
        -- left. apply list_lookup_insert_ne. congruence.
      * right. split; [lia|]. split; [assumption|]. exact Hcase.
    + assumption.
    + destruct e as [|i|r]; try assumption.
      destruct He as (H1 & H2 & H3 & H4 & H5). repeat split; try assumption; lia.
  - apply negb_false_iff in Hurl. cbn [cursor successes results files fetched].
    destruct (bool_decide (targetPath (outputDir p) (cursor st) ∈ files st)) eqn:Hex.
    + apply bool_decide_eq_true in Hex.
      set (st1 := {| cursor := S (cursor st); successes := (successes st + 1)%Z;
                     results := array_set (cursor st)
                                  (SlotOk (targetPath (outputDir p) (cursor st)) clock)
                                  (results st);
                     files := files st; fetched := fetched st |}).
      assert (Hlen1 : length (results st1) = count p).
      { cbn. rewrite array_set_in_range by lia. rewrite length_insert. assumption. }
      specialize (IH st1 Hlen1).
      destruct (worker p fuel clock None st1) as [e st']. cbn [fst snd] in *.
      destruct IH as [Hf Hc Hl Hs Hsu He]. subst st1.
    cbn [cursor successes results files fetched] in *.
      split.
      * assumption.
      * lia.
      * rewrite Hl, array_set_in_range, length_insert by lia. reflexivity.
      * intros i. destruct (Hs i) as [Heq | (Hr & Hi & Hcase)].
        -- rewrite Heq, array_set_in_range by lia.
           destruct (decide (i = cursor st)) as [->|Hne].
           ++ right. split; [lia|]. split; [assumption|]. right.
              split; [assumption|]. split; [assumption|].
              apply list_lookup_insert_eq. lia.
           ++ left. apply list_lookup_insert_ne. congruence.
        -- right. split; [lia|]. split; [assumption|]. exact Hcase.
      * lia.
      * destruct e as [|i|r]; try assumption.
        destruct He as (H1 & H2 & H3 & H4 & H5). repeat split; try assumption; lia.
    + apply bool_decide_eq_false in Hex. cbn [fst snd].
      split; cbn; try reflexivity; try lia; [left; reflexivity|].
      repeat split; try assumption; lia.
Qed.

Lemma pool_inv_stretch p disk clock abort st e st' :
  pool_inv p disk st -> stretch_ok p clock abort st e st' -> pool_inv p disk st'.
Proof.
  intros [Hl Hd Hm Hf Hp] [Sf Sc Sl Ss Ssu Se]. split.
  - rewrite Sl. assumption.
  - rewrite Sf. assumption.
  - intros i Hi Hu. destruct (Ss i) as [-> | (_ & _ & [[_ H] | [Hu' _]])].
    + apply Hm; assumption.
    + assumption.
    + congruence.
  - intros i Hi.
    assert (Hcases : i ∈ fetched st \/ e = Awaiting i).
    { destruct e as [|j|r].
      - left. rewrite <- Se. assumption.
      - destruct Se as (Se & _). rewrite Se in Hi. apply elem_of_app in Hi as [Hi|Hi].
        + left. assumption.
        + right. apply list_elem_of_singleton in Hi. congruence.
      - destruct Se as (Se & _). left. rewrite <- Se. assumption. }
    destruct Hcases as [Hold | ->]; [apply Hf; assumption|].
    destruct Se as (_ & Hlt & _ & Hu & Hnot). repeat split; try assumption.
    intros Hin. apply Hnot. apply Hd. assumption.
  - intros i Hi Hin. destruct (Ss i) as [-> | (_ & _ & [[_ H] | (_ & _ & H)])].
    + apply Hp; assumption.
    + left. assumption.
    + right. eauto.
Qed.

Lemma pool_inv_worker p disk clock abort fuel st :
  pool_inv p disk st ->
  pool_inv p disk (snd (worker p fuel clock abort st))
  /\ stretch_ok p clock abort st (fst (worker p fuel clock abort st))
       (snd (worker p fuel clock abort st)).
Proof.
  intros H. pose proof (worker_ok p clock abort fuel st (pi_length _ _ _ H)) as Hs.
  split; [eapply pool_inv_stretch; eassumption | assumption].
Qed.

Lemma resume_unfold p index saved clock abort st :
  resume p index saved clock abort st
  = worker p (enough_fuel p (settled p index saved clock st)) clock abort
      (settled p index saved clock st).
Proof. unfold resume, settled. destruct saved; reflexivity. Qed.

Lemma pool_inv_settled p disk index saved clock st :
  pool_inv p disk st -> index ∈ fetched st ->
  pool_inv p disk (settled p index saved clock st)
  /\ cursor (settled p index saved clock st) = cursor st
  /\ fetched (settled p index saved clock st) = fetched st.
Proof.
  intros [Hl Hd Hm Hf Hp] Hin. destruct (Hf index Hin) as (Hnot & Hu & Hlt).
  split; [|destruct saved; split; reflexivity].
  unfold settled. destruct saved; split; cbn [results files fetched cursor].
  - rewrite array_set_in_range, length_insert by lia. assumption.
  - set_solver.
  - intros i Hi Hiu. rewrite array_set_in_range by lia.
    rewrite list_lookup_insert_ne by congruence. apply Hm; assumption.
  - assumption.
  - intros i Hi Hid. rewrite array_set_in_range by lia.
    rewrite list_lookup_insert_ne by (intros ->; contradiction). apply Hp; assumption.
  - rewrite array_set_in_range, length_insert by lia. assumption.
  - assumption.
  - intros i Hi Hiu. rewrite array_set_in_range by lia.
    rewrite list_lookup_insert_ne by congruence. apply Hm; assumption.
  - assumption.
  - intros i Hi Hid. rewrite array_set_in_range by lia.
    rewrite list_lookup_insert_ne by (intros ->; contradiction). apply Hp; assumption.
Qed.

Lemma pending_pick (pending : list nat) (first k : nat) (st : State) :
  pending <> [] -> first ∈ pending ->
  (forall i, i ∈ pending -> i ∈ fetched st) ->
  nth (k mod length pending) pending first ∈ fetched st
  /\ length (delete (k mod length pending) pending) = pred (length pending)
  /\ (forall i, i ∈ delete (k mod length pending) pending -> i ∈ pending).
Proof.
  intros Hne Hfirst Hall.
  assert (Hlen : (0 < length pending)%nat) by (destruct pending; [contradiction|cbn; lia]).
  assert (Hk : (k mod length pending < length pending)%nat) by (apply Nat.mod_upper_bound; lia).
  split; [|split].
  - apply Hall. rewrite nth_lookup.
    destruct (lookup_lt_is_Some_2 pending _ Hk) as [x Hx]. rewrite Hx. cbn.
    apply list_elem_of_lookup. eauto.
  - rewrite length_delete; [lia|]. apply lookup_lt_is_Some_2. assumption.
  - intros i Hi. eapply list_elem_of_delete_inv. exact Hi.
Qed.

Lemma fetched_grows p clock abort st e st' :
  stretch_ok p clock abort st e st' -> forall i, i ∈ fetched st -> i ∈ fetched st'.
Proof.
  intros [_ _ _ _ _ Se] i Hi. destruct e as [|j|r].
  - rewrite Se. assumption.
  - destruct Se as (-> & _). apply elem_of_app. left. assumption.
  - destruct Se as (-> & _). assumption.
Qed.

Lemma settle_inv (p : Params) (disk : gset string) (events : list Completion) :
  forall (pending : list nat) (st : State),
    pool_inv p disk st ->
    (forall i, i ∈ pending -> i ∈ fetched st) ->
    pool_inv p disk (snd (settle p pending st events))
    /\ (forall rs, fst (settle p pending st events) = Returned rs ->
          rs = results (snd (settle p pending st events))).
Proof.
  induction events as [|ev rest IH]; intros pending st Hinv Hpend.
  - destruct pending; cbn; (split; [assumption|]); intros rs H; congruence.
  - destruct pending as [|first more].
    { cbn. split; [assumption|]. intros rs H. congruence. }
    cbn [settle]. set (pending := first :: more) in *.
    assert (Hne : pending <> []) by discriminate.
    assert (Hfirst : first ∈ pending) by apply list_elem_of_here.
    destruct (pending_pick pending first (which ev) st Hne Hfirst Hpend)
      as (Hpick & Hdel & Hsub).
    set (k := (which ev mod length pending)%nat) in *.
    set (index := nth k pending first) in *.
    rewrite resume_unfold.
    destruct (pool_inv_settled p disk index (saved ev) (clock ev) st Hinv Hpick)
      as (Hinv1 & Hcur1 & Hfet1).
    destruct (pool_inv_worker p disk (clock ev) (abort ev)
                (enough_fuel p (settled p index (saved ev) (clock ev) st))
                (settled p index (saved ev) (clock ev) st) Hinv1) as (Hinv2 & Hst).
    destruct (worker p _ (clock ev) (abort ev) (settled p index (saved ev) (clock ev) st))
      as [e st2]. cbn [fst snd] in *.
    assert (Hkeep : forall i, i ∈ delete k pending -> i ∈ fetched st2).
    { intros i Hi. eapply fetched_grows; [exact Hst|]. rewrite Hfet1. apply Hpend, Hsub, Hi. }
    destruct e as [|i|r].
    + apply IH; assumption.
    + apply IH; [assumption|]. intros j Hj. apply elem_of_app in Hj as [Hj|Hj].
      * apply Hkeep, Hj.
      * apply list_elem_of_singleton in Hj as ->.
        destruct Hst as [_ _ _ _ _ (-> & _)]. apply elem_of_app. right.
        apply list_elem_of_here.
    + cbn. split; [assumption|]. intros rs H. discriminate.
Qed.

Lemma settle_returns (p : Params) (disk : gset string) (events : list Completion) :
  forall (pending : list nat) (st : State),
    pool_inv p disk st ->
    (forall i, i ∈ pending -> i ∈ fetched st) ->
    Forall (fun ev => abort ev = None) events ->
    (count p - cursor st + length pending <= length events)%nat ->
    exists rs, fst (settle p pending st events) = Returned rs.
Proof.
  induction events as [|ev rest IH]; intros pending st Hinv Hpend Hab Hlen.
  - destruct pending; [cbn; eauto | cbn in Hlen; lia].
  - destruct pending as [|first more]; [cbn; eauto|].
    cbn [settle]. set (pending := first :: more) in *.
    assert (Hne : pending <> []) by discriminate.
    assert (Hfirst : first ∈ pending) by apply list_elem_of_here.
    destruct (pending_pick pending first (which ev) st Hne Hfirst Hpend)
      as (Hpick & Hdel & Hsub).
    set (k := (which ev mod length pending)%nat) in *.
    set (index := nth k pending first) in *.
    rewrite resume_unfold.
    destruct (pool_inv_settled p disk index (saved ev) (clock ev) st Hinv Hpick)
      as (Hinv1 & Hcur1 & Hfet1).
    destruct (pool_inv_worker p disk (clock ev) (abort ev)
                (enough_fuel p (settled p index (saved ev) (clock ev) st))
                (settled p index (saved ev) (clock ev) st) Hinv1) as (Hinv2 & Hst).
    destruct (worker p _ (clock ev) (abort ev) (settled p index (saved ev) (clock ev) st))
      as [e st2]. cbn [fst snd] in *.
    assert (Hkeep : forall i, i ∈ delete k pending -> i ∈ fetched st2).
    { intros i Hi. eapply fetched_grows; [exact Hst|]. rewrite Hfet1. apply Hpend, Hsub, Hi. }
    apply Forall_cons in Hab as [Hev Hab].
    assert (Hpos : (0 < length pending)%nat) by (cbn; lia).
    cbn [length] in Hlen. fold (length pending) in Hlen.
    destruct Hst as [_ Sc _ _ _ Se]. rewrite Hcur1 in Sc.
    destruct e as [|i|r].
    + apply IH; try assumption. rewrite Hdel. lia.
    + apply IH; try assumption.
      * intros j Hj. apply elem_of_app in Hj as [Hj|Hj]; [apply Hkeep, Hj|].
        apply list_elem_of_singleton in Hj as ->. destruct Se as (-> & _).
        apply elem_of_app. right. apply list_elem_of_here.
      * rewrite length_app, Hdel. cbn [length].
        destruct Se as (_ & Hi & Hr & _). rewrite Hcur1 in Hr. lia.
    + destruct Se as (_ & Hr). congruence.
Qed.

Lemma start_inv (p : Params) (disk : gset string) (clock : Z) (abort : option string)
    (workers : nat) :
  forall (pending : list nat) (st : State),
    pool_inv p disk st ->
    (forall i, i ∈ pending -> i ∈ fetched st) ->
    (length pending + (count p - cursor st) <= count p)%nat ->
    let '(a, pending', st') := start p workers clock abort pending st in
    pool_inv p disk st'
    /\ (forall i, i ∈ pending' -> i ∈ fetched st')
    /\ (length pending' + (count p - cursor st') <= count p)%nat
    /\ (abort = None -> a = None).
Proof.
  induction workers as [|n IH]; intros pending st Hinv Hpend Hm; cbn [start].
  { split; [assumption|]. split; [assumption|]. split; [assumption|reflexivity]. }
  destruct (pool_inv_worker p disk clock abort (enough_fuel p st) st Hinv) as (Hinv1 & Hst).
  destruct (worker p (enough_fuel p st) clock abort st) as [e st1]. cbn [fst snd] in *.
  pose proof (fetched_grows _ _ _ _ _ _ Hst) as Hgrow.
  destruct Hst as [_ Sc _ _ _ Se].
  destruct e as [|i|r].
  - apply IH; [assumption| |lia]. intros j Hj. apply Hgrow, Hpend, Hj.
  - apply IH; [assumption| |].
    + intros j Hj. apply elem_of_app in Hj as [Hj|Hj]; [apply Hgrow, Hpend, Hj|].
      apply list_elem_of_singleton in Hj as ->. destruct Se as (-> & _).
      apply elem_of_app. right. apply list_elem_of_here.
    + rewrite length_app. cbn [length]. destruct Se as (_ & Hi & Hr & _). lia.
  - specialize (IH pending st1 Hinv1 ltac:(intros j Hj; apply Hgrow, Hpend, Hj) ltac:(lia)).
    destruct (start p n clock abort pending st1) as [[a pending'] st'].
    destruct IH as (H1 & H2 & H3 & _).
    split; [assumption|]. split; [assumption|]. split; [assumption|].
    destruct Se as (_ & Hr). intros Hn. congruence.
Qed.

Lemma replicate_lookup_missing (n i : nat) :
  (i < n)%nat -> replicate n (SlotFail missing_url) !! i = Some (SlotFail missing_url).
Proof. intros H. apply lookup_replicate_2. assumption. Qed.

Lemma pool_inv_initial (p : Params) (disk : gset string) :
  pool_inv p disk {| cursor := 0; successes := 0;
                     results := replicate (count p) (SlotFail missing_url);
                     files := disk; fetched := [] |}.
Proof.
  split; cbn.
  - apply length_replicate.
  - reflexivity.
  - intros i Hi _. apply replicate_lookup_missing, Hi.
  - intros i Hi. apply elem_of_nil in Hi. contradiction.
  - intros i Hi _. left. apply replicate_lookup_missing, Hi.
Qed.

Lemma nonempty_false (s : string) : Str.nonempty s = false <-> s = EmptyString.
Proof. destruct s; cbn; split; congruence. Qed.

(** What a call that returns has returned: the state it ended in satisfies
    the invariant and the array is the one it holds. *)
Lemma download_returns_inv (p : Params) (now : Z) (abortAtStart : option string)
    (disk : gset string) (events : list Completion) (rs : list Slot) :
  fst (downloadImagesWithConcurrency p now abortAtStart disk events) = Returned rs ->
  pool_inv p disk (snd (downloadImagesWithConcurrency p now abortAtStart disk events))
  /\ rs = results (snd (downloadImagesWithConcurrency p now abortAtStart disk events)).
Proof.
  unfold downloadImagesWithConcurrency.
  destruct (2 ^ 32 <=? Z.of_nat (count p))%Z; [discriminate|].
  pose proof (pool_inv_initial p disk) as Hinit.
  destruct (count p =? 0)%nat.
  { cbn. intros [= <-]. split; [assumption|reflexivity]. }
  pose proof (start_inv p disk now abortAtStart (limit p) [] _ Hinit
                ltac:(intros i Hi; apply elem_of_nil in Hi; contradiction)
                ltac:(cbn; lia)) as Hstart.
  destruct (start p (limit p) now abortAtStart [] _) as [[a pending] st].
  destruct Hstart as (Hinv & Hpend & _ & _).
  destruct a; [discriminate|].
  intros H. destruct (settle_inv p disk events pending st Hinv Hpend) as (H1 & H2).
  split; [assumption|]. apply H2, H.
Qed.

(** C10. [downloadImagesWithConcurrency] returns an array of exactly
    [max(0, floor(expectedCount))] slots, zero for a count that is not
    finite, however many URLs it is given and however the fetches are
    scheduled; every index without a URL holds the failure
    [缺少图片链接]; a count of zero returns the empty array at once and
    fetches nothing; and the call does return, given a completion for
    every fetch, unless the task is aborted or the array cannot be
    allocated. *)
Theorem direct_download_array (p : Params) (now : Z) (abortAtStart : option string)
    (disk : gset string) (events : list Completion) :
  (Number_isFinite (expectedCount p) = false -> count p = 0%nat)
  /\ (Number_isFinite (expectedCount p) = true ->
      Z.of_nat (count p) = Z.max 0 (Math_floor (expectedCount p)))
  /\ (forall z, (0 <= z < 2 ^ 48)%Z -> expectedCount p = Num (of_Z z) ->
        count p = Z.to_nat z)
  /\ (forall rs,
        fst (downloadImagesWithConcurrency p now abortAtStart disk events) = Returned rs ->
        length rs = count p
        /\ (forall i, (i < count p)%nat -> url_at p i = EmptyString ->
              rs !! i = Some (SlotFail missing_url))
        /\ (forall i, (length (urls p) <= i < count p)%nat ->
              rs !! i = Some (SlotFail missing_url)))
  /\ (count p = 0%nat ->
      fst (downloadImagesWithConcurrency p now abortAtStart disk events) = Returned []
      /\ fetched (snd (downloadImagesWithConcurrency p now abortAtStart disk events)) = [])
  /\ (abortAtStart = None ->
      Forall (fun ev => abort ev = None) events ->
      (count p <= length events)%nat ->
      (Z.of_nat (count p) < 2 ^ 32)%Z ->
      exists rs,
        fst (downloadImagesWithConcurrency p now abortAtStart disk events) = Returned rs).
Proof.
  split; [intros H; unfold count; rewrite H; reflexivity|].
  split; [intros H; unfold count; rewrite H; lia|].
  split.
  { intros z Hz Hexp. unfold count. rewrite Hexp.
    destruct (of_Z_reads z Hz) as (H1 & H2 & _). rewrite H1, H2. lia. }
  split; [|split].
  - intros rs H. destruct (download_returns_inv p now abortAtStart disk events rs H)
      as ([Hl _ Hm _ _] & ->).
    split; [assumption|]. split.
    + intros i Hi Hu. apply Hm; [assumption|]. apply nonempty_false. assumption.
    + intros i Hi. apply Hm; [lia|]. apply nonempty_false.
      unfold url_at. apply nth_overflow. lia.
  - intros H0. unfold downloadImagesWithConcurrency. rewrite H0. cbn. split; reflexivity.
  - intros Hab Hev Hlen Hsmall. unfold downloadImagesWithConcurrency.
    replace (2 ^ 32 <=? Z.of_nat (count p))%Z with false
      by (symmetry; apply Z.leb_gt; assumption).
    destruct (count p =? 0)%nat; [cbn; eauto|].
    pose proof (start_inv p disk now abortAtStart (limit p) [] _ (pool_inv_initial p disk)
                  ltac:(intros i Hi; apply elem_of_nil in Hi; contradiction)
                  ltac:(cbn; lia)) as Hstart.
    destruct (start p (limit p) now abortAtStart [] _) as [[a pending] st].
    destruct Hstart as (Hinv & Hpend & Hm & Ha).
    rewrite (Ha Hab).
    apply (settle_returns p disk events pending st Hinv Hpend Hev). lia.
Qed.

Lemma direct_download_array_witness :
  exists rs,
    fst (downloadImagesWithConcurrency example_params 0 None ∅ example_schedule)
      = Returned rs
    /\ length rs = 3%nat
    /\ rs !! 2%nat = Some (SlotFail missing_url).
Proof.
  destruct (direct_download_array example_params 0 None ∅ example_schedule)
    as (_ & _ & _ & Hret & _ & Hterm).
  destruct Hterm as [rs Hrs].
  - reflexivity.
  - repeat constructor.
  - vm_compute. lia.
  - vm_compute. reflexivity.
  - exists rs. split; [exact Hrs|]. destruct (Hret rs Hrs) as (Hl & Hm & _).
    split; [exact Hl|]. apply Hm; [vm_compute; lia|reflexivity].
Defined.

Lemma no_await_when_present p disk clock abort st e st' :
  all_present p disk -> pool_inv p disk st ->
  stretch_ok p clock abort st e st' ->
  match e with Awaiting _ => False | _ => True end.
Proof.
  intros Hall [_ Hd _ _ _] [_ _ _ _ _ Se]. destruct e as [|i|r]; try exact I.
  destruct Se as (_ & Hi & _ & _ & Hnot). apply Hnot, Hd, Hall, Hi.
Qed.

Lemma start_no_fetch (p : Params) (disk : gset string) (clock : Z)
    (abort : option string) (workers : nat) :
  all_present p disk ->
  forall st : State,
    pool_inv p disk st ->
    let '(a, pending', st') := start p workers clock abort [] st in
    pending' = [] /\ pool_inv p disk st' /\ fetched st' = fetched st
    /\ (abort = None -> a = None).
Proof.
  intros Hall. induction workers as [|n IH]; intros st Hinv; cbn [start].
  { split; [reflexivity|]. split; [assumption|]. split; reflexivity. }
  destruct (pool_inv_worker p disk clock abort (enough_fuel p st) st Hinv) as (Hinv1 & Hst).
  pose proof (no_await_when_present p disk clock abort st _ _ Hall Hinv Hst) as Hno.
  destruct (worker p (enough_fuel p st) clock abort st) as [e st1]. cbn [fst snd] in *.
  destruct Hst as [_ _ _ _ _ Se].
  destruct e as [|i|r]; [|contradiction|].
  - specialize (IH st1 Hinv1). destruct (start p n clock abort [] st1) as [[a pending'] st'].
    destruct IH as (H1 & H2 & H3 & H4).
    split; [assumption|]. split; [assumption|]. split; [congruence|assumption].
  - specialize (IH st1 Hinv1). destruct (start p n clock abort [] st1) as [[a pending'] st'].
    destruct IH as (H1 & H2 & H3 & _). destruct Se as (Se & Hr).
    split; [assumption|]. split; [assumption|]. split; [rewrite H3, Se; reflexivity|].
    intros Hn. congruence.
Qed.

(** With nothing to stop it, a stretch settles every index left from the
    files on disk. *)
Lemma worker_sweep (p : Params) (clock : Z) (fuel : nat) :
  deadline_passed p clock = false ->
  stopAt p = 0%Z ->
  forall st : State,
    length (results st) = count p ->
    (forall i, (cursor st <= i < count p)%nat ->
       Str.nonempty (url_at p i) = true /\ targetPath (outputDir p) i ∈ files st) ->
    (count p - cursor st < fuel)%nat ->
    fst (worker p fuel clock None st) = Exited
    /\ (forall i, (cursor st <= i < count p)%nat ->
          results (snd (worker p fuel clock None st)) !! i
          = Some (SlotOk (targetPath (outputDir p) i) clock))
    /\ (forall i, (i < cursor st)%nat ->
          results (snd (worker p fuel clock None st)) !! i = results st !! i).
Proof.
  intros Hdl Hstop. induction fuel as [|fuel IH]; intros st Hlen Hall Hfuel; [lia|].
  cbn [worker]. rewrite Hdl.
  assert (Hsr : forall s, stop_reached p s = false)
    by (intros s; unfold stop_reached; rewrite Hstop; reflexivity).
  rewrite !Hsr.
  destruct (count p <=? cursor st)%nat eqn:Hc.
  { apply Nat.leb_le in Hc. cbn. split; [reflexivity|]. split; [intros i Hi; lia|reflexivity]. }
  apply Nat.leb_gt in Hc.
  destruct (Hall (cursor st) ltac:(lia)) as (Hu & Hf).
  cbn [cursor successes results files fetched]. rewrite Hu. cbn [negb].
  rewrite bool_decide_eq_true_2 by assumption.
  set (st1 := {| cursor := S (cursor st); successes := (successes st + 1)%Z;
                 results := array_set (cursor st)
                              (SlotOk (targetPath (outputDir p) (cursor st)) clock)
                              (results st);
                 files := files st; fetched := fetched st |}).
  assert (Hlen1 : length (results st1) = count p).
  { cbn. rewrite array_set_in_range by lia. rewrite length_insert. assumption. }
  destruct (IH st1 Hlen1) as (He & Hnew & Hold).
  { intros i Hi. cbn in Hi. apply Hall. lia. }
  { cbn. lia. }
  split; [assumption|]. split.
  - intros i Hi. destruct (decide (i = cursor st)) as [->|Hne].
    + rewrite Hold by (cbn; lia). cbn. rewrite array_set_in_range by lia.
      apply list_lookup_insert_eq. lia.
    + apply Hnew. cbn. lia.
  - intros i Hi. rewrite Hold by (cbn; lia). cbn. rewrite array_set_in_range by lia.
    apply list_lookup_insert_ne. lia.
Qed.

Lemma start_keeps_done (p : Params) (disk : gset string) (clock : Z) (workers : nat) :
  forall st : State,
    pool_inv p disk st -> (count p <= cursor st)%nat ->
    forall i, results (snd (start p workers clock None [] st)) !! i = results st !! i.
Proof.
  induction workers as [|n IH]; intros st Hinv Hc i; [reflexivity|].
  cbn [start].
  destruct (pool_inv_worker p disk clock None (enough_fuel p st) st Hinv) as (Hinv1 & Hst).
  destruct (worker p (enough_fuel p st) clock None st) as [e st1]. cbn [fst snd] in *.
  destruct Hst as [_ Sc _ Ss _ Se].
  assert (Hsame : results st1 !! i = results st !! i).
  { destruct (Ss i) as [H | (Hr & Hi & _)]; [assumption|lia]. }
  destruct e as [|j|r].
  - rewrite IH by (assumption || lia). assumption.
  - destruct Se as (_ & Hj & Hr & _). lia.
  - destruct Se as (_ & Hr). discriminate.
Qed.

Lemma limit_positive (p : Params) : exists n, limit p = S n.
Proof.
  unfold limit. destruct (concurrency p) as [c|]; [|eauto].
  exists (pred (Z.to_nat (Z.max 1 (Z.min 8 c)))). lia.
Qed.

Lemma download_fetched_absent (p : Params) (now : Z) (abortAtStart : option string)
    (disk : gset string) (events : list Completion) :
  forall i, i ∈ fetched (snd (downloadImagesWithConcurrency p now abortAtStart disk events)) ->
    targetPath (outputDir p) i ∉ disk.
Proof.
  unfold downloadImagesWithConcurrency.
  destruct (2 ^ 32 <=? Z.of_nat (count p))%Z.
  { cbn. intros i Hi. apply elem_of_nil in Hi. contradiction. }
  pose proof (pool_inv_initial p disk) as Hinit.
  destruct (count p =? 0)%nat.
  { cbn. intros i Hi. apply elem_of_nil in Hi. contradiction. }
  pose proof (start_inv p disk now abortAtStart (limit p) [] _ Hinit
                ltac:(intros i Hi; apply elem_of_nil in Hi; contradiction)
                ltac:(cbn; lia)) as Hstart.
  destruct (start p (limit p) now abortAtStart [] _) as [[a pending] st].
  destruct Hstart as (Hinv & Hpend & _ & _).
  destruct a as [reason|].
  - cbn. intros i Hi. apply (pi_fetched _ _ _ Hinv i Hi).
  - destruct (settle_inv p disk events pending st Hinv Hpend) as (H1 & _).
    intros i Hi. apply (pi_fetched _ _ _ H1 i Hi).
Qed.

Lemma download_all_present (p : Params) (now : Z) (abortAtStart : option string)
    (disk : gset string) (events : list Completion) :
  all_present p disk ->
  fetched (snd (downloadImagesWithConcurrency p now abortAtStart disk events)) = []
  /\ (abortAtStart = None -> (Z.of_nat (count p) < 2 ^ 32)%Z ->
      exists rs, fst (downloadImagesWithConcurrency p now abortAtStart disk events)
                 = Returned rs).
Proof.
  intros Hall. unfold downloadImagesWithConcurrency.
  destruct (2 ^ 32 <=? Z.of_nat (count p))%Z eqn:Hbig.
  { cbn. split; [reflexivity|]. intros _ Hlt. apply Z.leb_le in Hbig. lia. }
  pose proof (pool_inv_initial p disk) as Hinit.
  destruct (count p =? 0)%nat.
  { cbn. split; [reflexivity|]. eauto. }
  pose proof (start_no_fetch p disk now abortAtStart (limit p) Hall _ Hinit) as Hstart.
  destruct (start p (limit p) now abortAtStart [] _) as [[a pending] st].
  destruct Hstart as (-> & Hinv & Hf & Ha). cbn in Hf.
  destruct a as [reason|].
  - cbn. split; [assumption|]. intros Hn. specialize (Ha Hn). discriminate.
  - destruct events; cbn; (split; [assumption|eauto]).
Qed.

Lemma download_sweep (p : Params) (now : Z) (disk : gset string)
    (events : list Completion) :
  all_present p disk ->
  (Z.of_nat (count p) < 2 ^ 32)%Z ->
  stopAt p = 0%Z ->
  deadline_passed p now = false ->
  (forall i, (i < count p)%nat -> Str.nonempty (url_at p i) = true) ->
  exists rs, fst (downloadImagesWithConcurrency p now None disk events) = Returned rs
    /\ length rs = count p
    /\ forall i, (i < count p)%nat ->
         rs !! i = Some (SlotOk (targetPath (outputDir p) i) now).
Proof.
  intros Hall Hlt Hstop Hdl Hurls.
  destruct (download_all_present p now None disk events Hall) as (_ & Hret).
  destruct (Hret eq_refl Hlt) as (rs & Hrs). exists rs. split; [assumption|].
  destruct (download_returns_inv p now None disk events rs Hrs) as (Hinv & ->).
  split; [apply (pi_length _ _ _ Hinv)|].
  clear Hinv Hrs Hret. unfold downloadImagesWithConcurrency.
  destruct (2 ^ 32 <=? Z.of_nat (count p))%Z eqn:Hbig; [apply Z.leb_le in Hbig; lia|].
  destruct (count p =? 0)%nat eqn:Hz.
  { apply Nat.eqb_eq in Hz. intros i Hi. lia. }
  pose proof (pool_inv_initial p disk) as Hinit.
  set (st0 := {| cursor := 0; successes := 0;
                 results := replicate (count p) (SlotFail missing_url);
                 files := disk; fetched := [] |}) in *.
  destruct (limit_positive p) as (n & ->). cbn [start].
  destruct (worker_sweep p now (enough_fuel p st0) Hdl Hstop st0 (pi_length _ _ _ Hinit))
    as (He & Hnew & _).
  { intros i Hi. split; [apply Hurls; lia | apply Hall; lia]. }
  { unfold enough_fuel. cbn. lia. }
  destruct (pool_inv_worker p disk now None (enough_fuel p st0) st0 Hinit) as (Hinv1 & Hst).
  destruct (worker p (enough_fuel p st0) now None st0) as [e st1]. cbn [fst snd] in *.
  subst e.
  pose proof (start_no_fetch p disk now None n Hall st1 Hinv1) as Hsn.
  pose proof (start_keeps_done p disk now n st1 Hinv1) as Hkeep.
  destruct (start p n now None [] st1) as [[a pending] st2].
  destruct Hsn as (-> & _ & _ & Ha). rewrite (Ha eq_refl).
  cbn [snd] in Hkeep.
  assert (Hres : results (snd (settle p [] st2 events)) = results st2)
    by (destruct events; reflexivity).
  rewrite Hres. intros i Hi. rewrite Hkeep; [apply Hnew; cbn; lia|].
  (* the first worker left its loop with the cursor at the end *)
  destruct Hst as [_ Sc _ Ss _ _].
  destruct (Nat.le_gt_cases (count p) (cursor st1)) as [Hc|Hc]; [assumption|exfalso].
  specialize (Hnew (cursor st1) ltac:(cbn; lia)).
  destruct (Ss (cursor st1)) as [Hs | (Hr & _)]; [|lia].
  rewrite Hs in Hnew. cbn in Hnew. rewrite replicate_lookup_missing in Hnew by assumption.
  discriminate.
Qed.

Lemma all_present_b_spec (p : Params) (disk : gset string) :
  all_present_b p disk = true -> all_present p disk.
Proof.
  unfold all_present_b, all_present. intros H i Hi.
  rewrite forallb_forall in H. specialize (H i).
  eapply bool_decide_eq_true_1. apply H. apply in_seq. lia.
Qed.

(** C6, as amended.  An index whose target file is on disk when the
    call starts is never fetched, and its slot in the returned array is
    either the success with that path or the initial failure
    [缺少图片链接], the latter when the index has no URL or the loop
    stopped before reaching it.  When every target file is on disk the
    call fetches nothing and returns without waiting for anything; and
    it reports every slot successful with its existing path when,
    besides, every slot has a URL, no stop count is in force and the
    deadline has not passed. *)
Theorem direct_download_rerun (p : Params) (now : Z) (abortAtStart : option string)
    (disk : gset string) (events : list Completion) :
  (forall i,
     i ∈ fetched (snd (downloadImagesWithConcurrency p now abortAtStart disk events)) ->
     targetPath (outputDir p) i ∉ disk)
  /\ (forall rs i,
        fst (downloadImagesWithConcurrency p now abortAtStart disk events) = Returned rs ->
        (i < count p)%nat -> targetPath (outputDir p) i ∈ disk ->
        rs !! i = Some (SlotFail missing_url)
        \/ exists t, rs !! i = Some (SlotOk (targetPath (outputDir p) i) t))
  /\ (all_present p disk ->
      fetched (snd (downloadImagesWithConcurrency p now abortAtStart disk events)) = []
      /\ (abortAtStart = None -> (Z.of_nat (count p) < 2 ^ 32)%Z ->
          exists rs,
            fst (downloadImagesWithConcurrency p now abortAtStart disk events) = Returned rs)
      /\ (abortAtStart = None -> (Z.of_nat (count p) < 2 ^ 32)%Z ->
          stopAt p = 0%Z -> deadline_passed p now = false ->
          (forall i, (i < count p)%nat -> Str.nonempty (url_at p i) = true) ->
          exists rs,
            fst (downloadImagesWithConcurrency p now abortAtStart disk events) = Returned rs
            /\ length rs = count p
            /\ forall i, (i < count p)%nat ->
                 rs !! i = Some (SlotOk (targetPath (outputDir p) i) now))).
Proof.
  split; [apply download_fetched_absent|]. split.
  - intros rs i Hrs Hi Hdisk.
    destruct (download_returns_inv p now abortAtStart disk events rs Hrs) as (Hinv & ->).
    apply (pi_present _ _ _ Hinv i Hi Hdisk).
  - intros Hall. destruct (download_all_present p now abortAtStart disk events Hall) as (Hf & Hr).
    split; [assumption|]. split; [assumption|].
    intros -> Hlt Hstop Hdl Hurls. apply download_sweep; assumption.
Qed.

Lemma direct_download_rerun_witness :
  all_present rerun_params full_disk
  /\ fetched (snd (downloadImagesWithConcurrency rerun_params 100 None full_disk [])) = []
  /\ exists rs,
       fst (downloadImagesWithConcurrency rerun_params 100 None full_disk []) = Returned rs
       /\ length rs = 3%nat
       /\ forall i, (i < 3)%nat -> rs !! i = Some (SlotOk (targetPath "out" i) 100).
Proof.
  assert (Hall : all_present rerun_params full_disk)
    by (apply all_present_b_spec; vm_compute; reflexivity).
  split; [exact Hall|].
  destruct (direct_download_rerun rerun_params 100 None full_disk []) as (_ & _ & H).
  destruct (H Hall) as (Hf & _ & Hok). split; [exact Hf|].
  apply Hok.
  - reflexivity.
  - vm_compute. reflexivity.
  - vm_compute. reflexivity.
  - vm_compute. reflexivity.
  - intros i Hi. change (count rerun_params) with 3%nat in Hi.
    destruct i as [|[|[|i]]]; [vm_compute; reflexivity ..|lia].
Defined.

(** C6 as stated fails.  With all three target files on disk, a call
    that has URLs for two of three slots reports the third slot failed
    although its file exists, and so does a call with all three URLs
    that stops at two successes; neither fetches anything. *)
Lemma rerun_reports_failed_slot :
  all_present_b example_params full_disk = true
  /\ downloadUntilExpected example_params = true
  /\ fst (downloadImagesWithConcurrency example_params 100 None full_disk [])
     = Returned [SlotOk "out/001.png" 100; SlotOk "out/002.png" 100; SlotFail missing_url]
  /\ fetched (snd (downloadImagesWithConcurrency example_params 100 None full_disk [])) = []
  /\ all_present_b short_circuit full_disk = true
  /\ forallb (fun i => Str.nonempty (url_at short_circuit i)) (seq 0 (count short_circuit)) = true
  /\ fst (downloadImagesWithConcurrency short_circuit 100 None full_disk [])
     = Returned [SlotOk "out/001.png" 100; SlotOk "out/002.png" 100; SlotFail missing_url].
Proof.
  repeat split; vm_compute; reflexivity.
Qed.

(** ** Every slot of the returned array says what became of it *)

Lemma stretch_wf p clock abort st e st' :
  stretch_ok p clock abort st e st' -> slots_wf (results st) -> slots_wf (results st').
Proof.
  intros [_ _ _ Ss _ _] Hwf. unfold slots_wf in *. rewrite Forall_lookup in *.
  intros i s Hs. destruct (Ss i) as [Heq | (_ & _ & [[_ H] | (_ & _ & H)])].
  - rewrite Heq in Hs. apply (Hwf i s Hs).
  - rewrite H in Hs. injection Hs as <-. reflexivity.
  - rewrite H in Hs. injection Hs as <-. apply targetPath_nonempty.
Qed.

Lemma settled_wf p disk index saved clock st :
  pool_inv p disk st -> index ∈ fetched st -> slots_wf (results st) ->
  slots_wf (results (settled p index saved clock st)).
Proof.
  intros [Hl _ _ Hf _] Hin Hwf. destruct (Hf index Hin) as (_ & _ & Hlt).
  unfold settled. destruct saved; cbn [results];
    (eapply array_set_wf; [exact Hlt|exact Hl|exact Hwf|]).
  - apply targetPath_nonempty.
  - reflexivity.
Qed.

Lemma settle_wf (p : Params) (disk : gset string) (events : list Completion) :
  forall (pending : list nat) (st : State),
    pool_inv p disk st ->
    (forall i, i ∈ pending -> i ∈ fetched st) ->
    slots_wf (results st) ->
    slots_wf (results (snd (settle p pending st events))).
Proof.
  induction events as [|ev rest IH]; intros pending st Hinv Hpend Hwf.
  - destruct pending; cbn; assumption.
  - destruct pending as [|first more]; [cbn; assumption|].
    cbn [settle]. set (pending := first :: more) in *.
    assert (Hne : pending <> []) by discriminate.
    assert (Hfirst : first ∈ pending) by apply list_elem_of_here.
    destruct (pending_pick pending first (which ev) st Hne Hfirst Hpend)
      as (Hpick & Hdel & Hsub).
    set (k := (which ev mod length pending)%nat) in *.
    set (index := nth k pending first) in *.
    rewrite resume_unfold.
    pose proof (settled_wf p disk index (saved ev) (clock ev) st Hinv Hpick Hwf) as Hwf1.
    destruct (pool_inv_settled p disk index (saved ev) (clock ev) st Hinv Hpick)
      as (Hinv1 & Hcur1 & Hfet1).
    destruct (pool_inv_worker p disk (clock ev) (abort ev)
                (enough_fuel p (settled p index (saved ev) (clock ev) st))
                (settled p index (saved ev) (clock ev) st) Hinv1) as (Hinv2 & Hst).
    pose proof (stretch_wf _ _ _ _ _ _ Hst Hwf1) as Hwf2.
    destruct (worker p _ (clock ev) (abort ev) (settled p index (saved ev) (clock ev) st))
      as [e st2]. cbn [fst snd] in *.
    assert (Hkeep : forall i, i ∈ delete k pending -> i ∈ fetched st2).
    { intros i Hi. eapply fetched_grows; [exact Hst|]. rewrite Hfet1. apply Hpend, Hsub, Hi. }
    destruct e as [|i|r].
    + apply IH; assumption.
    + apply IH; [assumption| |assumption]. intros j Hj. apply elem_of_app in Hj as [Hj|Hj].
      * apply Hkeep, Hj.
      * apply list_elem_of_singleton in Hj as ->.
        destruct Hst as [_ _ _ _ _ (-> & _)]. apply elem_of_app. right.
        apply list_elem_of_here.
    + cbn. assumption.
Qed.

Lemma start_wf (p : Params) (disk : gset string) (clock : Z) (abort : option string)
    (workers : nat) :
  forall (pending : list nat) (st : State),
    pool_inv p disk st -> slots_wf (results st) ->
    slots_wf (results (snd (start p workers clock abort pending st))).
Proof.
  induction workers as [|n IH]; intros pending st Hinv Hwf; cbn [start]; [assumption|].
  destruct (pool_inv_worker p disk clock abort (enough_fuel p st) st Hinv) as (Hinv1 & Hst).
  pose proof (stretch_wf _ _ _ _ _ _ Hst Hwf) as Hwf1.
  destruct (worker p (enough_fuel p st) clock abort st) as [e st1]. cbn [fst snd] in *.
  destruct e as [|i|r].
  - apply IH; assumption.
  - apply IH; assumption.
  - specialize (IH pending st1 Hinv1 Hwf1).
    destruct (start p n clock abort pending st1) as [[a pending'] st']. exact IH.
Qed.

Lemma download_wf (p : Params) (now : Z) (abortAtStart : option string)
    (disk : gset string) (events : list Completion) (rs : list Slot) :
  fst (downloadImagesWithConcurrency p now abortAtStart disk events) = Returned rs ->
  length rs = count p /\ slots_wf rs.
Proof.
  intros Hrs.
  destruct (download_returns_inv p now abortAtStart disk events rs Hrs) as (Hinv & Heq).
  split; [rewrite Heq; apply (pi_length _ _ _ Hinv)|].
  subst rs. clear Hinv. revert Hrs. unfold downloadImagesWithConcurrency.
  destruct (2 ^ 32 <=? Z.of_nat (count p))%Z; [discriminate|].
  pose proof (pool_inv_initial p disk) as Hinit.
  assert (Hwf0 : slots_wf (replicate (count p) (SlotFail missing_url)))
    by (apply replicate_wf; reflexivity).
  destruct (count p =? 0)%nat; [intros _; exact Hwf0|].
  pose proof (start_inv p disk now abortAtStart (limit p) [] _ Hinit
                ltac:(intros i Hi; apply elem_of_nil in Hi; contradiction)
                ltac:(cbn; lia)) as Hstart.
  pose proof (start_wf p disk now abortAtStart (limit p) [] _ Hinit Hwf0) as Hwf1.
  destruct (start p (limit p) now abortAtStart [] _) as [[a pending] st].
  destruct Hstart as (Hinv & Hpend & _ & _). cbn [snd] in Hwf1.
  destruct a; [discriminate|]. intros _.
  apply (settle_wf p disk events pending st Hinv Hpend Hwf1).
Qed.

End DirectFacts.

Module RunFacts.
Import JS Run JSFacts SlotFacts.

Section Stage.
Variable o : Options.
Variable n : nat.
Hypothesis expected : expectedCount o = Num (of_Z (Z.of_nat n)).
Hypothesis positive : (1 <= n)%nat.
Hypothesis small : (Z.of_nat n < 2 ^ 32)%Z.

Lemma expected_reads :
  Number_isFinite (expectedCount o) = true
  /\ Math_floor (expectedCount o) = Z.of_nat n
  /\ truthy (expectedCount o) = true
  /\ array_length (expectedCount o) = n
  /\ loop_bound (expectedCount o) = n
  /\ too_long (expectedCount o) = false.
Proof.
  rewrite expected.
  destruct (of_Z_reads (Z.of_nat n) ltac:(lia)) as (H1 & H2 & _ & H4 & H5 & H6 & H7).
  rewrite H1, H2, H4, H5, H6, H7, Nat2Z.id.
  repeat split; [apply negb_true_iff, Z.eqb_neq; lia | apply Z.leb_gt; lia].
Qed.

Lemma initial_results_inv : inv n (initial_results o).
Proof.
  destruct expected_reads as (_ & _ & Ht & Hl & _). unfold initial_results.
  rewrite Ht, Hl. split; [apply length_replicate | apply replicate_wf; reflexivity].
Qed.

Lemma targetDownloadCount_bounds (aic : Z) :
  (1 <= targetDownloadCount o aic <= Z.of_nat n)%Z.
Proof.
  destruct expected_reads as (Hf & Hfl & _). unfold targetDownloadCount.
  rewrite Hf, Hfl. rewrite Z.max_r by lia.
  replace (0 <? Z.of_nat n)%Z with true by (symmetry; apply Z.ltb_lt; lia).
  cbn [andb]. destruct (Z.of_nat n <? 10)%Z; [lia|].
  destruct (0 <? aic)%Z eqn:H1; cbn [andb]; [|lia].
  destruct (aic <? Z.of_nat n)%Z eqn:H2; [|lia].
  apply Z.ltb_lt in H1, H2. lia.
Qed.

Lemma resolveDownloadTargetForUrls_bounds (aic : Z) (urls : list string) :
  (0 <= resolveDownloadTargetForUrls o aic urls <= Z.of_nat n)%Z.
Proof.
  pose proof (targetDownloadCount_bounds aic) as Ht. unfold resolveDownloadTargetForUrls.
  destruct (Z.of_nat (length urls) =? 0)%Z; [lia|].
  replace (targetDownloadCount o aic =? 0)%Z with false by (symmetry; apply Z.eqb_neq; lia).
  cbn [negb]. lia.
Qed.

Lemma buttonTargetCount_bound (aic : Z) : (buttonTargetCount o aic <= n)%nat.
Proof.
  pose proof (targetDownloadCount_bounds aic) as Ht. unfold buttonTargetCount.
  replace (targetDownloadCount o aic =? 0)%Z with false by (symmetry; apply Z.eqb_neq; lia).
  cbn [negb]. lia.
Qed.

Lemma array_set_inv (i : nat) (v : Slot) (rs : list Slot) :
  (i < n)%nat -> well_formed v = true -> inv n rs -> inv n (array_set i v rs).
Proof. intros Hi Hv [Hl Hw]. apply array_set_wf; assumption. Qed.

Lemma merge_results_inv (entries rs : list Slot) :
  (length entries <= n)%nat -> slots_wf entries -> inv n rs ->
  inv n (merge_results entries rs).
Proof. intros Hl He [Hlen Hw]. apply merge_from_wf; (lia || assumption). Qed.

Lemma fill_inv (env : Zip.Env) (dir : string) (images : list string) (turns : nat) :
  forall (i : nat) (rs : list Slot) (moved : list (string * string))
         (rs' : list Slot) (moved' : list (string * string)),
    (i + turns <= n)%nat -> inv n rs ->
    Zip.fill env dir images i turns rs moved = Returned (rs', moved') ->
    inv n rs'.
Proof.
  induction turns as [|k IH]; intros i rs moved rs' moved' Hi Hinv; cbn [Zip.fill].
  { intros [= <- _]. assumption. }
  destruct (images !! i) as [image|]; [|apply IH; [lia|assumption]].
  destruct (Str.nonempty image); [|apply IH; [lia|assumption]].
  destruct (Zip.convert_error env image); [discriminate|].
  apply IH; [lia|]. apply array_set_inv; [lia|apply targetPath_nonempty|assumption].
Qed.

Lemma handleZipDownload_inv (env : Zip.Env) (dir : string) (h : Zip.Handled) :
  Zip.handleZipDownload env dir (expectedCount o) = Returned h -> inv n (Zip.results h).
Proof.
  destruct expected_reads as (_ & _ & _ & Hl & Hb & Ht). unfold Zip.handleZipDownload.
  destruct (Zip.collect_images env _) as [[images written]|e|]; try discriminate.
  rewrite Ht, Hl, Hb.
  destruct (Zip.fill env dir (Zip.sort images) 0 n _ []) as [[rs moved]|e|] eqn:Hfill;
    try discriminate.
  intros [= <-]. cbn [Zip.results].
  eapply fill_inv; [|
    |exact Hfill]; [lia|].
  split; [apply length_replicate | apply replicate_wf; reflexivity].
Qed.

Lemma direct_download_inv (aic : Z) (urls : list string) (deadline : Z) (d : DirectRun)
    (rs : list Slot) :
  inv n rs -> inv n (snd (direct_download o aic urls deadline d rs)).
Proof.
  intros Hinv. unfold direct_download.
  set (params := {| Direct.urls := urls |}).
  destruct (fst (Direct.downloadImagesWithConcurrency params _ _ _ _))
    as [entries|e|] eqn:Hrun; cbn [snd]; try assumption.
  destruct (DirectFacts.download_wf params _ _ _ _ entries Hrun) as (Hlen & Hwf).
  apply merge_results_inv; [|assumption|assumption].
  rewrite Hlen. unfold Direct.count, params. cbn [Direct.expectedCount].
  pose proof (resolveDownloadTargetForUrls_bounds aic urls) as Hb.
  destruct (of_Z_reads (resolveDownloadTargetForUrls o aic urls) ltac:(lia))
    as (H1 & H2 & _).
  rewrite H1, H2. lia.
Qed.

Lemma take_bulk_inv (aic clock : Z) (f : Fetched) (rs : list Slot) :
  inv n rs -> inv n (snd (take_bulk o aic clock f rs)).
Proof.
  intros Hinv. unfold take_bulk. destruct f as [message|archive|]; cbn [snd].
  - assumption.
  - destruct (Zip.handleZipDownload archive (outputDir o) (expectedCount o))
      as [h|e|] eqn:Hzip; cbn [snd]; try assumption.
    destruct (handleZipDownload_inv archive _ h Hzip) as (Hl & Hw).
    apply merge_results_inv; [lia|assumption|assumption].
  - apply array_set_inv; [lia|apply path_join_nonempty|assumption].
Qed.

Lemma toolbar_candidates_inv (aic clock : Z) (candidates : list Fetched) :
  forall rs, inv n rs -> inv n (snd (toolbar_candidates o aic clock candidates rs)).
Proof.
  induction candidates as [|c rest IH]; intros rs Hinv; cbn [toolbar_candidates];
    [assumption|].
  pose proof (take_bulk_inv aic clock c rs Hinv) as H.
  destruct (take_bulk o aic clock c rs) as [[done|] rs1]; cbn [snd] in *;
    [assumption | apply IH; assumption].
Qed.

Lemma attemptToolbarDownload_inv (aic : Z) (tb : Toolbar) (rs : list Slot) :
  inv n rs -> inv n (snd (attemptToolbarDownload o aic tb rs)).
Proof.
  intros Hinv. unfold attemptToolbarDownload.
  destruct (both_expired o (tb_clock tb)); [assumption|].
  destruct (tb_error tb); [assumption|].
  destruct (negb (tb_ready tb)); [assumption|].
  pose proof (toolbar_candidates_inv aic (tb_clock tb) (tb_candidates tb) rs Hinv) as H.
  destruct (toolbar_candidates o aic (tb_clock tb) (tb_candidates tb) rs). exact H.
Qed.

Lemma attemptDownloadAll_inv (aic : Z) (da : DownloadAll) (rs : list Slot) :
  inv n rs -> inv n (snd (attemptDownloadAll o aic da rs)).
Proof.
  intros Hinv. unfold attemptDownloadAll.
  destruct (both_expired o (da_clock da)); [assumption|].
  destruct (da_error da); [assumption|].
  destruct (negb (da_ready da)); [assumption|].
  destruct (requireDownloadAll o && negb (da_appeared da)); [assumption|].
  destruct (negb (da_match da)); [assumption|].
  pose proof (take_bulk_inv aic (da_clock da) (da_fetched da) rs Hinv) as H.
  destruct (take_bulk o aic (da_clock da) (da_fetched da) rs) as [[done|] rs1]; exact H.
Qed.

Lemma button_attempt_inv (aic : Z) (i : nat) (clock : Z) (f : Fetched) (rs : list Slot)
    (downloaded : bool) :
  (i < n)%nat -> inv n rs ->
  inv n (fst (fst (button_attempt o aic i clock f rs downloaded))).
Proof.
  intros Hi Hinv. unfold button_attempt. destruct f as [message|archive|]; cbn [fst].
  - assumption.
  - destruct (Zip.handleZipDownload archive (outputDir o) (expectedCount o))
      as [h|e|] eqn:Hzip; cbn [fst]; try assumption.
    destruct (handleZipDownload_inv archive _ h Hzip) as (Hl & Hw).
    apply merge_results_inv; [lia|assumption|assumption].
  - apply array_set_inv; [assumption|apply targetPath_nonempty|assumption].
Qed.

Lemma press_inv (aic : Z) (i : nat) (b : Button) (rs : list Slot) (downloaded : bool) :
  (i < n)%nat -> button_named b = true -> inv n rs ->
  inv n (snd (fst (press o aic i b rs downloaded))).
Proof.
  intros Hi Hnamed Hinv. apply andb_true_iff in Hnamed as [Hfirst Hsecond].
  unfold press. destruct (process_expired o (b_clock b)); [assumption|].
  destruct (negb (b_present b)).
  { cbn [fst snd]. apply array_set_inv; [assumption|reflexivity|assumption]. }
  destruct (b_first b) as [message|archive|] eqn:Efirst.
  - cbn [fetched_named] in Hfirst.
    destruct (isElementDetachedError message).
    + destruct (negb (b_relocated b)).
      { cbn [fst snd]. apply array_set_inv; [assumption|reflexivity|assumption]. }
      destruct (b_second b) as [message2|archive2|] eqn:Esecond.
      * cbn [fst snd]. apply array_set_inv; assumption.
      * pose proof (button_attempt_inv aic i (b_clock b) (FetchedZip archive2) rs
                      downloaded Hi Hinv) as H.
        destruct (button_attempt o aic i (b_clock b) (FetchedZip archive2) rs downloaded)
          as [[rs1 dl] stored]. cbn [fst snd] in *.
        destruct stored as [[|]|]; cbn [fst snd];
          try assumption; apply array_set_inv; assumption.
      * pose proof (button_attempt_inv aic i (b_clock b) FetchedFile rs
                      downloaded Hi Hinv) as H.
        destruct (button_attempt o aic i (b_clock b) FetchedFile rs downloaded)
          as [[rs1 dl] stored]. cbn [fst snd] in *.
        destruct stored as [[|]|]; cbn [fst snd];
          try assumption; apply array_set_inv; assumption.
    + cbn [fst snd]. apply array_set_inv; assumption.
  - pose proof (button_attempt_inv aic i (b_clock b) (FetchedZip archive) rs
                  downloaded Hi Hinv) as H.
    destruct (button_attempt o aic i (b_clock b) (FetchedZip archive) rs downloaded)
      as [[rs1 dl] stored]. exact H.
  - pose proof (button_attempt_inv aic i (b_clock b) FetchedFile rs
                  downloaded Hi Hinv) as H.
    destruct (button_attempt o aic i (b_clock b) FetchedFile rs downloaded)
      as [[rs1 dl] stored]. exact H.
Qed.

Lemma nth_named (buttons : list Button) (i : nat) :
  forallb button_named buttons = true -> button_named (nth i buttons absent_button) = true.
Proof.
  intros H. destruct (nth_in_or_default i buttons absent_button) as [Hin | ->];
    [|reflexivity].
  rewrite forallb_forall in H. apply H, Hin.
Qed.

Lemma press_all_inv (aic : Z) (buttons : list Button) (turns : nat) :
  forallb button_named buttons = true ->
  forall (i : nat) (rs : list Slot) (downloaded : bool),
    (i + turns <= n)%nat -> inv n rs ->
    inv n (snd (fst (press_all o aic buttons i turns rs downloaded))).
Proof.
  intros Hnamed. induction turns as [|k IH]; intros i rs downloaded Hi Hinv;
    cbn [press_all]; [assumption|].
  pose proof (press_inv aic i (nth i buttons absent_button) rs downloaded
                ltac:(lia) (nth_named buttons i Hnamed) Hinv) as H.
  destruct (press o aic i (nth i buttons absent_button) rs downloaded) as [[out rs1] dl].
  cbn [fst snd] in H. destruct out; [apply IH; [lia|assumption] | assumption | assumption].
Qed.

Lemma per_item_inv (aic : Z) (bs : Buttons) (rs : list Slot) (downloaded : bool) :
  forallb button_named (bs_buttons bs) = true -> inv n rs ->
  inv n (snd (fst (per_item o aic bs rs downloaded))).
Proof.
  intros Hnamed Hinv. unfold per_item.
  destruct (download_expired o (bs_clock bs)); [assumption|].
  destruct (bs_error bs); [assumption|].
  assert (Hn : forallb button_named (if bs_toolbar bs then bs_buttons bs else []) = true)
    by (destruct (bs_toolbar bs); [assumption|reflexivity]).
  destruct (if bs_toolbar bs then bs_buttons bs else []) as [|b rest]; [assumption|].
  pose proof (press_all_inv aic (b :: rest) (buttonTargetCount o aic) Hn 0 rs downloaded
                ltac:(pose proof (buttonTargetCount_bound aic); lia) Hinv) as H.
  destruct (press_all o aic (b :: rest) 0 (buttonTargetCount o aic) rs downloaded)
    as [[out rs1] dl]. cbn [fst snd] in H. destruct out; assumption.
Qed.

Lemma sequence_good (A : Type) (step : outcome A * list Slot)
    (next : A -> list Slot -> outcome Report * list Slot) :
  inv n (snd step) ->
  (forall a rs, inv n rs -> good n (next a rs)) ->
  good n (sequence step next).
Proof.
  intros Hstep Hnext. destruct step as [[a|e|] rs]; cbn [sequence snd] in *.
  - apply Hnext, Hstep.
  - split; [assumption|]. intros r H. discriminate.
  - split; [assumption|]. intros r H. discriminate.
Qed.

Lemma guard_inv (e : option string) (rs : list Slot) : inv n rs -> inv n (snd (guard e rs)).
Proof. intros H. destruct e; exact H. Qed.

Lemma finalizeAndDownload_good (p : Pass) (rs0 : list Slot) :
  errors_named p = true -> inv n rs0 -> good n (finalizeAndDownload o p rs0).
Proof.
  intros Hnamed Hinv. unfold finalizeAndDownload. cbn zeta.
  assert (Hreset : inv n (if reset_results p then CountWait.resetResults rs0 else rs0)).
  { destruct (reset_results p); [|assumption]. destruct Hinv as [Hl Hw].
    unfold CountWait.resetResults. split; [rewrite length_map; assumption|].
    apply Forall_map. apply Forall_forall. intros s _. reflexivity. }
  apply sequence_good; [apply guard_inv, Hreset|]. intros _ rs1 H1.
  apply sequence_good; [apply guard_inv, H1|]. intros _ rs2 H2.
  apply sequence_good; [apply guard_inv, H2|]. intros _ rs3 H3.
  apply sequence_good; [apply guard_inv, H3|]. intros _ rs4 H4.
  apply sequence_good; [apply guard_inv, H4|]. intros _ rs5 H5.
  apply sequence_good.
  { destruct (preferDirectDownload o); [|assumption].
    destruct (both_expired o _); [assumption|].
    destruct (agentImageUrls p) as [|u us]; [assumption|].
    match goal with
    | |- context [direct_download o ?a ?u ?dl ?d rs5] =>
        pose proof (direct_download_inv a u dl d rs5 H5) as H;
        destruct (direct_download o a u dl d rs5) as [[x|e|] rs']; exact H
    end. }
  intros downloaded rs6 H6.
  apply sequence_good.
  { destruct downloaded; [assumption|]. apply attemptToolbarDownload_inv, H6. }
  intros downloaded2 rs7 H7.
  apply sequence_good.
  { destruct downloaded2; [assumption|].
    destruct (tryDownloadAllFirst o); [apply attemptDownloadAll_inv, H7|].
    destruct (download_expired o _); [assumption|]. apply attemptDownloadAll_inv, H7. }
  intros downloaded3 rs8 H8.
  apply sequence_good.
  { destruct (negb downloaded3 && hasDownloadButtons o); [|assumption].
    pose proof (per_item_inv (agentImageCount p) (buttons p) rs8 downloaded3 Hnamed H8) as H.
    destruct (per_item o (agentImageCount p) (buttons p) rs8 downloaded3)
      as [[[x|e|] rs'] dl]; exact H. }
  intros downloaded4 rs9 H9.
  apply sequence_good.
  { destruct downloaded4; [assumption|].
    destruct (both_expired o _); [assumption|].
    destruct (scraped p) as [e|[|u us]]; [assumption|assumption|].
    apply direct_download_inv, H9. }
  intros _ rs10 H10. split; [assumption|]. cbn. intros r [= <-]. reflexivity.
Qed.

Lemma report_of_inv (first : Pass) (reopen_error : option string) (second : Pass)
    (r : Report) :
  errors_named first = true -> errors_named second = true ->
  report_of o first reopen_error second = Returned r ->
  inv n (results r).
Proof.
  intros Hfirst Hsecond. unfold report_of.
  destruct expected_reads as (_ & _ & _ & _ & _ & ->).
  destruct (finalizeAndDownload_good first (initial_results o) Hfirst initial_results_inv)
    as (Hinv1 & Hres1).
  destruct (finalizeAndDownload o first (initial_results o)) as [[r1|e1|] rs1];
    cbn [fst snd] in *.
  - intros [= <-]. rewrite (Hres1 r1 eq_refl). assumption.
  - destruct (isPageClosedError e1); [|intros [= <-]; assumption].
    destruct reopen_error as [e'|]; [intros [= <-]; assumption|].
    destruct (finalizeAndDownload_good second rs1 Hsecond Hinv1) as (Hinv2 & Hres2).
    destruct (finalizeAndDownload o second rs1) as [[r2|e2|] rs2]; cbn [fst snd] in *.
    + intros [= <-]. rewrite (Hres2 r2 eq_refl). assumption.
    + intros [= <-]. assumption.
    + discriminate.
  - discriminate.
Qed.

End Stage.
(** C8, as amended.  For a run with a whole expected count [n] of at
    least one, whose recorded download errors carry a message, the
    array of the report has length [n] and every slot of it is a
    success with a non-empty file path or a failure with a non-empty
    reason; the reason may be the initial [未开始], which no step
    replaces in a slot that no download wrote. *)
Theorem run_slots_well_formed (o : Options) (n : nat) (first : Pass)
    (reopen_error : option string) (second : Pass) (r : Report) :
  expectedCount o = Num (of_Z (Z.of_nat n)) ->
  (1 <= n)%nat -> (Z.of_nat n < 2 ^ 32)%Z ->
  errors_named first = true -> errors_named second = true ->
  report_of o first reopen_error second = Returned r ->
  length (results r) = n
  /\ (forall i, (i < n)%nat ->
        (exists filePath downloadedAt,
           results r !! i = Some (SlotOk filePath downloadedAt) /\ filePath <> EmptyString)
        \/ (exists reason,
              results r !! i = Some (SlotFail reason) /\ reason <> EmptyString))
  /\ initial_results o = replicate n (SlotFail not_started).
Proof.
  intros Hexp Hpos Hsmall Hfirst Hsecond Hrun.
  destruct (report_of_inv o n Hexp Hpos Hsmall first reopen_error second r
              Hfirst Hsecond Hrun) as (Hlen & Hwf).
  split; [assumption|]. split.
  - intros i Hi. destruct (lookup_lt_is_Some_2 (results r) i ltac:(lia)) as [s Hs].
    unfold slots_wf in Hwf. rewrite Forall_lookup in Hwf. specialize (Hwf i s Hs).
    destruct s as [filePath downloadedAt|reason|]; cbn in Hwf; [| |discriminate].
    + left. exists filePath, downloadedAt. split; [assumption|].
      intros ->. discriminate.
    + right. exists reason. split; [assumption|]. intros ->. discriminate.
  - destruct (expected_reads o n Hexp Hpos Hsmall) as (_ & _ & Ht & Hl & _).
    unfold initial_results. rewrite Ht, Hl. reflexivity.
Qed.

Lemma run_slots_well_formed_witness :
  exists r,
    report_of example_options eight_found None eight_found = Returned r
    /\ length (results r) = 10%nat
    /\ (forall i, (i < 10)%nat ->
          (exists filePath downloadedAt,
             results r !! i = Some (SlotOk filePath downloadedAt)
             /\ filePath <> EmptyString)
          \/ (exists reason,
                results r !! i = Some (SlotFail reason) /\ reason <> EmptyString))
    /\ initial_results example_options = replicate 10 (SlotFail not_started).
Proof.
  eexists. split; [vm_compute; reflexivity|].
  apply (run_slots_well_formed example_options 10 eight_found None eight_found).
  - reflexivity.
  - lia.
  - vm_compute. reflexivity.
  - reflexivity.
  - reflexivity.
  - vm_compute. reflexivity.
Defined.

(** C8 as stated fails.  When eight of ten expected images are found and
    all eight are fetched, the run reports success and the last two
    slots are still [未开始]; when no image is found, the report carries
    the error and every slot is still [未开始]. *)
Lemma run_leaves_slots_not_started :
  (exists r,
     report_of example_options eight_found None eight_found = Returned r
     /\ ok r = true /\ successes r = Some 8%Z /\ length (results r) = 10%nat
     /\ results r !! 8%nat = Some (SlotFail "未开始")
     /\ results r !! 9%nat = Some (SlotFail "未开始"))
  /\ report_of example_options none_found None eight_found
     = Returned (error_report "生成图片为 0，重试仍无结果"
                   (replicate 10 (SlotFail "未开始"))).
Proof.
  split; [|vm_compute; reflexivity].
  eexists. split; [vm_compute; reflexivity|]. repeat split.
Qed.

End RunFacts.

Module TaskQueueFacts.
Import TaskQueue.

Lemma isNew_spec (s : cell) :
  isNew s = true <-> s = Undefined \/ s = Null \/ s = Text [] \/ s = Text status_new.
Proof.
  split.
  - destruct s as [ | | b | x | t | n | ]; cbn; try discriminate; auto.
    intros H. apply orb_true_iff in H. destruct H as [H|H]; apply bool_decide_eq_true_1 in H;
      subst; auto.
  - intros [-> | [-> | [-> | ->]]]; reflexivity.
Qed.

Lemma hasTaskId_spec (tid : cell) :
  hasTaskId tid = Returned true <-> exists t, tid = Text t /\ trim t <> [].
Proof.
  split.
  - unfold hasTaskId. destruct (truthy tid) eqn:Ht; [|discriminate].
    destruct tid as [ | | b | x | t | n | ]; try discriminate.
    intros [= H]. exists t. split; [reflexivity|].
    intros Hn. rewrite Hn in H. discriminate.
  - intros (t & -> & Hne). unfold hasTaskId. cbn [truthy].
    assert (Hlen : (length t =? 0)%nat = false).
    { destruct t; [contradiction Hne; reflexivity | reflexivity]. }
    rewrite Hlen. cbn [negb]. destruct (trim t); [contradiction|reflexivity].
Qed.

Lemma hasContent_spec (minLength : nat) (raw : cell) :
  (0 < minLength)%nat ->
  hasContent minLength raw = true
  <-> (exists t, raw = Text t /\ (minLength <= length t)%nat)
      \/ (exists n, raw = Array n /\ (minLength <= n)%nat).
Proof.
  intros Hpos. unfold hasContent. split.
  - destruct raw as [ | | b | x | t | n | ]; cbn [truthy].
    + cbn. intros H. apply Nat.leb_le in H. lia.
    + cbn. intros H. apply Nat.leb_le in H. lia.
    + destruct b; [discriminate|]. cbn. intros H. apply Nat.leb_le in H. lia.
    + destruct (JS.truthy (JS.Num x)); [discriminate|].
      cbn. intros H. apply Nat.leb_le in H. lia.
    + destruct t as [|c t]; cbn [length Nat.eqb negb].
      * cbn. intros H. apply Nat.leb_le in H. lia.
      * intros H. apply Nat.leb_le in H. left. eauto.
    + intros H. apply Nat.leb_le in H. right. eauto.
    + discriminate.
  - intros [(t & -> & H) | (n & -> & H)]; cbn [truthy].
    + destruct t as [|c t]; [cbn in H; lia|]. cbn [length Nat.eqb negb].
      apply Nat.leb_le. assumption.
    + apply Nat.leb_le. assumption.
Qed.

Lemma claim_condition (minLength : nat) (item : Item) (has_id : bool) :
  hasTaskId (task_id (fields item)) = Returned has_id ->
  isNew (status (fields item)) && has_id
    && hasContent minLength (rewritten_content (fields item))
    && notClaimed (claimed_by (fields item)) = true
  <-> qualifies minLength item.
Proof.
  intros Hid. unfold qualifies. rewrite Hid, !andb_true_iff. split.
  - intros [[[H1 H2] H3] H4]. subst. auto.
  - intros (H1 & [= H2] & H3 & H4). auto.
Qed.

Lemma scan_claims (minLength : nat) (worker : text) (now : Z)
    (update_error : string -> option string) (table : list Item) :
  forall (items : list Item) (item : Item),
    fst (scan minLength worker now update_error items table) = Returned (Some item) ->
    exists before after,
      items = before ++ item :: after
      /\ qualifies minLength item
      /\ Forall (fun it => ~ qualifies minLength it) before
      /\ snd (scan minLength worker now update_error items table)
         = updateRecord worker now (record_id item) table.
Proof.
  induction items as [|it rest IH]; intros item; cbn [scan]; [discriminate|].
  destruct (hasTaskId (task_id (fields it))) as [ has_id | e | ] eqn:Hid; try discriminate.
  pose proof (claim_condition minLength it has_id Hid) as Hq.
  destruct (isNew _ && has_id && _ && _).
  - destruct (update_error (record_id it)); [discriminate|].
    cbn. intros [= <-]. exists [], rest. split; [reflexivity|].
    split; [apply Hq; reflexivity|]. split; [constructor|reflexivity].
  - intros H. destruct (IH item H) as (before & after & -> & Hqual & Hbefore & Hsnd).
    exists (it :: before), after. split; [reflexivity|]. split; [assumption|].
    split; [|assumption]. constructor; [|assumption].
    intros Hc. apply Hq in Hc. discriminate.
Qed.

Lemma scan_keeps (minLength : nat) (worker : text) (now : Z)
    (update_error : string -> option string) (table : list Item) :
  forall items : list Item,
    (forall item, fst (scan minLength worker now update_error items table)
                  <> Returned (Some item)) ->
    snd (scan minLength worker now update_error items table) = table.
Proof.
  induction items as [|it rest IH]; cbn [scan]; [reflexivity|].
  destruct (hasTaskId (task_id (fields it))) as [ has_id | e | ]; try reflexivity.
  destruct (isNew _ && has_id && _ && _).
  - destruct (update_error (record_id it)); [reflexivity|].
    cbn. intros H. contradiction (H it). reflexivity.
  - assumption.
Qed.

Lemma scan_null (minLength : nat) (worker : text) (now : Z)
    (update_error : string -> option string) (table : list Item) :
  forall items : list Item,
    fst (scan minLength worker now update_error items table) = Returned None ->
    Forall (fun it => ~ qualifies minLength it) items.
Proof.
  induction items as [|it rest IH]; cbn [scan]; [constructor|].
  destruct (hasTaskId (task_id (fields it))) as [ has_id | e | ] eqn:Hid; try discriminate.
  pose proof (claim_condition minLength it has_id Hid) as Hq.
  destruct (isNew _ && has_id && _ && _).
  - destruct (update_error (record_id it)); discriminate.
  - intros H. constructor; [|apply IH, H]. intros Hc. apply Hq in Hc. discriminate.
Qed.

Lemma scan_returns (minLength : nat) (worker : text) (now : Z)
    (update_error : string -> option string) (table : list Item) :
  (forall id, update_error id = None) ->
  forall items : list Item,
    Forall (fun it => exists b, hasTaskId (task_id (fields it)) = Returned b) items ->
    exists res, fst (scan minLength worker now update_error items table) = Returned res.
Proof.
  intros Hup. induction items as [|it rest IH]; intros Hall; cbn [scan]; [eauto|].
  inversion Hall as [|? ? (b & Hb) Hrest]; subst. rewrite Hb.
  destruct (isNew _ && b && _ && _).
  - rewrite Hup. cbn. eauto.
  - apply IH, Hrest.
Qed.

Lemma updateRecord_lookup (worker : text) (now : Z) (id : string) (table : list Item)
    (k : nat) :
  updateRecord worker now id table !! k
  = (fun it => if String.eqb (record_id it) id
               then {| record_id := record_id it;
                       fields := claim_fields worker now (fields it) |}
               else it) <$> table !! k.
Proof. unfold updateRecord. apply list_lookup_fmap. Qed.

(** C9.  [claimTask] claims the first listed record, and only a record,
    whose status is [undefined], [null], empty or [new], whose task
    identifier is text that is not empty after trimming, whose content
    has at least the minimum length (10 for the first worker, 30 for the
    second) and whose claimant is empty.  On claiming it sets the status
    of that record to [processing] with the worker name and the claim
    time, leaves every other record alone, and returns the record;
    when it returns [null] no listed record qualifies, and whenever it
    does not return a record the table is as it was.  It does return
    when no identifier makes [trim] throw and the update succeeds. *)
Theorem claimTask_claims_first_qualifying (minLength : nat) (worker : text) (now : Z)
    (items : list Item) (update_error : string -> option string) (table : list Item) :
  let r := claimTask minLength worker now (inl items) update_error table in
  (forall item, fst r = Returned (Some item) ->
     exists before after,
       items = before ++ item :: after
       /\ qualifies minLength item
       /\ Forall (fun it => ~ qualifies minLength it) before
       /\ snd r = updateRecord worker now (record_id item) table)
  /\ (fst r = Returned None -> Forall (fun it => ~ qualifies minLength it) items)
  /\ ((forall item, fst r <> Returned (Some item)) -> snd r = table)
  /\ ((forall id, update_error id = None) ->
      Forall (fun it => exists b, hasTaskId (task_id (fields it)) = Returned b) items ->
      exists res, fst r = Returned res)
  /\ (forall it, qualifies minLength it <->
        (status (fields it) = Undefined \/ status (fields it) = Null
         \/ status (fields it) = Text [] \/ status (fields it) = Text status_new)
        /\ (exists t, task_id (fields it) = Text t /\ trim t <> [])
        /\ hasContent minLength (rewritten_content (fields it)) = true
        /\ truthy (claimed_by (fields it)) = false)
  /\ ((0 < minLength)%nat -> forall raw,
        hasContent minLength raw = true <->
        (exists t, raw = Text t /\ (minLength <= length t)%nat)
        \/ (exists n, raw = Array n /\ (minLength <= n)%nat))
  /\ (forall id k it, table !! k = Some it ->
        updateRecord worker now id table !! k
        = Some (if String.eqb (record_id it) id
                then {| record_id := record_id it;
                        fields := {| status := Text status_processing;
                                     task_id := task_id (fields it);
                                     rewritten_content := rewritten_content (fields it);
                                     claimed_by := Text worker;
                                     claimed_at := Number (JS.of_Z now) |} |}
                else it))
  /\ claimTask_first = claimTask 10 /\ claimTask_second = claimTask 30.
Proof.
  cbn zeta. unfold claimTask.
  split; [apply scan_claims|]. split; [apply scan_null|]. split; [apply scan_keeps|].
  split; [intros Hup Hall; apply scan_returns; assumption|].
  split.
  { intros it. unfold qualifies. rewrite isNew_spec, hasTaskId_spec.
    unfold notClaimed. rewrite negb_true_iff. reflexivity. }
  split; [intros Hpos raw; apply hasContent_spec, Hpos|].
  split; [|split; reflexivity].
  intros id k it Hk. rewrite updateRecord_lookup, Hk. reflexivity.
Qed.

Lemma claimTask_claims_first_qualifying_witness :
  fst (claimTask_first (text_of_string "worker-a") 1700 (inl example_queue)
         (fun _ => None) example_queue)
  = Returned (nth_error example_queue 2)
  /\ fst (claimTask_second (text_of_string "worker-a") 1700 (inl example_queue)
            (fun _ => None) example_queue) = Returned None
  /\ Forall (fun it => ~ qualifies 30 it) example_queue
  /\ snd (claimTask_second (text_of_string "worker-a") 1700 (inl example_queue)
            (fun _ => None) example_queue) = example_queue
  /\ exists before after item,
       example_queue = before ++ item :: after
       /\ qualifies 10 item
       /\ Forall (fun it => ~ qualifies 10 it) before
       /\ snd (claimTask_first (text_of_string "worker-a") 1700 (inl example_queue)
                 (fun _ => None) example_queue)
          = updateRecord (text_of_string "worker-a") 1700 (record_id item) example_queue.
Proof.
  pose proof (claimTask_claims_first_qualifying 10 (text_of_string "worker-a") 1700
                example_queue (fun _ => None) example_queue) as (Hsome & _).
  pose proof (claimTask_claims_first_qualifying 30 (text_of_string "worker-a") 1700
                example_queue (fun _ => None) example_queue) as (_ & Hnone & Hkeep & _).
  split; [vm_compute; reflexivity|]. split; [vm_compute; reflexivity|].
  split; [apply Hnone; vm_compute; reflexivity|].
  split; [apply Hkeep; intros item; vm_compute; discriminate|].
  destruct (Hsome (record "rec3" (Text []) (Text (text_of_string " task-3 "))
                     (Text (text_of_string "twelve chars")) Null))
    as (before & after & H).
  { vm_compute. reflexivity. }
  exists before, after. eexists. exact H.
Defined.

End TaskQueueFacts.
